(** * cultionet: sample construction (src/cultionet/data/create.py)

    A shallow embedding of the array routines and of the grid loop of
    [create.py], with the properties of the design document stated over it.

    numpy arrays of rank two are lists of rows.  Every numpy operation used
    by the module is written with the two primitives [Np.mk] (tabulate) and
    [Np.get] (index), so that each routine has a pointwise reading.  The
    libraries outside the repository (scipy's [label], skimage's
    [regionprops], OpenCV's distance transform, geopandas' [clip], the
    augmentation package) are modelled executably from their documentation
    or taken as the variables of a section.

    The first part holds the definitions, the second part the lemmas. *)

From Stdlib Require Import ZArith List Bool Lia QArith Lqa.
From stdpp Require Import gmap strings pretty.
Import ListNotations.

#[local] Open Scope Z_scope.
#[local] Unset Default Proof Using.

(** ** numpy arrays of rank two *)

Module Np.

Definition array (A : Type) : Type := list (list A).

Definition nrows {A} (a : array A) : nat := length a.

Definition ncols {A} (a : array A) : nat :=
  match a with
  | [] => 0%nat
  | row :: _ => length row
  end.

(** [a[r, c]], with [d] outside the array. *)
Definition get {A} (d : A) (a : array A) (r c : nat) : A :=
  nth c (nth r a []) d.

(** The array of shape [(n, m)] whose cell [(r, c)] holds [f r c]. *)
Definition mk {A} (n m : nat) (f : nat -> nat -> A) : array A :=
  map (fun r => map (fun c => f r c) (seq 0 m)) (seq 0 n).

(** Element-wise application: [np.where(cond(a), x, y)], [np.uint8(a > 0)]. *)
Definition amap {A B} (d : A) (f : A -> B) (a : array A) : array B :=
  mk (nrows a) (ncols a) (fun r c => f (get d a r c)).

(** Element-wise binary operation on two arrays of the shape of [a]. *)
Definition zip2 {A B C} (da : A) (db : B) (f : A -> B -> C)
    (a : array A) (b : array B) : array C :=
  mk (nrows a) (ncols a) (fun r c => f (get da a r c) (get db b r c)).

(** [np.zeros_like(a)] *)
Definition zeros_like {A B} (z : B) (a : array A) : array B :=
  mk (nrows a) (ncols a) (fun _ _ => z).

(** [np.pad(a, pad_width=((k, k), (k, k)), mode='edge')] *)
Definition pad_edge {A} (d : A) (k : nat) (a : array A) : array A :=
  mk (nrows a + 2 * k) (ncols a + 2 * k)
     (fun r c => get d a (Nat.min (r - k) (nrows a - 1))
                         (Nat.min (c - k) (ncols a - 1))).

(** [np.roll(a, (s0, s1), axis=(0, 1))]: cell [(r, c)] of the result is cell
    [((r - s0) mod n, (c - s1) mod m)] of [a]. *)
Definition np_roll {A} (d : A) (s0 s1 : Z) (a : array A) : array A :=
  mk (nrows a) (ncols a)
     (fun r c => get d a (Z.to_nat ((Z.of_nat r - s0) mod Z.of_nat (nrows a)))
                         (Z.to_nat ((Z.of_nat c - s1) mod Z.of_nat (ncols a)))).

(** [a[k:-k, k:-k]] *)
Definition inner {A} (d : A) (k : nat) (a : array A) : array A :=
  mk (nrows a - 2 * k) (ncols a - 2 * k) (fun r c => get d a (r + k) (c + k)).

(** [a[r0:r1, c0:c1]] for [r0 <= r1 <= nrows a], [c0 <= c1 <= ncols a]. *)
Definition slice {A} (d : A) (r0 r1 c0 c1 : nat) (a : array A) : array A :=
  mk (r1 - r0) (c1 - c0) (fun r c => get d a (r0 + r) (c0 + c)).

(** [a[r0:r1, c0:c1] = b] *)
Definition set_slice {A} (d : A) (r0 r1 c0 c1 : nat) (b a : array A) : array A :=
  mk (nrows a) (ncols a)
     (fun r c =>
        if (r0 <=? r)%nat && (r <? r1)%nat && (c0 <=? c)%nat && (c <? c1)%nat
        then get d b (r - r0) (c - c0)
        else get d a r c).

(** [a[i, :] = row] *)
Definition set_row {A} (d : A) (i : nat) (row : list A) (a : array A) : array A :=
  mk (nrows a) (ncols a)
     (fun r c => if (r =? i)%nat then nth c row d else get d a r c).

(** [a[:, j] = col] *)
Definition set_col {A} (d : A) (j : nat) (col : list A) (a : array A) : array A :=
  mk (nrows a) (ncols a)
     (fun r c => if (c =? j)%nat then nth r col d else get d a r c).

(** [a[i, :]] and [a[:, j]] *)
Definition row_of {A} (d : A) (i : nat) (a : array A) : list A :=
  map (fun c => get d a i c) (seq 0 (ncols a)).

Definition col_of {A} (d : A) (j : nat) (a : array A) : list A :=
  map (fun r => get d a r j) (seq 0 (nrows a)).

(** [np.array(l).sum(axis=0)] for a list of arrays of shape [(n, m)]. *)
Definition sum_axis0 (n m : nat) (l : list (array Z)) : array Z :=
  mk n m (fun r c => fold_right Z.add 0 (map (fun a => get 0 a r c) l)).

(** The index pairs of an array of shape [(n, m)] in raster (C) order. *)
Definition indices (n m : nat) : list (nat * nat) :=
  flat_map (fun r => map (fun c => (r, c)) (seq 0 m)) (seq 0 n).

(** The positions of the cells of [a] that satisfy [p], in raster order:
    [np.where(p(a))]. *)
Definition where_idx {A} (d : A) (p : A -> bool) (a : array A) : list (nat * nat) :=
  List.filter (fun rc => p (get d a (fst rc) (snd rc))) (indices (nrows a) (ncols a)).

(** [a[idx]] for a list of positions. *)
Definition take_idx {A} (d : A) (a : array A) (idx : list (nat * nat)) : list A :=
  map (fun rc => get d a (fst rc) (snd rc)) idx.

(** [a[seg == lab] = v] *)
Definition assign_where {A} (d : A) (seg : array Z) (lab : Z) (v : A)
    (a : array A) : array A :=
  mk (nrows a) (ncols a)
     (fun r c => if get 0 seg r c =? lab then v else get d a r c).

End Np.

Import Np.

(** The label codes of the module. *)
Definition CROP_CLASS : Z := 1.
Definition EDGE_CLASS : Z := 2.

Definition b2z (b : bool) : Z := if b then 1 else 0.

(** ** Floating-point cells

    The distance field and the image bands hold floats.  What the routines
    below depend on is the IEEE case split (a number, an infinity, a
    not-a-number), not the rounding: a cell is an exact rational or one of
    the three special values.  Zero carries no sign. *)

Inductive fval : Type :=
| FNum (q : Q)
| FPosInf
| FNegInf
| FNaN.

Definition f0 : fval := FNum 0.
Definition f1 : fval := FNum 1.

Definition Qltb (x y : Q) : bool := negb (Qle_bool y x).

Definition of_Z (z : Z) : fval := FNum (inject_Z z).

(** Multiplication: an infinity times zero is not a number. *)
Definition fmul (x y : fval) : fval :=
  let by_sign (q : Q) (pos : bool) :=
    if Qeq_bool q 0 then FNaN
    else if Bool.eqb (Qltb 0 q) pos then FPosInf else FNegInf in
  match x, y with
  | FNaN, _ | _, FNaN => FNaN
  | FNum a, FNum b => FNum (a * b)
  | FNum a, FPosInf | FPosInf, FNum a => by_sign a true
  | FNum a, FNegInf | FNegInf, FNum a => by_sign a false
  | FPosInf, FPosInf | FNegInf, FNegInf => FPosInf
  | FPosInf, FNegInf | FNegInf, FPosInf => FNegInf
  end.

(** Addition: opposite infinities add to not-a-number. *)
Definition fadd (x y : fval) : fval :=
  match x, y with
  | FNaN, _ | _, FNaN => FNaN
  | FNum a, FNum b => FNum (a + b)
  | FPosInf, FNegInf | FNegInf, FPosInf => FNaN
  | FPosInf, _ | _, FPosInf => FPosInf
  | FNegInf, _ | _, FNegInf => FNegInf
  end.

(** Division: [0/0] and [inf/inf] are not numbers, [x/0] is an infinity of
    the sign of [x]. *)
Definition fdiv (x y : fval) : fval :=
  match x, y with
  | FNaN, _ | _, FNaN => FNaN
  | FNum a, FNum b =>
      if Qeq_bool b 0 then
        if Qeq_bool a 0 then FNaN
        else if Qltb 0 a then FPosInf else FNegInf
      else FNum (a / b)
  | FNum _, (FPosInf | FNegInf) => FNum 0
  | FPosInf, FNum b => if Qltb b 0 then FNegInf else FPosInf
  | FNegInf, FNum b => if Qltb b 0 then FPosInf else FNegInf
  | (FPosInf | FNegInf), (FPosInf | FNegInf) => FNaN
  end.

(** [x > 0]; every comparison with not-a-number is false. *)
Definition fgt0 (x : fval) : bool :=
  match x with
  | FNum q => Qltb 0 q
  | FPosInf => true
  | FNegInf | FNaN => false
  end.

(** The larger of two cells as [np.max] folds it: not-a-number wins. *)
Definition fmax2 (x y : fval) : fval :=
  match x, y with
  | FNaN, _ | _, FNaN => FNaN
  | FPosInf, _ | _, FPosInf => FPosInf
  | FNegInf, v | v, FNegInf => v
  | FNum a, FNum b => if Qle_bool a b then FNum b else FNum a
  end.

(** [np.max(l)] of a list of cells ([FNegInf] stands for the empty list,
    which the callers never pass). *)
Definition fmax (l : list fval) : fval := fold_right fmax2 FNegInf l.

(** [x.clip(0, 1)], that is [minimum(maximum(x, 0), 1)]: not-a-number stays. *)
Definition fclip01 (x : fval) : fval :=
  match x with
  | FNaN => FNaN
  | FPosInf => f1
  | FNegInf => f0
  | FNum q => if Qltb q 0 then f0 else if Qltb 1 q then f1 else FNum q
  end.

(** [np.nan_to_num(x, nan=1.0, neginf=1.0, posinf=1.0)] *)
Definition nan_to_num1 (x : fval) : fval :=
  match x with
  | FNum q => FNum q
  | FPosInf | FNegInf | FNaN => f1
  end.

Definition is_nan (x : fval) : bool :=
  match x with FNaN => true | _ => false end.

Definition is_inf (x : fval) : bool :=
  match x with FPosInf | FNegInf => true | _ => false end.

(** A cell is a number of the unit interval. *)
Definition in_unit (x : fval) : Prop :=
  match x with
  | FNum q => (0 <= q /\ q <= 1)%Q
  | _ => False
  end.

(** A cell that is not below zero: a number [>= 0], [+inf], or not-a-number. *)
Definition not_negative (x : fval) : Prop :=
  match x with
  | FNum q => (0 <= q)%Q
  | FPosInf | FNaN => True
  | FNegInf => False
  end.

(** ** Focal operators *)

(** [roll(arr_pad, shift, axis)]: [np.roll(arr_pad, shift, axis=axis)[1:-1, 1:-1]] *)
Definition roll {A} (d : A) (arr_pad : array A) (s0 s1 : Z) : array A :=
  inner d 1 (np_roll d s0 s1 arr_pad).

(** The eight shifts of [focal_compare] and [focal_stat] as pairs
    [(shift along axis 0, shift along axis 1)], in source order: the four
    direct neighbours, then the four corners. *)
Definition shifts8 : list (Z * Z) :=
  [(1, 0); (-1, 0); (0, 1); (0, -1); (1, 1); (1, -1); (-1, 1); (-1, -1)].

(** [focal_compare(arr)], for an array of rank two with both dimensions at
    least two, on which [squeeze] is the identity. *)
Definition focal_compare (arr : array Z) : array Z :=
  let out0 := amap 0 (fun v => b2z (v >? 0)) arr in
  let arr_pad := pad_edge 0 1 arr in
  let cmp (s : Z * Z) :=
    zip2 0 0 (fun x y => b2z (x =? y)) (roll 0 arr_pad (fst s) (snd s)) arr in
  let out := out0 :: map cmp shifts8 in
  zip2 0 0 Z.mul (sum_axis0 (nrows arr) (ncols arr) out) out0.

(** [focal_stat(arr, stat='sum')] on an integer array; a Boolean input is
    read as 0/1.  The sum is the exact integer: this is [np.sum] as long as
    its accumulator does not wrap, which nine cells of magnitude up to
    [2^27] cannot make it do.  The one caller, [create_image_vars], passes
    a 0/1 array. *)
Definition focal_stat_sum (arr : array Z) : array Z :=
  let arr_pad := pad_edge 0 1 arr in
  let out := arr :: map (fun s => roll 0 arr_pad (fst s) (snd s)) shifts8 in
  sum_axis0 (nrows arr) (ncols arr) out.

(** The mask handed to the thinning in [create_image_vars]:
    [np.uint8((edge_compare_sum > 0) & (edge_compare_sum < 8))]. *)
Definition edge_candidates (labels_array : array Z) : array Z :=
  amap 0 (fun s => b2z ((s >? 0) && (s <? 8))) (focal_compare labels_array).

(** The clean-up of small fragments in [create_image_vars]:
    [frag_sum = focal_stat(np.array(labels_array == CROP_CLASS), stat='sum')]
    and the nested [np.where]. *)
Definition frag_sum (labels_array : array Z) : array Z :=
  focal_stat_sum (amap 0 (fun v => b2z (v =? CROP_CLASS)) labels_array).

Definition fragment_cleanup (labels_array : array Z) : array Z :=
  zip2 0 0
    (fun s v => if s <? 2 then 0 else if s <? 4 then EDGE_CLASS else v)
    (frag_sum labels_array) labels_array.

(** ** [remove_noncrop] *)

(** [dist_mean[1:-1, 1:-1] = dist_mean[1:-1, 1:-1] + x[1:-1, 1:-1]] *)
Definition add_inner (dist_mean x : array fval) : array fval :=
  set_slice f0 1 (nrows dist_mean - 1) 1 (ncols dist_mean - 1)
    (zip2 f0 f0 fadd (inner f0 1 dist_mean) (inner f0 1 x)) dist_mean.

(** [xvars[-1] = b]; the stack is a list of bands. *)
Definition set_last {A} (b : A) (xvars : list A) : list A :=
  removelast xvars ++ [b].

(** numpy's broadcasting of an operand of rank two against the shape
    [(n, m)]: each axis has the length of the target or the length one, and
    an axis of length one is repeated. *)
Definition broadcasts_to {A} (n m : nat) (a : array A) : bool :=
  ((nrows a =? n)%nat || (nrows a =? 1)%nat)
  && ((ncols a =? m)%nat || (ncols a =? 1)%nat).

Definition broadcast_to {A} (d : A) (n m : nat) (a : array A) : array A :=
  mk n m (fun r c => get d a (if (nrows a =? 1)%nat then 0%nat else r)
                             (if (ncols a =? 1)%nat then 0%nat else c)).

(** [remove_noncrop(xvars, labels_array)]; the stack is a list of bands of
    one shape [(n, m)].  The call raises, [None] here,
    - on a stack without bands, at [xvars[-1]];
    - when the labels do not broadcast to [(n, m)]: either the product
      with the band raises, or the product is larger than the band and the
      assignment [xvars[-1] = bdist] raises;
    - on a band with an empty axis, at [np.pad] in mode ['edge'].
    Labels with an axis of length one are repeated along that axis, in the
    product and in the labels returned.

    The four neighbours are added and divided by four as exact numbers.
    numpy rounds: the test [dist_mean > 0] is the same as here when every
    cell of the band is zero or a number between [2^-20] and [2^13], where
    a sum of four cells over four neither underflows nor overflows in any
    float type of numpy. *)
Definition remove_noncrop (xvars : list (array fval)) (labels_array : array Z)
    : option (list (array fval) * array Z) :=
  match xvars with
  | [] => None
  | _ :: _ =>
      let bdist := List.last xvars [] in
      let n := nrows bdist in
      let m := ncols bdist in
      if negb (broadcasts_to n m labels_array) then None
      else if (n =? 0)%nat || (m =? 0)%nat then None
      else
        let bdist :=
          zip2 f0 f0 fmul bdist
               (broadcast_to f0 n m
                  (amap 0 (fun v => of_Z (b2z (v >? 0))) labels_array)) in
        let xvars := set_last bdist xvars in
        let bpad := pad_edge f0 5 bdist in
        let dist_mean := zeros_like f0 bpad in
        let dist_mean := add_inner dist_mean (np_roll f0 0 1 bpad) in
        let dist_mean := add_inner dist_mean (np_roll f0 0 (-1) bpad) in
        let dist_mean := add_inner dist_mean (np_roll f0 1 0 bpad) in
        let dist_mean := add_inner dist_mean (np_roll f0 (-1) 0 bpad) in
        let dist_mean := inner f0 5 (amap f0 (fun v => fdiv v (of_Z 4)) dist_mean) in
        let labels_array :=
          zip2 0 f0 (fun v m => v * b2z (fgt0 m))
               (broadcast_to 0 n m labels_array) dist_mean in
        Some (xvars, labels_array)
  end.

(** ** scipy and skimage, as far as the module uses them *)

(** [np.unique(a)]: the distinct cells in increasing order. *)
Fixpoint insert_uniq (x : Z) (l : list Z) : list Z :=
  match l with
  | [] => [x]
  | y :: t =>
      if x <? y then x :: l
      else if x =? y then l
      else y :: insert_uniq x t
  end.

Definition cells {A} (d : A) (a : array A) : list A :=
  take_idx d a (indices (nrows a) (ncols a)).

Definition np_unique (a : array Z) : list Z :=
  fold_right insert_uniq [] (cells 0 a).

(** [(a == v).sum()] *)
Definition count_eq (a : array Z) (v : Z) : Z :=
  Z.of_nat (length (where_idx 0 (fun x => x =? v) a)).

(** [scipy.ndimage.sum(vals, labels=seg, index=index)]: for every label of
    [index] the sum of [vals] over the cells of [seg] with that label. *)
Definition nd_sum (vals seg : array Z) (index : list Z) : list Z :=
  map (fun lab =>
         fold_right Z.add 0 (take_idx 0 vals (where_idx 0 (fun x => x =? lab) seg)))
      index.

(** [scipy.stats.mode(l).mode[0]]: the most frequent value, the smallest
    one among equally frequent values. *)
Definition occurrences (v : Z) (l : list Z) : nat :=
  length (List.filter (fun x => x =? v) l).

Definition stats_mode (l : list Z) : Z :=
  fold_left
    (fun best v => if (occurrences best l <? occurrences v l)%nat then v else best)
    (fold_right insert_uniq [] l)
    (hd 0 (fold_right insert_uniq [] l)).

(** A region of [skimage.measure.regionprops]: its label and its bounding
    box [(min_row, min_col, max_row, max_col)], upper bounds excluded. *)
Record region : Type := {
  r_label : Z;
  min_row : nat;
  min_col : nat;
  max_row : nat;
  max_col : nat
}.

Definition list_min (l : list nat) : nat :=
  match l with
  | [] => 0%nat
  | x :: t => fold_right Nat.min x t
  end.

Definition region_of (segments : array Z) (lab : Z) : region :=
  let px := where_idx 0 (fun x => x =? lab) segments in
  {| r_label := lab;
     min_row := list_min (map fst px);
     min_col := list_min (map snd px);
     max_row := S (list_max (map fst px));
     max_col := S (list_max (map snd px)) |}.

(** [regionprops(segments)]: one region per positive label present, in
    increasing label order; label 0 is ignored. *)
Definition regionprops (segments : array Z) : list region :=
  map (region_of segments) (List.filter (fun lab => 0 <? lab) (np_unique segments)).

(** [(max_row - min_row <= 1) or (max_col - min_col <= 1)] *)
Definition thin (p : region) : bool :=
  (max_row p - min_row p <=? 1)%nat || (max_col p - min_col p <=? 1)%nat.

(** [p.max_intensity] for [regionprops(segments, intensity_image=img)]: the
    largest cell of [img] over the region.  skimage keeps a reference to
    the image and computes the property when it is read, so [img] is the
    image at that time. *)
Definition max_intensity (segments : array Z) (img : array fval) (p : region) : fval :=
  fmax (take_idx f0 img (where_idx 0 (fun x => x =? r_label p) segments)).

(** [scipy.ndimage.label(mask)] with its default structuring element
    (4-connectivity): every connected group of non-zero cells receives a
    label 1, 2, ... in the raster order of the first cell of the group;
    zero cells keep 0.  Computed by propagating the smallest cell number
    through each group, then ranking the numbers. *)
Definition min_nz (x y : Z) : Z :=
  if y =? 0 then x else if x =? 0 then y else Z.min x y.

Definition cc_init (mask : array Z) : array Z :=
  mk (nrows mask) (ncols mask)
     (fun r c => if get 0 mask r c =? 0 then 0
                 else Z.of_nat (r * ncols mask + c) + 1).

Definition cc_step (ids : array Z) : array Z :=
  mk (nrows ids) (ncols ids)
     (fun r c =>
        let v := get 0 ids r c in
        if v =? 0 then 0
        else
          let up := match r with O => 0 | S r' => get 0 ids r' c end in
          let left := match c with O => 0 | S c' => get 0 ids r c' end in
          min_nz (min_nz (min_nz (min_nz v up) (get 0 ids (S r) c)) left)
                 (get 0 ids r (S c))).

Definition rank_of (sorted : list Z) (v : Z) : Z :=
  Z.of_nat (length (List.filter (fun x => x <=? v) sorted)).

Definition cc_label (mask : array Z) : array Z :=
  let ids := Nat.iter (nrows mask * ncols mask) cc_step (cc_init mask) in
  let firsts := List.filter (fun x => 0 <? x) (np_unique ids) in
  amap 0 (fun v => if v =? 0 then 0 else rank_of firsts v) ids.

(** ** The recoding chain of [create_dataset] *)

(** [close_edge_ends(labels_array)].  Indexing row 1 or column 0 raises on
    an array with fewer than two rows or without columns: [None]. *)
Definition is_one (l : list Z) : list Z := map (fun v => b2z (v =? 1)) l.

Definition close_edge_ends (labels_array : array Z) : option (array Z) :=
  if (nrows labels_array <? 2)%nat || (ncols labels_array <? 1)%nat then None
  else
    let last_r := (nrows labels_array - 1)%nat in
    let last_c := (ncols labels_array - 1)%nat in
    (* Top *)
    let z := is_one (row_of 0 1 labels_array) in
    let labels_array := set_row 0 0 z labels_array in
    (* Bottom *)
    let z := is_one (row_of 0 last_r labels_array) in
    let labels_array := set_row 0 last_r z labels_array in
    (* Left *)
    let z := is_one (col_of 0 0 labels_array) in
    let labels_array := set_col 0 0 z labels_array in
    (* Right *)
    let z := is_one (col_of 0 last_c labels_array) in
    let labels_array := set_col 0 last_c z labels_array in
    Some labels_array.

(** [recode_crop_labels(labels_array, lc_array, lc_is_cdl, data_type)].
    [crop_codes] are the keys of [CDL_CROP_LABELS_r] in the order of the
    dictionary (the table lives in [lookup.py]).  The land cover is padded
    on the bottom and on the right up to the shape of the labels; a land
    cover larger than the labels gives a negative pad width, which raises:
    [None]. *)
Definition recode_step (data_type : string) (lc_array edges : array Z)
    (st : array Z * Z) (lc_value : Z) : array Z * Z :=
  let '(recoded_labels, crop_counter) := st in
  let hit r c := (get 0 lc_array r c =? lc_value) && (get 0 edges r c =? 0) in
  if String.eqb data_type "boundaries" then
    (mk (nrows recoded_labels) (ncols recoded_labels)
        (fun r c => if hit r c then 1 else get 0 recoded_labels r c),
     crop_counter)
  else
    let recoded_labels :=
      mk (nrows recoded_labels) (ncols recoded_labels)
         (fun r c => if hit r c then crop_counter else get 0 recoded_labels r c) in
    if count_eq recoded_labels crop_counter >? 0
    then (recoded_labels, crop_counter + 1)
    else (recoded_labels, crop_counter).

Definition recode_crop_labels (crop_codes : list Z)
    (labels_array lc_array : array Z) (lc_is_cdl : bool) (data_type : string)
    : option (array Z * array Z) :=
  let edges := labels_array in
  if lc_is_cdl then
    if (nrows lc_array <=? nrows labels_array)%nat
       && (ncols lc_array <=? ncols labels_array)%nat
    then
      let lc_array :=
        mk (nrows labels_array) (ncols labels_array)
           (fun r c => get 0 lc_array (Nat.min r (nrows lc_array - 1))
                                      (Nat.min c (ncols lc_array - 1))) in
      let recoded_labels := zeros_like 0 labels_array in
      let st :=
        fold_left (recode_step data_type lc_array edges) crop_codes
                  (recoded_labels, 1) in
      Some (fst st, edges)
    else None
  else Some (amap 0 (fun v => b2z (v =? 1)) lc_array, edges).

(** One round of the loop of [make_crops_uniform], for the label [lab] and
    its entry [crop_total] of [crop_totals].  Both operands of
    [crop_totals[lidx] / seg_area > 0.5] are pixel counts, so the test is
    [seg_area < 2 * crop_total]. *)
Definition uniform_step (data_type : string) (segments : array Z)
    (labels_array : array Z) (it : Z * Z) : array Z :=
  let '(lab, crop_total) := it in
  if crop_total =? 0 then
    (* No cropland *)
    assign_where 0 segments lab 0 labels_array
  else
    let seg_area := count_eq segments lab in
    if seg_area <? 2 * crop_total then
      (* Majority cropland *)
      if String.eqb data_type "boundaries" then
        assign_where 0 segments lab CROP_CLASS labels_array
      else
        let idx := where_idx 0 (fun x => x =? lab) segments in
        let crop_pixels := take_idx 0 labels_array idx in
        assign_where 0 segments lab (stats_mode crop_pixels) labels_array
    else assign_where 0 segments lab 0 labels_array.

Section Segments.

(** [scipy.ndimage.label], the first component of its result. *)
Variable nd_label : array Z -> array Z.

(** [make_crops_uniform(labels_array, edges, data_type)] *)
Definition make_crops_uniform (labels_array edges : array Z) (data_type : string)
    : array Z * array Z :=
  let segments := nd_label (amap 0 (fun v => b2z (v =? 0)) edges) in
  let index := np_unique segments in
  let crop_totals :=
    nd_sum (amap 0 (fun v => b2z (v >? 0)) labels_array) segments index in
  (fold_left (uniform_step data_type segments) (combine index crop_totals)
             labels_array,
   segments).

(** [check_slivers(labels_array, edges, segments)] *)
Definition sliver_step (segments : array Z) (labels_array : array Z) (p : region)
    : array Z :=
  if thin p then assign_where 0 segments (r_label p) 0 labels_array
  else labels_array.

Definition check_slivers (labels_array edges segments : array Z)
    : array Z * list region :=
  let props := regionprops segments in
  let labels_array := fold_left (sliver_step segments) props labels_array in
  let labels_array := assign_where 0 edges 1 EDGE_CLASS labels_array in
  (labels_array, props).

(** Lines 534-543 of [create_dataset]: close the ends, recode, make the
    segments uniform, drop the slivers.  Returns the labels, the copy of
    the labels taken before the recoding ([edges]) and the segments. *)
Definition recode_chain (crop_codes : list Z) (labels_array lc_labels : array Z)
    (data_type : string) : option (array Z * array Z * array Z) :=
  labels_array ← close_edge_ends labels_array;
  '(labels_array, edges) ← recode_crop_labels crop_codes labels_array lc_labels
                              true data_type;
  let '(labels_array, segments) := make_crops_uniform labels_array edges data_type in
  let '(labels_array, props) := check_slivers labels_array edges segments in
  Some (labels_array, edges, segments).

(** ** Boundary distances *)

(** [cv2.distanceTransform(mask, cv2.DIST_L2, 3)]: a finite distance per cell. *)
Variable distance_transform : array Z -> array Q.

(** [str.lower] on the letters A..Z. *)
Definition lower_ascii (a : Ascii.ascii) : Ascii.ascii :=
  let n := Ascii.nat_of_ascii a in
  if (65 <=? n)%nat && (n <=? 90)%nat then Ascii.ascii_of_nat (n + 32) else a.

Fixpoint lower (s : string) : string :=
  match s with
  | EmptyString => EmptyString
  | String a t => String (lower_ascii a) (lower t)
  end.

(** [create_boundary_distances(labels_array, train_type, src_ts)], with
    [celly] for [src_ts.gw.celly].  The labels are [uint8]: [1 - x] wraps. *)
Definition create_boundary_distances (labels_array : array Z)
    (train_type : string) (celly : fval) : array Z * array Z * array fval :=
  let mask :=
    if String.eqb (lower train_type) "polygon"
    then amap 0 (fun v => v mod 256) labels_array
    else amap 0 (fun v => (1 - v) mod 256) labels_array in
  let segments := nd_label mask in
  let bdist := amap 0%Q (fun d => fmul (FNum d) celly) (distance_transform mask) in
  (mask, segments, bdist).

(** One round of the loop of [normalize_boundary_distances]. *)
Definition normalize_step (segments : array Z) (bdist : array fval) (p : region)
    : array fval :=
  if 0 <? r_label p then
    let seg_label := slice 0 (min_row p) (max_row p) (min_col p) (max_col p) segments in
    let bdist_label := slice f0 (min_row p) (max_row p) (min_col p) (max_col p) bdist in
    let bdist_label :=
      if thin p then
        zip2 0 f0 (fun s b => if s =? r_label p then FNum (1 # 10) else b)
             seg_label bdist_label
      else
        let m := max_intensity segments bdist p in
        zip2 0 f0 (fun s b => if s =? r_label p then fdiv b m else b)
             seg_label bdist_label in
    set_slice f0 (min_row p) (max_row p) (min_col p) (max_col p) bdist_label bdist
  else bdist.

(** The distance field when the loop over the regions has ended. *)
Definition normalize_segments (segments : array Z) (bdist : array fval)
    : array fval :=
  fold_left (normalize_step segments) (regionprops segments) bdist.

(** [normalize_boundary_distances(labels_array, train_type, src_ts)] *)
Definition normalize_boundary_distances (labels_array : array Z)
    (train_type : string) (celly : fval) : array fval :=
  let '(mask, segments, bdist) :=
    create_boundary_distances labels_array train_type celly in
  let bdist := normalize_segments segments bdist in
  amap f0 (fun v => nan_to_num1 (fclip01 v)) bdist.

End Segments.

(** ** The store of training records *)

(** A record as [torch.load] returns it: the identity it carries and the
    rest of the sample. *)
Record Data (Payload : Type) : Type := {
  train_id : string;
  payload : Payload
}.
Arguments train_id {Payload} _.
Arguments payload {Payload} _.

(** The directory [process_path]: file name to stored record. *)
Abbreviation directory Payload := (gmap string (Data Payload)).

(** [f'data_{train_id}.pt'] *)
Definition data_file (train_id : string) : string :=
  ("data_" ++ train_id ++ ".pt")%string.

(** [f'{i:03d}']: decimal, padded with zeros to three digits. *)
Definition fmt_03d (i : nat) : string :=
  let s := pretty i in
  (Nat.iter (3 - String.length s) (String.append "0") "" ++ s)%string.

(** [f'{group_id}_{grid}_{aug}_{i:03d}'] and [f'{group_id}_{grid}_{aug}'];
    [group_id] and [grid] stand for their renderings. *)
Definition ts_train_id (group_id grid aug : string) (i : nat) : string :=
  (group_id ++ "_" ++ grid ++ "_" ++ aug ++ "_" ++ fmt_03d i)%string.

Definition plain_train_id (group_id grid aug : string) : string :=
  (group_id ++ "_" ++ grid ++ "_" ++ aug)%string.

(** [aug.startswith('ts-')] *)
Definition is_ts (aug : string) : bool := String.prefix "ts-" aug.

(** [train_path.is_file()] and, on the loaded record,
    [train_data.train_id == train_id]. *)
Definition stored {P} (process_path : directory P) (tid : string) : bool :=
  match process_path !! data_file tid with
  | Some train_data => String.eqb (train_id train_data) tid
  | None => false
  end.

(** [is_grid_processed(process_path, transforms, group_id, grid, n_ts)] *)
Definition is_grid_processed {P} (process_path : directory P)
    (transforms : list string) (group_id grid : string) (n_ts : nat) : bool :=
  fold_left
    (fun batch_stored aug =>
       if is_ts aug then
         fold_left
           (fun batch_stored i =>
              if stored process_path (ts_train_id group_id grid aug i)
              then true else batch_stored)
           (seq 0 n_ts) batch_stored
       else
         if stored process_path (plain_train_id group_id grid aug)
         then true else batch_stored)
    transforms false.

(** ** The grid loop of [create_dataset] *)

Record GridRow (Geom : Type) : Type := {
  grid : string;
  geometry : Geom
}.
Arguments grid {Geom} _.
Arguments geometry {Geom} _.

(** What the loop reaches outside the module: geopandas on the frames of
    boundary polygons, the spatial index of the grids, the raster side
    ([create_image_vars] and the land-cover branch up to the labelled
    sample) and the augmentation.  A call that can raise returns an
    option. *)
Class Collaborators (Geom Frame ImageVars Sample Payload : Type) : Type := {
  (** [gpd.clip(df_edges, mask)] *)
  gpd_clip : Frame -> list Geom -> option Frame;
  (** the frame rebuilt on [df_edges.buffer(0).geometry] *)
  buffer0 : Frame -> Frame;
  (** [frame.loc[~frame.is_empty]] and [frame.empty] *)
  drop_empty : Frame -> Frame;
  frame_empty : Frame -> bool;
  (** [df_grids.copy()] with the class column set to 0 *)
  grids_frame : list (GridRow Geom) -> Frame;
  (** [sorted(list(sindex.intersection(tuple(frame.total_bounds.flatten()))))] *)
  sindex_intersection : list (GridRow Geom) -> Frame -> list nat;
  (** [(frame['class'] != 0).any()] and the renumbering of those rows *)
  nonzero_any : Frame -> bool;
  make_unique : Frame -> Frame;
  (** [create_image_vars] on the bounds of the grids at [int_idx] *)
  image_vars : list (GridRow Geom) -> option Frame -> list nat -> option ImageVars;
  (** [(xvars.shape[1] < 5) or (xvars.shape[2] < 5)] *)
  too_small : ImageVars -> bool;
  (** lines 509-552: bounds, years, land cover, [LabeledData] *)
  label_sample : ImageVars -> list nat -> option Sample;
  (** [augment(ldata, aug=aug, ..., train_id=train_id)] *)
  augment : Sample -> string -> string -> option (Data Payload)
}.

(** The variables that live across the iterations: the frame of boundary
    polygons, the list of merged grids, and the directory of records. *)
Record State (Frame Payload : Type) : Type := {
  df_edges : Frame;
  merged_grids : list string;
  store : directory Payload
}.
Arguments df_edges {Frame Payload} _.
Arguments merged_grids {Frame Payload} _.
Arguments store {Frame Payload} _.

(** An iteration ends normally, or an exception leaves the loop. *)
Inductive outcome (S : Type) : Type :=
| Completed (s : S)
| Raised (s : S).
Arguments Completed {S} _.
Arguments Raised {S} _.

Definition state_of {S} (o : outcome S) : S :=
  match o with Completed s | Raised s => s end.

Definition and_then {S} (o : outcome S) (k : S -> outcome S) : outcome S :=
  match o with
  | Completed s => k s
  | Raised s => Raised s
  end.

Section CreateDataset.

Context {Geom Frame ImageVars Sample Payload : Type}.
Context `{W : Collaborators Geom Frame ImageVars Sample Payload}.

Variable df_grids : list (GridRow Geom).
Variable group_id : string.
Variable transforms : list string.
Variable n_ts : nat.

#[local] Abbreviation state := (State Frame Payload).

Definition with_edges (st : state) (e : Frame) : state :=
  {| df_edges := e; merged_grids := merged_grids st; store := store st |}.

Definition with_merged (st : state) (m : list string) : state :=
  {| df_edges := df_edges st; merged_grids := m; store := store st |}.

Definition with_store (st : state) (d : directory Payload) : state :=
  {| df_edges := df_edges st; merged_grids := merged_grids st; store := d |}.

(** [df_grids.iloc[int_idx]] *)
Definition grids_at (int_idx : list nat) : list (GridRow Geom) :=
  omap (fun i => df_grids !! i) int_idx.

(** [save_and_update(train_data)] *)
Definition save_and_update (dir : directory Payload) (train_data : Data Payload)
    : directory Payload :=
  <[data_file (train_id train_data) := train_data]> dir.

(** The identities of one augmentation, in the order of the loop. *)
Definition train_ids (row_grid aug : string) : list string :=
  if is_ts aug
  then map (ts_train_id group_id row_grid aug) (seq 0 n_ts)
  else [plain_train_id group_id row_grid aug].

(** Lines 558-579: augment and save, identity after identity. *)
Fixpoint save_all (ldata : Sample) (todo : list (string * string))
    (dir : directory Payload) : outcome (directory Payload) :=
  match todo with
  | [] => Completed dir
  | (aug, tid) :: rest =>
      match augment ldata aug tid with
      | None => Raised dir
      | Some train_data => save_all ldata rest (save_and_update dir train_data)
      end
  end.

Definition fan_out (row_grid : string) : list (string * string) :=
  flat_map (fun aug => map (pair aug) (train_ids row_grid aug)) transforms.

(** Lines 473-579: from the renumbering of the polygons to the writes. *)
Definition generate (row : GridRow Geom) (st : state) (grid_edges : Frame)
    (int_idx : list nat) : outcome state :=
  let nz := nonzero_any grid_edges in
  let grid_edges := if nz then make_unique grid_edges else grid_edges in
  match image_vars df_grids (if nz then Some grid_edges else None) int_idx with
  | None => Raised st
  | Some iv =>
      if too_small iv then Completed st
      else if is_grid_processed (store st) transforms group_id (grid row) n_ts
      then Completed st
      else
        match label_sample iv int_idx with
        | None => Raised st
        | Some ldata =>
            match save_all ldata (fan_out (grid row)) (store st) with
            | Completed dir => Completed (with_store st dir)
            | Raised dir => Raised (with_store st dir)
            end
        end
  end.

(** Lines 451-471: the negative sample, the grids that the clipped edges
    overlap, and the list of merged grids. *)
Definition after_clip (row : GridRow Geom) (st : state) (grid_edges : Frame)
    : outcome state :=
  let grid_edges :=
    if frame_empty (drop_empty grid_edges) then grids_frame df_grids
    else grid_edges in
  let grid_edges := drop_empty grid_edges in
  if frame_empty grid_edges then Completed st
  else
    let int_idx := sindex_intersection df_grids grid_edges in
    if (1 <? length int_idx)%nat then
      if existsb (fun rowg => bool_decide (rowg ∈ merged_grids st))
                 (map grid (grids_at int_idx))
      then Completed st
      else
        match gpd_clip (df_edges st) (map geometry (grids_at int_idx)) with
        | None => Raised st
        | Some grid_edges =>
            generate row (with_merged st (merged_grids st ++ [grid row]))
                     grid_edges int_idx
        end
    else generate row st grid_edges int_idx.

(** Lines 441-449: clip the edges to the grid; on any exception rebuild the
    frame on zero-width buffers and clip again, outside the [try]. *)
Definition process_row (row : GridRow Geom) (st : state) : outcome state :=
  match gpd_clip (df_edges st) [geometry row] with
  | Some grid_edges => after_clip row st grid_edges
  | None =>
      let st := with_edges st (buffer0 (df_edges st)) in
      match gpd_clip (df_edges st) [geometry row] with
      | Some grid_edges => after_clip row st grid_edges
      | None => Raised st
      end
  end.

(** [for row in df_grids.itertuples(): ...] *)
Fixpoint run_rows (rows : list (GridRow Geom)) (st : state) : outcome state :=
  match rows with
  | [] => Completed st
  | row :: rest => and_then (process_row row st) (run_rows rest)
  end.

End CreateDataset.

(** [create_dataset(image_list, df_grids, df_edges, group_id, process_path,
    transforms, ..., n_ts)]; [transforms=None] stands for [['none']]. *)
Definition create_dataset {Geom Frame ImageVars Sample Payload : Type}
    `{W : Collaborators Geom Frame ImageVars Sample Payload}
    (df_grids : list (GridRow Geom)) (df_edges0 : Frame) (group_id : string)
    (process_path : directory Payload) (transforms : option (list string))
    (n_ts : nat) : outcome (State Frame Payload) :=
  let transforms := default ["none"%string] transforms in
  run_rows df_grids group_id transforms n_ts df_grids
    {| df_edges := df_edges0; merged_grids := []; store := process_path |}.

(** ** A world of axis-parallel rectangles

    An instance of the collaborators on which the loop can be run: grids
    and boundary polygons are rectangles [(xmin, ymin, xmax, ymax)] with
    integer corners, a frame is a list of polygons with their class.
    Clipping a rectangle by a set of grids that tile a rectangle is the
    intersection with the hull of the grids; rows whose intersection has no
    area are dropped.  The spatial index answers with the grids whose
    bounds meet the query box, borders included.  A polygon whose corners
    are given in the wrong order stands for invalid topology: clipping a
    frame that holds one raises, and the zero-width buffer puts the corners
    in order.  The raster side accepts every cell. *)

Module RectWorld.

Definition rect : Type := Z * Z * Z * Z.

Definition proper (b : rect) : bool :=
  let '(x0, y0, x1, y1) := b in (x0 <? x1) && (y0 <? y1).

Definition inter (a b : rect) : rect :=
  let '(ax0, ay0, ax1, ay1) := a in
  let '(bx0, by0, bx1, by1) := b in
  (Z.max ax0 bx0, Z.max ay0 by0, Z.min ax1 bx1, Z.min ay1 by1).

Definition hull (a b : rect) : rect :=
  let '(ax0, ay0, ax1, ay1) := a in
  let '(bx0, by0, bx1, by1) := b in
  (Z.min ax0 bx0, Z.min ay0 by0, Z.max ax1 bx1, Z.max ay1 by1).

Definition total_bounds (l : list rect) : option rect :=
  match l with
  | [] => None
  | b :: t => Some (fold_left hull t b)
  end.

Definition meets (a b : rect) : bool :=
  let '(ax0, ay0, ax1, ay1) := a in
  let '(bx0, by0, bx1, by1) := b in
  (ax0 <=? bx1) && (bx0 <=? ax1) && (ay0 <=? by1) && (by0 <=? ay1).

Definition frame : Type := list (rect * Z).

Definition valid (b : rect) : bool :=
  let '(x0, y0, x1, y1) := b in (x0 <=? x1) && (y0 <=? y1).

Definition repair (b : rect) : rect :=
  let '(x0, y0, x1, y1) := b in
  (Z.min x0 x1, Z.min y0 y1, Z.max x0 x1, Z.max y0 y1).

Definition clip (f : frame) (mask : list rect) : option frame :=
  if forallb (fun row => valid (fst row)) f then
    match total_bounds mask with
    | None => Some []
    | Some m =>
        Some (List.filter (fun row => proper (fst row))
                     (map (fun row => (inter (fst row) m, snd row)) f))
    end
  else None.

Definition intersection (grids : list (GridRow rect)) (f : frame) : list nat :=
  match total_bounds (map fst f) with
  | None => []
  | Some b =>
      List.filter (fun i => match grids !! i with
                       | Some g => meets (geometry g) b
                       | None => false
                       end)
             (seq 0 (length grids))
  end.

(** [frame.loc[nonzero_mask, 'class'] = range(1, nonzero_mask.sum() + 1)] *)
Fixpoint renumber (next : Z) (f : frame) : frame :=
  match f with
  | [] => []
  | (g, cls) :: t =>
      if cls =? 0 then (g, cls) :: renumber next t
      else (g, next) :: renumber (next + 1) t
  end.

(** Modelled from the spec: the augmentation package ([augment]) is not
    among the sources read here.  The design document keys every output
    record by (group id, grid id, augmentation[, temporal index]); the
    record that [augment] returns carries the [train_id] it is called
    with. *)
Definition carry_identity (ldata : unit) (aug tid : string) : option (Data unit) :=
  Some {| train_id := tid; payload := ldata |}.

#[global] Instance world : Collaborators rect frame unit unit unit := {
  gpd_clip := clip;
  buffer0 := map (fun row => (repair (fst row), snd row));
  drop_empty := List.filter (fun row => proper (fst row));
  frame_empty := fun f => match f with [] => true | _ => false end;
  grids_frame := map (fun g => (geometry g, 0));
  sindex_intersection := intersection;
  nonzero_any := existsb (fun row => negb (snd row =? 0));
  make_unique := renumber 1;
  image_vars := fun _ _ _ => Some tt;
  too_small := fun _ => false;
  label_sample := fun _ _ => Some tt;
  augment := carry_identity
}.

(** Three grids in a row and one field that lies over all three. *)
Definition three_grids : list (GridRow rect) :=
  [ {| grid := "a"; geometry := (0, 0, 10, 10) |};
    {| grid := "b"; geometry := (10, 0, 20, 10) |};
    {| grid := "c"; geometry := (20, 0, 30, 10) |} ].

Definition one_field : frame := [((5, 2, 25, 8), 1)].

(** Two grids side by side and one field over both. *)
Definition two_grids : list (GridRow rect) :=
  [ {| grid := "a"; geometry := (0, 0, 10, 10) |};
    {| grid := "b"; geometry := (10, 0, 20, 10) |} ].

Definition short_field : frame := [((5, 2, 15, 8), 1)].

(** The same field with its corners in the wrong order. *)
Definition twisted_field : frame := [((15, 8, 5, 2), 1)].

End RectWorld.

(** ** Readings of the design document

    The sentences of the design document that the code is compared with,
    written over the definitions above. *)

(** Index [i] clamped into [0 .. n-1]: the cell that edge padding shows at
    position [i]. *)
Definition clampi (n : nat) (i : Z) : nat :=
  Z.to_nat (Z.max 0 (Z.min i (Z.of_nat n - 1))).

(** The neighbour of [(r, c)] at offset [o] in the edge-padded array. *)
Definition neighbour (a : array Z) (r c : nat) (o : Z * Z) : Z :=
  get 0 a (clampi (nrows a) (Z.of_nat r + fst o))
          (clampi (ncols a) (Z.of_nat c + snd o)).

(** The eight neighbour offsets, in the order of [shifts8]: a roll by [s]
    brings the neighbour at offset [-s]. *)
Definition offsets8 : list (Z * Z) :=
  map (fun s => (- fst s, - snd s)) shifts8.

(** How many of the eight neighbours of [(r, c)] hold the value of the
    centre cell. *)
Definition same_neighbours (a : array Z) (r c : nat) : Z :=
  fold_right Z.add 0
    (map (fun o => b2z (neighbour a r c o =? get 0 a r c)) offsets8).

(** How many of the eight neighbours of [(r, c)] are crop. *)
Definition crop_neighbours (a : array Z) (r c : nat) : Z :=
  fold_right Z.add 0
    (map (fun o => b2z (neighbour a r c o =? CROP_CLASS)) offsets8).

Definition in_range {A} (a : array A) (r c : nat) : Prop :=
  (r < nrows a)%nat /\ (c < ncols a)%nat.

(** "at every foreground pixel the score is the number of its 8 neighbours
    that equal the centre, and 0 at every background pixel" *)
Definition score_is_neighbour_count (a : array Z) : Prop :=
  forall r c, in_range a r c ->
    get 0 (focal_compare a) r c =
    if get 0 a r c >? 0 then same_neighbours a r c else 0.

(** "8-neighbour sum < 2: background; in [2,4): edge; otherwise crop" *)
Definition cleanup_by_neighbour_sum (a : array Z) : Prop :=
  forall r c, in_range a r c ->
    let s := crop_neighbours a r c in
    let v := get 0 (fragment_cleanup a) r c in
    (s < 2 -> v = 0) /\ (2 <= s < 4 -> v = EDGE_CLASS) /\ (4 <= s -> v = CROP_CLASS).

(** "a record exists for all requested augmentation ids" *)
Definition all_stored {P} (process_path : directory P) (transforms : list string)
    (group_id grid : string) (n_ts : nat) : Prop :=
  forall aug tid, In aug transforms ->
    In tid (train_ids group_id n_ts grid aug) ->
    stored process_path tid = true.

(** "a record exists for one of the requested augmentation ids" *)
Definition some_stored {P} (process_path : directory P) (transforms : list string)
    (group_id grid : string) (n_ts : nat) : Prop :=
  exists aug tid, In aug transforms /\
    In tid (train_ids group_id n_ts grid aug) /\
    stored process_path tid = true.

(** "all intersecting cell ids are in the merged set, and exactly one
    sample is persisted", for a run over grids that all overlap the one
    boundary. *)
Definition one_sample_all_merged {Frame P} (grids : list string)
    (r : outcome (State Frame P)) : Prop :=
  (forall g, In g grids -> In g (merged_grids (state_of r))) /\
  size (store (state_of r)) = 1%nat.

(** The labels of the cells of one segment, in raster order. *)
Definition segment_labels (segments labels_array : array Z) (lab : Z) : list Z :=
  take_idx 0 labels_array (where_idx 0 (fun x => x =? lab) segments).

(** The number of crop-labelled cells of one segment. *)
Definition crop_total (segments labels_array : array Z) (lab : Z) : Z :=
  fold_right Z.add 0
    (take_idx 0 (amap 0 (fun v => b2z (v >? 0)) labels_array)
              (where_idx 0 (fun x => x =? lab) segments)).

(** "the statistical mode of its existing nonzero labels" *)
Definition nonzero_mode (l : list Z) : Z :=
  stats_mode (List.filter (fun v => negb (v =? 0)) l).

(** The value that the design document gives a cell of segment [lab]. *)
Definition uniform_value_nonzero_mode (data_type : string)
    (segments labels_array : array Z) (lab : Z) : Z :=
  let total := crop_total segments labels_array lab in
  if count_eq segments lab <? 2 * total then
    if String.eqb data_type "boundaries" then CROP_CLASS
    else nonzero_mode (segment_labels segments labels_array lab)
  else 0.

(** The value that [make_crops_uniform] gives a cell of segment [lab]. *)
Definition uniform_value (data_type : string)
    (segments labels_array : array Z) (lab : Z) : Z :=
  let total := crop_total segments labels_array lab in
  if total =? 0 then 0
  else if count_eq segments lab <? 2 * total then
    if String.eqb data_type "boundaries" then CROP_CLASS
    else stats_mode (segment_labels segments labels_array lab)
  else 0.

Definition same_shape {A B} (a : array A) (b : array B) : Prop :=
  nrows a = nrows b /\ ncols a = ncols b.

(** "every cell of a component with a crop fraction above one half takes,
    in multi-class mode, the mode of the nonzero labels of the component" *)
Definition uniform_by_nonzero_mode (nd_label : array Z -> array Z)
    (labels_array edges : array Z) (data_type : string) : Prop :=
  forall r c, in_range labels_array r c ->
    let '(out, segments) :=
      make_crops_uniform nd_label labels_array edges data_type in
    get 0 out r c =
    uniform_value_nonzero_mode data_type segments labels_array (get 0 segments r c).

(** A list in strictly increasing order. *)
Fixpoint increasing (l : list Z) : Prop :=
  match l with
  | [] => True
  | x :: t => (forall y, In y t -> x < y) /\ increasing t
  end.

(** [(r, c)] lies in the bounding box of [p]. *)
Definition inbox (p : region) (r c : nat) : bool :=
  (min_row p <=? r)%nat && (r <? max_row p)%nat
  && (min_col p <=? c)%nat && (c <? max_col p)%nat.

(** Every cell of the array satisfies [P]. *)
Definition all_cells {A} (P : A -> Prop) (a : array A) : Prop :=
  Forall (Forall P) a.

(** The distance transform on a mask whose components are one cell thick:
    one cell to the nearest zero on the mask, zero off it. *)
Definition thin_distance (mask : array Z) : array Q :=
  amap 0 (fun v => inject_Z (b2z (negb (v =? 0)))) mask.

(** A cell holds a number, not an infinity and not a not-a-number. *)
Definition is_number (x : fval) : bool :=
  match x with FNum _ => true | _ => false end.

(** Two cells hold the same value: the same number, or the same special
    value. *)
Definition same_value (x y : fval) : Prop :=
  match x, y with
  | FNum a, FNum b => (a == b)%Q
  | FPosInf, FPosInf | FNegInf, FNegInf | FNaN, FNaN => True
  | _, _ => False
  end.

(** "the distance band, which is zeroed wherever the label is background",
    for a stack and a label array. *)
Definition zeroed_at_background (xvars : list (array fval))
    (labels_array : array Z) : Prop :=
  exists xvars' labels',
    remove_noncrop xvars labels_array = Some (xvars', labels') /\
    forall r c, in_range labels_array r c -> get 0 labels_array r c <= 0 ->
      same_value (get f0 (List.last xvars' []) r c) f0.


(** ** The label stage of [create_image_vars] *)

Section ImageVars.

(** [skimage.morphology.thin(mask, max_num_iter=2)], read as a 0/1 array. *)
Variable sk_thin : array Z -> array Z.
Variable nd_label : array Z -> array Z.
Variable distance_transform : array Z -> array Q.

(** Lines 352-361: the thinned edge candidates, on the frame of one padded
    cell all around and cut back to the shape of the labels. *)
Definition thin_edges (labels_array : array Z) : array Z :=
  inner 0 1 (sk_thin (pad_edge 0 1 (edge_candidates labels_array))).

(** [labels_array[labels_array > 0] = CROP_CLASS] *)
Definition binarize (labels_array : array Z) : array Z :=
  amap 0 (fun v => if v >? 0 then CROP_CLASS else v) labels_array.

(** [np.where((labels_array_copy == 0) & (labels_array != EDGE_CLASS), 0,
    labels_array)] *)
Definition thinning_cleanup (labels_array_copy labels_array : array Z) : array Z :=
  zip2 0 0 (fun c v => if (c =? 0) && negb (v =? EDGE_CLASS) then 0 else v)
       labels_array_copy labels_array.

(** Lines 348-376 of [create_image_vars]: from the rasterized polygons to
    the labels background / crop / edge.  Returns the labels and the edges. *)
Definition image_labels (labels_array : array Z) : array Z * array Z :=
  let labels_array_copy := labels_array in
  let edges := thin_edges labels_array in
  (* Make the fields binary *)
  let labels_array := binarize labels_array in
  (* Set edges *)
  let labels_array := assign_where 0 edges 1 EDGE_CLASS labels_array in
  (* Clean-up the thinning outputs *)
  let labels_array := thinning_cleanup labels_array_copy labels_array in
  (* Clean-up small fragments *)
  let labels_array := fragment_cleanup labels_array in
  (labels_array, edges).

(** Lines 339-388 of [create_image_vars]: labels, edges and distances of a
    cell.  [raster] is the array of [polygon_to_array] with the geometry
    type of the first polygon, or [None] when the cell has no field; the
    cell then is [nrows] by [ncols] of zeros. *)
Definition image_labels_distances (raster : option (array Z * string))
    (n m : nat) (celly : fval) : array Z * array Z * array fval :=
  match raster with
  | Some (labels_array, geom_type) =>
      let '(labels_array, edges) := image_labels labels_array in
      let bdist :=
        normalize_boundary_distances nd_label distance_transform
          (amap 0 (fun v => b2z (v =? 1)) labels_array) geom_type celly in
      (labels_array, edges, bdist)
  | None =>
      (mk n m (fun _ _ => 0), mk n m (fun _ _ => 0), mk n m (fun _ _ => f0))
  end.

End ImageVars.

(** ** [fill_field_gaps] *)





(** ** The band loop of [CultioGraphNet.forward] (models/cultio.py) *)

(** [range(0, stop, step)]; a step of zero raises: [None]. *)
Definition py_range0 (stop step : nat) : option (list nat) :=
  match step with
  | O => None
  | S _ => Some (map (fun k => (k * step)%nat) (seq 0 ((stop + step - 1) / step)))
  end.

(** The column slices [data.x[:, band:band+ds_time_features]] of the loops
    over [range(0, ds_features, ds_time_features)], as pairs (start, stop)
    on an input with [ds_features] columns. *)
Definition band_slices (ds_features ds_time_features : nat)
    : option (list (nat * nat)) :=
  bands ← py_range0 ds_features ds_time_features;
  Some (map (fun band => (band, Nat.min (band + ds_time_features) ds_features))
            bands).


(** The columns that a slice reads. *)
Definition slice_columns (s : nat * nat) : list nat :=
  seq (fst s) (snd s - fst s).

(** ** Predicates on the store and the run *)

(** Every record lies in the file named after its own identity. *)
Definition well_keyed {P} (dir : directory P) : Prop :=
  forall k d, dir !! k = Some d -> k = data_file (train_id d).

(** The augmentation returns a record that carries the [train_id] it is
    called with. *)
Definition carries_identity {Geom Frame ImageVars Sample Payload : Type}
    `{W : Collaborators Geom Frame ImageVars Sample Payload} : Prop :=
  forall ldata aug tid d, augment ldata aug tid = Some d -> train_id d = tid.

(** Every identity stored in [d1] is stored in [d2]. *)
Definition stored_le {P} (d1 d2 : directory P) : Prop :=
  forall tid, stored d1 tid = true -> stored d2 tid = true.

(** A cell is one of the four borders of an [n] by [m] array. *)
Definition on_border (n m r c : nat) : bool :=
  (r =? 0)%nat || (r =? n - 1)%nat || (c =? 0)%nat || (c =? m - 1)%nat.

(** The land cover padded to the shape of the labels, as
    [recode_crop_labels] pads it. *)
Definition lc_padded (labels_array lc_array : array Z) (r c : nat) : Z :=
  get 0 lc_array (Nat.min r (nrows lc_array - 1)) (Nat.min c (ncols lc_array - 1)).

(** What the loop of [normalize_boundary_distances] leaves in a cell of a
    region: 0.1 in a thin region, and otherwise the distance of the cell
    over the largest distance of the region. *)
Definition normalized_cell (segments : array Z) (bdist : array fval) (r c : nat)
    : fval :=
  let p := region_of segments (get 0 segments r c) in
  if thin p then FNum (1 # 10)
  else fdiv (get f0 bdist r c) (max_intensity segments bdist p).

(** The class-1 indicator that [close_edge_ends] writes. *)
Definition ind1 (v : Z) : Z := b2z (v =? 1).

(** The cell [(r, c)] after the four blocks of [close_edge_ends], read off
    the input: Top, Bottom, Left, Right, each on the result of the one
    before. *)
Definition closed_cell (a : array Z) (r c : nat) : Z :=
  let n := nrows a in
  let m := ncols a in
  let top r c := if (r =? 0)%nat then ind1 (get 0 a 1 c) else get 0 a r c in
  let bottom r c :=
    if (r =? n - 1)%nat then ind1 (top (n - 1)%nat c) else top r c in
  let left r c := if (c =? 0)%nat then ind1 (bottom r 0%nat) else bottom r c in
  if (c =? m - 1)%nat then ind1 (left r (m - 1)%nat) else left r c.

(** The state of the loop of [recode_crop_labels] in multi-class mode,
    after the crop codes in [D]: the identifiers handed out are 1 .. k-1,
    each of them is on some cell, a cell has an identifier exactly when its
    label is 0 and its land cover is a code of [D], and two such cells
    share the identifier exactly when they share the code. *)
Definition recode_ids_ok (labels_array lc R : array Z) (k : Z) (D : Z -> Prop)
    : Prop :=
  same_shape R labels_array /\
  1 <= k /\
  (forall r c, in_range labels_array r c -> 0 <= get 0 R r c < k) /\
  (forall r c, in_range labels_array r c ->
     (0 < get 0 R r c <-> get 0 labels_array r c = 0 /\ D (get 0 lc r c))) /\
  (forall j, 1 <= j < k ->
     exists r c, in_range labels_array r c /\ get 0 R r c = j) /\
  (forall r c r' c',
     in_range labels_array r c -> in_range labels_array r' c' ->
     0 < get 0 R r c -> 0 < get 0 R r' c' ->
     (get 0 R r c = get 0 R r' c' <-> get 0 lc r c = get 0 lc r' c')).

(** The mean of the four edge-padded direct neighbours of [(r, c)] in the
    band [b], as [remove_noncrop] adds them up: left, right, up, down. *)
Definition four_mean (b : array fval) (r c : nat) : fval :=
  let at_ dr dc :=
    get f0 b (clampi (nrows b) (Z.of_nat r + dr)) (clampi (ncols b) (Z.of_nat c + dc)) in
  fdiv (fadd (fadd (fadd (fadd f0 (at_ 0 (-1))) (at_ 0 1)) (at_ (-1) 0)) (at_ 1 0))
       (of_Z 4).

(** The last band of the stack times the indicator of the labels. *)
Definition masked_band (b : array fval) (labels_array : array Z) : array fval :=
  zip2 f0 f0 fmul b (amap 0 (fun v => of_Z (b2z (v >? 0))) labels_array).

(** How a store can change in a run: what was stored stays stored, every
    file stays, and a well-keyed store stays well keyed. *)
Definition grows {P} (d1 d2 : directory P) : Prop :=
  stored_le d1 d2 /\
  (forall k, is_Some (d1 !! k) -> is_Some (d2 !! k)) /\
  (well_keyed d1 -> well_keyed d2).



(** A list of strings without repetition, decided by comparison. *)
Fixpoint distinct_strings (l : list string) : bool :=
  match l with
  | [] => true
  | x :: t => negb (existsb (String.eqb x) t) && distinct_strings t
  end.

(** A cell of the band is zero or a number between [2^-20] and [2^13]. *)
Definition bounded_cell (x : fval) : bool :=
  match x with
  | FNum q => Qeq_bool q 0 || (Qle_bool (1 # 1048576) q && Qle_bool q 8192)
  | _ => false
  end.

(** The offsets of the four direct neighbours that [remove_noncrop] adds
    up, in source order: left, right, up, down. *)
Definition offsets4 : list (Z * Z) := [(0, -1); (0, 1); (-1, 0); (1, 0)].

(** One of the four edge-padded direct neighbours of [(r, c)] carries a
    label and a distance above zero. *)
Definition crop_near (b : array fval) (labels_array : array Z) (r c : nat)
    : bool :=
  existsb
    (fun o =>
       let r' := clampi (nrows b) (Z.of_nat r + fst o) in
       let c' := clampi (ncols b) (Z.of_nat c + snd o) in
       (get 0 labels_array r' c' >? 0) && fgt0 (get f0 b r' c'))
    offsets4.

(** The collaborators of [W] with the labelling of the sample and the
    augmentation replaced: what a run does in this world and in [W] differs
    only through calls of [label_sample] and [augment]. *)
Definition with_sampling {Geom Frame ImageVars Sample Payload : Type}
    (W : Collaborators Geom Frame ImageVars Sample Payload)
    (label_sample' : ImageVars -> list nat -> option Sample)
    (augment' : Sample -> string -> string -> option (Data Payload))
    : Collaborators Geom Frame ImageVars Sample Payload :=
  {| gpd_clip := gpd_clip;
     buffer0 := buffer0;
     drop_empty := drop_empty;
     frame_empty := frame_empty;
     grids_frame := grids_frame;
     sindex_intersection := sindex_intersection;
     nonzero_any := nonzero_any;
     make_unique := make_unique;
     image_vars := image_vars;
     too_small := too_small;
     label_sample := label_sample';
     augment := augment' |}.


(** * Lemmas *)

(** ** Arrays *)

Lemma nrows_mk {A} n m (f : nat -> nat -> A) : nrows (mk n m f) = n.
Proof. unfold nrows, mk. now rewrite length_map, length_seq. Qed.

Lemma ncols_mk {A} n m (f : nat -> nat -> A) :
  (0 < n)%nat -> ncols (mk n m f) = m.
Proof.
  intros Hn. unfold ncols, mk. destruct n as [|n]; [lia|].
  cbn [seq map]. now rewrite length_map, length_seq.
Qed.

Lemma get_mk {A} (d : A) n m f r c :
  (r < n)%nat -> (c < m)%nat -> get d (mk n m f) r c = f r c.
Proof.
  intros Hr Hc. unfold get, mk.
  rewrite (nth_indep _ [] (map (fun c0 => f 0%nat c0) (seq 0 m)))
    by now rewrite length_map, length_seq.
  rewrite (map_nth (fun r0 => map (fun c0 => f r0 c0) (seq 0 m)) (seq 0 n) 0%nat r).
  rewrite seq_nth by assumption. cbn [Nat.add].
  rewrite (nth_indep _ d (f r 0%nat)) by now rewrite length_map, length_seq.
  rewrite (map_nth (fun c0 => f r c0) (seq 0 m) 0%nat c).
  now rewrite seq_nth.
Qed.

Lemma in_indices n m r c :
  In (r, c) (indices n m) <-> (r < n)%nat /\ (c < m)%nat.
Proof.
  unfold indices. rewrite in_flat_map. split.
  - intros (r0 & Hr0 & Hin). apply in_map_iff in Hin as (c0 & Heq & Hc0).
    inversion Heq; subst. apply in_seq in Hr0, Hc0. lia.
  - intros [Hr Hc]. exists r. split; [apply in_seq; lia|].
    apply in_map_iff. exists c. split; [reflexivity|apply in_seq; lia].
Qed.

(** Shape and cells of the derived operations. *)
Lemma shape_mk {A} n m (f : nat -> nat -> A) r c :
  in_range (mk n m f) r c <-> (r < n)%nat /\ (c < m)%nat.
Proof.
  unfold in_range. rewrite nrows_mk. split.
  - intros [Hr Hc]. rewrite ncols_mk in Hc by lia. auto.
  - intros [Hr Hc]. rewrite ncols_mk by lia. auto.
Qed.

Lemma get_amap {A B} (d : A) (e : B) (f : A -> B) a r c :
  in_range a r c -> get e (amap d f a) r c = f (get d a r c).
Proof. intros [Hr Hc]. unfold amap. now rewrite get_mk. Qed.

Lemma get_zip2 {A B C} (da : A) (db : B) (dc : C) (f : A -> B -> C) a b r c :
  in_range a r c -> get dc (zip2 da db f a b) r c = f (get da a r c) (get db b r c).
Proof. intros [Hr Hc]. unfold zip2. now rewrite get_mk. Qed.

Lemma get_assign_where {A} (d : A) seg lab v a r c :
  in_range a r c ->
  get d (assign_where d seg lab v a) r c =
  if get 0 seg r c =? lab then v else get d a r c.
Proof. intros [Hr Hc]. unfold assign_where. now rewrite get_mk. Qed.

Lemma shape_assign_where {A} (d : A) seg lab v (a : array A) :
  nrows (assign_where d seg lab v a) = nrows a /\
  ((0 < nrows a)%nat -> ncols (assign_where d seg lab v a) = ncols a).
Proof.
  unfold assign_where. rewrite nrows_mk. split; [reflexivity|].
  intros H. now rewrite ncols_mk.
Qed.

Lemma in_range_assign_where {A} (d : A) seg lab v (a : array A) r c :
  in_range (assign_where d seg lab v a) r c <-> in_range a r c.
Proof. unfold assign_where. rewrite shape_mk. reflexivity. Qed.

Lemma clampi_lt n i : (0 < n)%nat -> (clampi n i < n)%nat.
Proof. unfold clampi. lia. Qed.

(** ** Focal operators, cell by cell *)

Lemma get_roll_pad (a : array Z) (s0 s1 : Z) (r c : nat) :
  in_range a r c ->
  -1 <= s0 <= 1 -> -1 <= s1 <= 1 ->
  get 0 (roll 0 (pad_edge 0 1 a) s0 s1) r c = neighbour a r c (- s0, - s1).
Proof.
  intros [Hr Hc] Hs0 Hs1.
  unfold roll, inner, np_roll, pad_edge, neighbour, clampi. cbn [fst snd].
  rewrite !nrows_mk. rewrite !ncols_mk by lia.
  rewrite get_mk by lia.
  rewrite get_mk by lia.
  rewrite !Z.mod_small by lia.
  rewrite get_mk by lia.
  f_equal; lia.
Qed.

Lemma shape_roll_pad (a : array Z) (s0 s1 : Z) r c :
  in_range a r c -> in_range (roll 0 (pad_edge 0 1 a) s0 s1) r c.
Proof.
  intros [Hr Hc]. unfold roll, inner, np_roll, pad_edge.
  apply shape_mk. rewrite !nrows_mk. rewrite !ncols_mk by lia. lia.
Qed.

Lemma in_shifts8_bounds s :
  In s shifts8 -> (-1 <= fst s <= 1) /\ (-1 <= snd s <= 1).
Proof.
  unfold shifts8. cbn [In].
  intros H; repeat (destruct H as [<-|H]; [cbn; lia|]); destruct H.
Qed.

Lemma focal_compare_get (a : array Z) (r c : nat) :
  in_range a r c ->
  get 0 (focal_compare a) r c =
  (b2z (get 0 a r c >? 0) + same_neighbours a r c) * b2z (get 0 a r c >? 0).
Proof.
  intros Hin. pose proof Hin as [Hr Hc]. unfold focal_compare.
  rewrite get_zip2 by (unfold sum_axis0; now apply shape_mk).
  rewrite get_amap by assumption.
  unfold sum_axis0. rewrite get_mk by assumption.
  cbn [map fold_right]. rewrite get_amap by assumption.
  f_equal. f_equal.
  unfold same_neighbours, offsets8. rewrite !map_map.
  f_equal. apply map_ext_in. intros s Hs.
  destruct (in_shifts8_bounds s Hs) as [H0 H1].
  rewrite get_zip2 by now apply shape_roll_pad.
  rewrite get_roll_pad by assumption. reflexivity.
Qed.

Lemma focal_stat_sum_get (a : array Z) (r c : nat) :
  in_range a r c ->
  get 0 (focal_stat_sum a) r c =
  get 0 a r c + fold_right Z.add 0 (map (neighbour a r c) offsets8).
Proof.
  intros Hin. pose proof Hin as [Hr Hc]. unfold focal_stat_sum, sum_axis0.
  rewrite get_mk by assumption.
  cbn [map fold_right]. f_equal.
  unfold offsets8. rewrite !map_map.
  f_equal. apply map_ext_in. intros s Hs.
  destruct (in_shifts8_bounds s Hs) as [H0 H1].
  rewrite get_roll_pad by assumption. reflexivity.
Qed.

Lemma sum_b2z_bounds {A} (f : A -> bool) (l : list A) :
  0 <= fold_right Z.add 0 (map (fun o => b2z (f o)) l) <= Z.of_nat (length l).
Proof.
  induction l as [|x l IH]; cbn [map fold_right length].
  - lia.
  - destruct (f x); cbn [b2z]; lia.
Qed.

Lemma same_neighbours_bounds a r c : 0 <= same_neighbours a r c <= 8.
Proof.
  unfold same_neighbours.
  pose proof (sum_b2z_bounds (fun o => neighbour a r c o =? get 0 a r c) offsets8) as H.
  change (Z.of_nat (length offsets8)) with 8 in H. exact H.
Qed.

Lemma frag_sum_get (a : array Z) (r c : nat) :
  in_range a r c ->
  get 0 (frag_sum a) r c = b2z (get 0 a r c =? CROP_CLASS) + crop_neighbours a r c.
Proof.
  intros Hin. pose proof Hin as [Hr Hc]. unfold frag_sum.
  assert (Hin' : in_range (amap 0 (fun v => b2z (v =? CROP_CLASS)) a) r c)
    by (unfold amap; now apply shape_mk).
  rewrite focal_stat_sum_get by assumption.
  rewrite get_amap by assumption. f_equal.
  unfold crop_neighbours. f_equal. apply map_ext. intros o.
  unfold neighbour. unfold amap at 1 2 3. rewrite nrows_mk, ncols_mk by lia.
  rewrite get_mk by (apply clampi_lt; lia). reflexivity.
Qed.

(** ** C4: the focal comparison *)

(** C4, as the code has it.  On an array with at least two rows and two
    columns, the score of [focal_compare] at a foreground cell is one plus
    the number of its eight edge-padded neighbours that equal the centre
    (9 for a homogeneous neighbourhood), and 0 at a background cell; the
    edge-candidate mask is set exactly where the score lies strictly
    between 0 and 8, that is at the foreground cells with at most six equal
    neighbours. *)
Theorem focal_compare_score (a : array Z) (r c : nat) :
  (1 < nrows a)%nat -> (1 < ncols a)%nat -> in_range a r c ->
  get 0 (focal_compare a) r c =
    (if get 0 a r c >? 0 then 1 + same_neighbours a r c else 0) /\
  get 0 (edge_candidates a) r c =
    b2z ((0 <? get 0 (focal_compare a) r c) && (get 0 (focal_compare a) r c <? 8)) /\
  (get 0 (edge_candidates a) r c = 1 <->
   0 < get 0 a r c /\ same_neighbours a r c <= 6).
Proof.
  intros _ _ Hin.
  assert (Hs : get 0 (focal_compare a) r c =
               if get 0 a r c >? 0 then 1 + same_neighbours a r c else 0).
  { rewrite focal_compare_get by assumption.
    destruct (get 0 a r c >? 0); cbn [b2z]; lia. }
  assert (He : get 0 (edge_candidates a) r c =
               b2z ((0 <? get 0 (focal_compare a) r c)
                    && (get 0 (focal_compare a) r c <? 8))).
  { unfold edge_candidates. rewrite get_amap.
    - now rewrite Z.gtb_ltb.
    - unfold focal_compare, zip2. apply shape_mk. unfold sum_axis0.
      destruct Hin as [Hr Hc]. rewrite nrows_mk, ncols_mk by lia. auto. }
  split; [exact Hs|]. split; [exact He|].
  rewrite He, Hs. pose proof (same_neighbours_bounds a r c) as Hb.
  destruct (Z.gtb_spec (get 0 a r c) 0) as [Hpos|Hneg].
  - destruct (Z.ltb_spec 0 (1 + same_neighbours a r c)); [|lia].
    destruct (Z.ltb_spec (1 + same_neighbours a r c) 8);
      cbn [b2z andb]; split; intros; lia.
  - cbn [b2z andb Z.ltb Z.compare]. split; intros; lia.
Qed.

(** A 3x3 field of ones: the centre cell has eight equal neighbours. *)
Lemma focal_compare_score_witness :
  get 0 (focal_compare [[1; 1; 1]; [1; 1; 1]; [1; 1; 1]]) 1 1 = 9.
Proof.
  pose proof (focal_compare_score [[1; 1; 1]; [1; 1; 1]; [1; 1; 1]] 1 1) as H.
  destruct H as [H _].
  - cbn; lia.
  - cbn; lia.
  - split; cbn; lia.
  - rewrite H. reflexivity.
Defined.

(** C4, as the design document states it, fails: on a 3x3 field of ones
    the centre has 8 equal neighbours and the score is 9. *)
Lemma focal_compare_not_neighbour_count :
  ~ score_is_neighbour_count [[1; 1; 1]; [1; 1; 1]; [1; 1; 1]].
Proof.
  intros H. specialize (H 1%nat 1%nat).
  assert (Hin : in_range [[1; 1; 1]; [1; 1; 1]; [1; 1; 1]] 1 1)
    by (split; cbn; lia).
  specialize (H Hin). vm_compute in H. discriminate H.
Qed.

(** ** C7: the clean-up of small fragments *)

(** C7, as the code has it.  [frag_sum] adds the crop indicator over the
    3x3 window, the cell itself and its eight edge-padded neighbours; a
    cell with a sum below 2 becomes background, with a sum of 2 or 3 edge,
    and every other cell keeps the label it has (crop, edge or background). *)
Theorem fragment_cleanup_window_sum (a : array Z) (r c : nat) :
  (1 < nrows a)%nat -> (1 < ncols a)%nat -> in_range a r c ->
  let s := b2z (get 0 a r c =? CROP_CLASS) + crop_neighbours a r c in
  get 0 (frag_sum a) r c = s /\
  (s < 2 -> get 0 (fragment_cleanup a) r c = 0) /\
  (2 <= s < 4 -> get 0 (fragment_cleanup a) r c = EDGE_CLASS) /\
  (4 <= s -> get 0 (fragment_cleanup a) r c = get 0 a r c).
Proof.
  intros _ _ Hin s.
  assert (Hs : get 0 (frag_sum a) r c = s) by now apply frag_sum_get.
  assert (Hin' : in_range (frag_sum a) r c).
  { unfold frag_sum, focal_stat_sum, sum_axis0. apply shape_mk.
    destruct Hin as [Hr Hc]. unfold amap. now rewrite nrows_mk, ncols_mk by lia. }
  split; [exact Hs|].
  unfold fragment_cleanup. rewrite get_zip2 by assumption. rewrite Hs.
  repeat split; intros H.
  - destruct (Z.ltb_spec s 2); [reflexivity|lia].
  - destruct (Z.ltb_spec s 2); [lia|]. destruct (Z.ltb_spec s 4); [reflexivity|lia].
  - destruct (Z.ltb_spec s 2); [lia|]. destruct (Z.ltb_spec s 4); [lia|reflexivity].
Qed.

(** A crop cell with a single crop neighbour: the window sum is 2. *)
Lemma fragment_cleanup_window_sum_witness :
  get 0 (frag_sum [[0; 0; 0]; [0; 1; 1]; [0; 0; 0]]) 1 1 = 2.
Proof.
  pose proof (fragment_cleanup_window_sum [[0; 0; 0]; [0; 1; 1]; [0; 0; 0]] 1 1) as H.
  destruct H as [H _].
  - cbn; lia.
  - cbn; lia.
  - split; cbn; lia.
  - rewrite H. reflexivity.
Defined.

(** C7, as the design document states it, fails: the crop cell at the
    centre of the array below has one crop neighbour, so its 8-neighbour
    sum is below 2, and it becomes edge, not background. *)
Lemma fragment_cleanup_not_neighbour_sum :
  ~ cleanup_by_neighbour_sum [[0; 0; 0]; [0; 1; 1]; [0; 0; 0]].
Proof.
  intros H. specialize (H 1%nat 1%nat).
  assert (Hin : in_range [[0; 0; 0]; [0; 1; 1]; [0; 0; 0]] 1 1)
    by (split; cbn; lia).
  destruct (H Hin) as [H1 _].
  assert (Hlt : crop_neighbours [[0; 0; 0]; [0; 1; 1]; [0; 0; 0]] 1 1 < 2)
    by (vm_compute; reflexivity).
  specialize (H1 Hlt). vm_compute in H1. discriminate H1.
Qed.

(** ** C10: [remove_noncrop] *)

Lemma shape_of_mk {A B} (a : array A) (f : nat -> nat -> B) :
  same_shape (mk (nrows a) (ncols a) f) a.
Proof.
  unfold same_shape. rewrite nrows_mk. split; [reflexivity|].
  destruct a as [|row a]; [reflexivity|]. now rewrite ncols_mk by (cbn; lia).
Qed.

Lemma broadcasts_to_shape {A} (a : array A) (n m : nat) :
  broadcasts_to n m a = true ->
  (nrows a = n \/ nrows a = 1%nat) /\ (ncols a = m \/ ncols a = 1%nat).
Proof.
  unfold broadcasts_to. intros H. apply andb_true_iff in H as [H1 H2].
  apply orb_true_iff in H1, H2. rewrite !Nat.eqb_eq in H1, H2. auto.
Qed.

Lemma broadcasts_in_range {A} (a : array A) (n m r c : nat) :
  broadcasts_to n m a = true -> (r < n)%nat -> (c < m)%nat ->
  in_range a (if (nrows a =? 1)%nat then 0%nat else r)
             (if (ncols a =? 1)%nat then 0%nat else c).
Proof.
  intros H Hr Hc. apply broadcasts_to_shape in H as [H1 H2]. split.
  - destruct (Nat.eqb_spec (nrows a) 1); lia.
  - destruct (Nat.eqb_spec (ncols a) 1); lia.
Qed.

Lemma same_shape_broadcasts {A B} (a : array A) (b : array B) :
  same_shape b a -> broadcasts_to (nrows b) (ncols b) a = true.
Proof.
  intros [Hr Hc]. unfold broadcasts_to. rewrite <- Hr, <- Hc.
  now rewrite !Nat.eqb_refl.
Qed.

Lemma get_broadcast_same {A B} (d : A) (a : array A) (b : array B) (r c : nat) :
  same_shape b a -> in_range b r c ->
  get d (broadcast_to d (nrows b) (ncols b) a) r c = get d a r c.
Proof.
  intros [Hr Hc] [Ir Ic]. unfold broadcast_to. rewrite get_mk by assumption.
  f_equal.
  - destruct (Nat.eqb_spec (nrows a) 1); lia.
  - destruct (Nat.eqb_spec (ncols a) 1); lia.
Qed.

Lemma remove_noncrop_returns (xs : list (array fval)) (b : array fval)
    (labels_array : array Z) :
  broadcasts_to (nrows b) (ncols b) labels_array = true ->
  (0 < nrows b)%nat -> (0 < ncols b)%nat ->
  exists labels',
    remove_noncrop (xs ++ [b]) labels_array =
    Some (xs ++ [zip2 f0 f0 fmul b
                   (broadcast_to f0 (nrows b) (ncols b)
                      (amap 0 (fun v => of_Z (b2z (v >? 0))) labels_array))],
          labels').
Proof.
  intros Hb Hn Hm. unfold remove_noncrop.
  destruct (xs ++ [b]) eqn:E; [destruct xs; discriminate|].
  rewrite <- E. rewrite last_last. cbv zeta. rewrite Hb. cbn [negb].
  destruct (Nat.eqb_spec (nrows b) 0); [lia|].
  destruct (Nat.eqb_spec (ncols b) 0); [lia|]. cbn [orb].
  unfold set_last. rewrite removelast_last. eexists. reflexivity.
Qed.

Lemma remove_noncrop_raises (xs : list (array fval)) (b : array fval)
    (labels_array : array Z) :
  remove_noncrop (xs ++ [b]) labels_array <> None ->
  broadcasts_to (nrows b) (ncols b) labels_array = true /\
  (0 < nrows b)%nat /\ (0 < ncols b)%nat.
Proof.
  unfold remove_noncrop.
  destruct (xs ++ [b]) eqn:E; [destruct xs; discriminate|].
  rewrite <- E. rewrite last_last. cbv zeta.
  destruct (broadcasts_to _ _ _); cbn [negb]; [|congruence].
  destruct (Nat.eqb_spec (nrows b) 0); cbn [orb]; [congruence|].
  destruct (Nat.eqb_spec (ncols b) 0); [congruence|].
  intros _. split; [reflexivity|]. lia.
Qed.

(** C10, as the code has it.  A stack without bands raises.  On a stack
    [xs ++ [b]] the call returns exactly when the last band [b] has no empty
    axis and the labels broadcast to its shape.  It then returns every band
    but the last as it received it, and in place of the last band its
    product with the indicator of the labels above zero: where the label is
    above zero the cell is kept; where the label is background a number
    becomes zero, and an infinity or a not-a-number comes out as
    not-a-number, not as zero. *)
Theorem remove_noncrop_frame (xs : list (array fval)) (b : array fval)
    (labels_array : array Z) :
  let n := nrows b in
  let m := ncols b in
  let masked :=
    zip2 f0 f0 fmul b
         (broadcast_to f0 n m
            (amap 0 (fun v => of_Z (b2z (v >? 0))) labels_array)) in
  remove_noncrop [] labels_array = None /\
  (is_Some (remove_noncrop (xs ++ [b]) labels_array) <->
   broadcasts_to n m labels_array = true /\ (0 < n)%nat /\ (0 < m)%nat) /\
  (forall xvars' labels',
     remove_noncrop (xs ++ [b]) labels_array = Some (xvars', labels') ->
     xvars' = xs ++ [masked]) /\
  same_shape masked b /\
  (forall r c, broadcasts_to n m labels_array = true -> in_range b r c ->
     let l := get 0 labels_array
                  (if (nrows labels_array =? 1)%nat then 0%nat else r)
                  (if (ncols labels_array =? 1)%nat then 0%nat else c) in
     (0 < l -> same_value (get f0 masked r c) (get f0 b r c)) /\
     (l <= 0 ->
      same_value (get f0 masked r c)
                 (if is_number (get f0 b r c) then f0 else FNaN))).
Proof.
  intros n m masked.
  split; [reflexivity|]. split; [|split; [|split]].
  - split.
    + intros [v Hv]. apply (remove_noncrop_raises xs). congruence.
    + intros (Hb & Hn & Hm).
      destruct (remove_noncrop_returns xs b labels_array Hb Hn Hm) as [l' H].
      rewrite H. eexists. reflexivity.
  - intros xvars' labels' H.
    destruct (remove_noncrop_raises xs b labels_array) as (Hb & Hn & Hm);
      [congruence|].
    destruct (remove_noncrop_returns xs b labels_array Hb Hn Hm) as [l' H'].
    rewrite H' in H. now injection H as <- _.
  - apply shape_of_mk.
  - intros r c Hb Hin. pose proof Hin as [Hr Hc]. cbv zeta.
    set (l := get 0 labels_array _ _).
    assert (Hcell : get f0 masked r c
                    = fmul (get f0 b r c) (of_Z (b2z (l >? 0)))).
    { unfold masked. rewrite get_zip2 by assumption.
      unfold broadcast_to. rewrite get_mk by assumption.
      destruct (shape_of_mk labels_array
                  (fun r c => of_Z (b2z (get 0 labels_array r c >? 0))))
        as [Ar Ac].
      fold (amap 0 (fun v => of_Z (b2z (v >? 0))) labels_array) in Ar, Ac.
      rewrite Ar, Ac.
      now rewrite get_amap by now apply (broadcasts_in_range labels_array n m). }
    rewrite Hcell. clear Hcell.
    split; intros Hl.
    + destruct (Z.gtb_spec l 0); [|lia]. cbn [b2z].
      destruct (get f0 b r c) as [q| | |]; cbn; try exact I.
      unfold inject_Z. ring.
    + destruct (Z.gtb_spec l 0); [lia|]. cbn [b2z].
      destruct (get f0 b r c) as [q| | |]; cbn; try exact I.
      unfold inject_Z. ring.
Qed.

(** C10 on a stack of two bands and a row of labels with one crop cell:
    the call returns, and the distance over the background cell is zero. *)
Lemma remove_noncrop_frame_witness :
  let b := [[FNum 1; FNum 2]] in
  let labels_array := [[1; 0]] in
  let masked :=
    zip2 f0 f0 fmul b
         (broadcast_to f0 1 2
            (amap 0 (fun v => of_Z (b2z (v >? 0))) labels_array)) in
  is_Some (remove_noncrop ([[[FNum 7; FNum 8]]] ++ [b]) labels_array) /\
  same_value (get f0 masked 0 1) f0.
Proof.
  cbv zeta.
  pose proof (remove_noncrop_frame [[[FNum 7; FNum 8]]] [[FNum 1; FNum 2]]
                [[1; 0]]) as H.
  cbv zeta in H. destruct H as (_ & Hs & _ & _ & Hc).
  split.
  - apply Hs. split; [reflexivity|]. split; cbn; lia.
  - destruct (Hc 0%nat 1%nat) as [_ H0]; [reflexivity|split; cbn; lia|].
    apply H0. cbn. lia.
Defined.

(** C10, as the design document states it, fails: a distance that is not
    a number stays not a number over a background cell; it is not zeroed. *)
Lemma remove_noncrop_keeps_nan :
  ~ zeroed_at_background [[[FNaN]]] [[0]].
Proof.
  intros (xv & lab & H & Hz).
  vm_compute in H. injection H as <- _.
  assert (H0 := Hz 0%nat 0%nat ltac:(split; cbn; lia) ltac:(cbn; lia)).
  exact H0.
Qed.

(** ** C8: [close_edge_ends] *)

(** C8 at a 4x4 array with a 2x2 block of class 1 in the middle.  The top
    border receives the pattern of row 1.  The bottom border, the left
    border and the right border are rebuilt from themselves: they stay
    empty although row -2, column 1 and column -2 hold class-1 cells. *)
Theorem close_edge_ends_only_top :
  let a := [[0; 0; 0; 0]; [0; 1; 1; 0]; [0; 1; 1; 0]; [0; 0; 0; 0]] in
  exists out,
    close_edge_ends a = Some out /\
    out = [[0; 1; 1; 0]; [0; 1; 1; 0]; [0; 1; 1; 0]; [0; 0; 0; 0]] /\
    row_of 0 0 out = is_one (row_of 0 1 a) /\
    row_of 0 3 out <> is_one (row_of 0 2 a) /\
    col_of 0 0 out <> is_one (col_of 0 1 a) /\
    col_of 0 3 out <> is_one (col_of 0 2 a).
Proof.
  cbv zeta. eexists. split; [vm_compute; reflexivity|].
  repeat split; vm_compute; congruence.
Qed.

(** What the four blocks of [close_edge_ends] do to the bottom row: a cell
    of the last row that is not in a corner column becomes the class-1
    indicator of the cell itself. *)
Lemma close_edge_ends_bottom (a out : array Z) (c : nat) :
  close_edge_ends a = Some out ->
  (2 < nrows a)%nat -> (0 < c)%nat -> (c < ncols a - 1)%nat ->
  get 0 out (nrows a - 1) c = b2z (get 0 a (nrows a - 1) c =? 1).
Proof.
  intros H Hn Hc0 Hc1. unfold close_edge_ends in H.
  destruct ((nrows a <? 2)%nat || (ncols a <? 1)%nat); [discriminate|].
  injection H as <-.
  unfold set_col, set_row, is_one, row_of, col_of.
  repeat (rewrite ?nrows_mk; rewrite ?ncols_mk by lia).
  rewrite get_mk by lia.
  destruct (Nat.eqb_spec c (ncols a - 1)); [lia|].
  rewrite get_mk by lia.
  destruct (Nat.eqb_spec c 0); [lia|].
  rewrite get_mk by lia.
  rewrite Nat.eqb_refl.
  rewrite (nth_indep _ 0 (b2z (0 =? 1))) by (rewrite !length_map, length_seq; lia).
  rewrite (map_nth (fun v => b2z (v =? 1))).
  rewrite (nth_indep _ 0 (get 0
     (mk (nrows a) (ncols a)
        (fun r c0 => if (r =? 0)%nat
           then nth c0 (map (fun v => b2z (v =? 1))
                  (map (fun c1 => get 0 a 1 c1) (seq 0 (ncols a)))) 0
           else get 0 a r c0)) (nrows a - 1) 0%nat))
    by (rewrite length_map, length_seq; lia).
  rewrite (map_nth (fun c1 => get 0 _ (nrows a - 1)%nat c1) (seq 0 (ncols a)) 0%nat c).
  rewrite seq_nth by lia. cbn [Nat.add].
  rewrite get_mk by lia.
  destruct (Nat.eqb_spec (nrows a - 1) 0); [lia|]. reflexivity.
Qed.

(** ** C1: the check of the store *)

Lemma fold_flag {A} (p : A -> bool) (l : list A) (b : bool) :
  fold_left (fun acc x => if p x then true else acc) l b = b || existsb p l.
Proof.
  revert b. induction l as [|x l IH]; intros b; cbn.
  - now rewrite orb_false_r.
  - rewrite IH. destruct (p x), b; reflexivity.
Qed.

Lemma existsb_over_map {A B} (f : B -> bool) (g : A -> B) (l : list A) :
  existsb f (map g l) = existsb (fun x => f (g x)) l.
Proof. induction l as [|x l IH]; cbn; [reflexivity|now rewrite IH]. Qed.

Lemma is_grid_processed_existsb {P} (dir : directory P) transforms group_id grid0 n_ts :
  is_grid_processed dir transforms group_id grid0 n_ts =
  existsb (fun aug => existsb (stored dir) (train_ids group_id n_ts grid0 aug))
          transforms.
Proof.
  unfold is_grid_processed.
  change (existsb ?f transforms) with (false || existsb f transforms).
  generalize false. induction transforms as [|aug l IH]; intros b; cbn.
  - now rewrite orb_false_r.
  - rewrite IH. unfold train_ids. destruct (is_ts aug).
    + rewrite (fold_flag (fun i => stored dir (ts_train_id group_id grid0 aug i))).
      rewrite existsb_over_map. now rewrite orb_assoc.
    + cbn. rewrite orb_false_r.
      destruct (stored dir (plain_train_id group_id grid0 aug)), b; reflexivity.
Qed.

(** [is_grid_processed] answers true exactly when a record with a matching
    [train_id] is already stored for at least one of the identities of the
    requested transforms. *)
Lemma is_grid_processed_iff_some_stored {P} (dir : directory P)
    (transforms : list string) (group_id grid0 : string) (n_ts : nat) :
  is_grid_processed dir transforms group_id grid0 n_ts = true <->
  some_stored dir transforms group_id grid0 n_ts.
Proof.
  rewrite is_grid_processed_existsb. unfold some_stored.
  rewrite existsb_exists. split.
  - intros (aug & Hin & H). apply existsb_exists in H as (tid & Htid & Hs).
    exists aug, tid. auto.
  - intros (aug & tid & Hin & Htid & Hs). exists aug. split; [assumption|].
    apply existsb_exists. exists tid. auto.
Qed.

(** C1, as the design document states it, fails: with the transforms
    [none] and [fliplr] requested and only the record of [none] in the
    store, the check answers true although the record of [fliplr] is
    missing. *)
Lemma is_grid_processed_not_all_stored :
  let dir : directory unit :=
    <[data_file "g_1_none" := {| train_id := "g_1_none"; payload := tt |}]> ∅ in
  ~ (is_grid_processed dir ["none"; "fliplr"] "g" "1" 2 = true <->
     all_stored dir ["none"; "fliplr"] "g" "1" 2).
Proof.
  cbv zeta. intros [H _].
  assert (Ht : is_grid_processed
            (<[data_file "g_1_none" := {| train_id := "g_1_none"; payload := tt |}]> ∅
             : directory unit) ["none"; "fliplr"] "g" "1" 2 = true)
    by (vm_compute; reflexivity).
  specialize (H Ht "fliplr" "g_1_fliplr").
  assert (Hf : stored
            (<[data_file "g_1_none" := {| train_id := "g_1_none"; payload := tt |}]> ∅
             : directory unit) "g_1_fliplr" = false)
    by (vm_compute; reflexivity).
  rewrite Hf in H. enough (false = true) by discriminate.
  apply H; cbn; auto.
Qed.

(** ** The grid loop *)

Section LoopFacts.

Context {Geom Frame ImageVars Sample Payload : Type}.
Context `{W : Collaborators Geom Frame ImageVars Sample Payload}.

Variable df_grids : list (GridRow Geom).
Variable group_id : string.
Variable transforms : list string.
Variable n_ts : nat.

#[local] Abbreviation state := (State Frame Payload).
#[local] Abbreviation generate' := (generate df_grids group_id transforms n_ts).
#[local] Abbreviation after_clip' := (after_clip df_grids group_id transforms n_ts).
#[local] Abbreviation process_row' := (process_row df_grids group_id transforms n_ts).
#[local] Abbreviation run_rows' := (run_rows df_grids group_id transforms n_ts).

(** Only the writes touch the state once the edges are clipped: the frame
    of edges and the list of merged grids pass through [generate]. *)
Lemma generate_keeps (row : GridRow Geom) (st : state) ge int_idx :
  df_edges (state_of (generate' row st ge int_idx)) = df_edges st /\
  merged_grids (state_of (generate' row st ge int_idx)) = merged_grids st.
Proof.
  unfold generate.
  destruct (image_vars _ _ _) as [iv|]; [|now split].
  destruct (too_small iv); [now split|].
  destruct (is_grid_processed _ _ _ _ _); [now split|].
  destruct (label_sample iv int_idx) as [ldata|]; [|now split].
  destruct (save_all _ _ _); now split.
Qed.

Lemma after_clip_keeps_edges (row : GridRow Geom) (st : state) ge :
  df_edges (state_of (after_clip' row st ge)) = df_edges st.
Proof.
  unfold after_clip.
  destruct (frame_empty (drop_empty _)); [reflexivity|].
  destruct (1 <? length _)%nat.
  - destruct (existsb _ _); [reflexivity|].
    destruct (gpd_clip _ _) as [ge2|]; [|reflexivity].
    now rewrite (proj1 (generate_keeps row _ ge2 _)).
  - apply generate_keeps.
Qed.

(** C1, as the code has it.  [is_grid_processed] answers true exactly when
    a record with a matching [train_id] is already stored for at least one
    of the identities (group id, grid id, augmentation[, temporal index])
    of the requested transforms.  The orchestrator skips the cell on that
    answer: once the image variables of the cell are there and not too
    small, a cell with one identity stored is left in the state it was
    found in, and neither the labelling of the sample nor the augmentation
    is reached, for the cell is left in the same way whatever stands in the
    place of [label_sample] and [augment].  A cell with no identity stored
    is labelled, augmented and saved. *)
Theorem is_grid_processed_some_stored (dir : directory Payload) (grid0 : string)
    (row : GridRow Geom) (st : state) (grid_edges : Frame)
    (int_idx : list nat) (iv : ImageVars) :
  (is_grid_processed dir transforms group_id grid0 n_ts = true <->
   some_stored dir transforms group_id grid0 n_ts) /\
  (image_vars df_grids
     (if nonzero_any grid_edges then Some (make_unique grid_edges) else None)
     int_idx = Some iv ->
   too_small iv = false ->
   (some_stored (store st) transforms group_id (grid row) n_ts ->
    generate' row st grid_edges int_idx = Completed st /\
    forall label_sample' augment',
      generate (W := with_sampling W label_sample' augment')
        df_grids group_id transforms n_ts row st grid_edges int_idx
      = Completed st) /\
   (~ some_stored (store st) transforms group_id (grid row) n_ts ->
    generate' row st grid_edges int_idx =
    match label_sample iv int_idx with
    | None => Raised st
    | Some ldata =>
        match save_all ldata (fan_out group_id transforms n_ts (grid row))
                       (store st) with
        | Completed d => Completed (with_store st d)
        | Raised d => Raised (with_store st d)
        end
    end)).
Proof.
  split; [apply is_grid_processed_iff_some_stored|].
  intros Hiv Hsmall. split.
  - intros Hsome. apply is_grid_processed_iff_some_stored in Hsome. split.
    + unfold generate.
      destruct (nonzero_any grid_edges); rewrite Hiv, Hsmall, Hsome; reflexivity.
    + intros label_sample' augment'. unfold generate, with_sampling.
      cbn [nonzero_any make_unique image_vars too_small].
      destruct (nonzero_any grid_edges); rewrite Hiv, Hsmall, Hsome; reflexivity.
  - intros Hnone.
    assert (Hf : is_grid_processed (store st) transforms group_id (grid row) n_ts
                 = false).
    { apply not_true_is_false. intros Ht. apply Hnone.
      now apply is_grid_processed_iff_some_stored. }
    unfold generate.
    destruct (nonzero_any grid_edges); rewrite Hiv, Hsmall, Hf; reflexivity.
Qed.

(** C9.  When the clip of the boundary polygons to the cell raises, the
    frame is rebuilt once on zero-width buffers and the clip is tried
    again.  If the second clip raises too, the exception leaves the loop:
    no later cell is processed and the store is as it was.  If it
    succeeds, the cell is processed on the clipped edges, and the state
    that every later cell starts from holds the repaired frame. *)
Theorem clip_failure_repairs_once (row : GridRow Geom) (rest : list (GridRow Geom))
    (st : state) :
  gpd_clip (df_edges st) [geometry row] = None ->
  let repaired := with_edges st (buffer0 (df_edges st)) in
  (gpd_clip (buffer0 (df_edges st)) [geometry row] = None ->
     run_rows' (row :: rest) st = Raised repaired /\
     store repaired = store st) /\
  (forall grid_edges,
     gpd_clip (buffer0 (df_edges st)) [geometry row] = Some grid_edges ->
     process_row' row st = after_clip' row repaired grid_edges /\
     df_edges (state_of (process_row' row st)) = buffer0 (df_edges st) /\
     forall st', process_row' row st = Completed st' ->
       df_edges st' = buffer0 (df_edges st) /\
       run_rows' (row :: rest) st = run_rows' rest st').
Proof.
  intros Hfail repaired. split.
  - intros Hagain. cbn [run_rows]. unfold process_row.
    rewrite Hfail. cbn [df_edges with_edges]. rewrite Hagain. cbn. auto.
  - intros grid_edges Hok.
    assert (Hrow : process_row' row st = after_clip' row repaired grid_edges).
    { unfold process_row. rewrite Hfail. cbn [df_edges with_edges].
      now rewrite Hok. }
    assert (Hedges : df_edges (state_of (process_row' row st))
                     = buffer0 (df_edges st)).
    { rewrite Hrow, after_clip_keeps_edges. reflexivity. }
    split; [exact Hrow|]. split; [exact Hedges|].
    intros st' Hdone. split.
    + rewrite Hdone in Hedges. exact Hedges.
    + cbn [run_rows]. now rewrite Hdone.
Qed.

(** C2, as the code has it.  When the clipped edges of a cell overlap more
    than one grid: if the identifier of one of these grids is in the list
    of merged grids, the cell is left at once and nothing changes;
    otherwise the edges are clipped again to these grids and the
    identifier of the current cell, and no other, is appended to the list. *)
Theorem merged_grids_rule (row : GridRow Geom) (st : state) (grid_edges : Frame) :
  let clipped :=
    drop_empty (if frame_empty (drop_empty grid_edges)
                then grids_frame df_grids else grid_edges) in
  let int_idx := sindex_intersection df_grids clipped in
  frame_empty clipped = false ->
  (1 < length int_idx)%nat ->
  ((exists g, In g (grids_at df_grids int_idx) /\ grid g ∈ merged_grids st) ->
     after_clip' row st grid_edges = Completed st) /\
  ((forall g, In g (grids_at df_grids int_idx) -> grid g ∉ merged_grids st) ->
     forall again,
       gpd_clip (df_edges st) (map geometry (grids_at df_grids int_idx))
         = Some again ->
       after_clip' row st grid_edges =
         generate' row (with_merged st (merged_grids st ++ [grid row]))
                   again int_idx /\
       merged_grids (state_of (after_clip' row st grid_edges))
         = merged_grids st ++ [grid row]).
Proof.
  intros clipped int_idx Hne Hmany.
  assert (Hlen : (1 <? length int_idx)%nat = true) by now apply Nat.ltb_lt.
  split.
  - intros (g & Hg & Hin). unfold after_clip.
    fold clipped. rewrite Hne. fold int_idx. rewrite Hlen.
    replace (existsb _ _) with true; [reflexivity|].
    symmetry. apply existsb_exists. exists (grid g). split.
    + now apply in_map.
    + now apply bool_decide_eq_true.
  - intros Hnone again Hclip.
    assert (Hrow : after_clip' row st grid_edges =
                   generate' row (with_merged st (merged_grids st ++ [grid row]))
                             again int_idx).
    { unfold after_clip. fold clipped. rewrite Hne. fold int_idx. rewrite Hlen.
      replace (existsb _ _) with false; [now rewrite Hclip|].
      symmetry. apply not_true_is_false. intros Hex.
      apply existsb_exists in Hex as (id & Hid & Hdec).
      apply in_map_iff in Hid as (g & <- & Hg).
      apply bool_decide_eq_true in Hdec. now apply (Hnone g). }
    split; [exact Hrow|].
    rewrite Hrow. now rewrite (proj2 (generate_keeps row _ again int_idx)).
Qed.

End LoopFacts.

(** C1 on rectangles: the transforms [none] and [fliplr] are requested and
    only the record of [none] is in the store; the cell is left as it is,
    also when the labelling and the augmentation would raise. *)
Lemma is_grid_processed_some_stored_witness :
  let st : State RectWorld.frame unit :=
    {| df_edges := RectWorld.one_field; merged_grids := [];
       store := <[data_file "g_2020_a_none" :=
                  {| train_id := "g_2020_a_none"; payload := tt |}]> ∅ |} in
  generate (W := with_sampling RectWorld.world (fun _ _ => None)
                   (fun _ _ _ => None))
    RectWorld.three_grids "g_2020" ["none"; "fliplr"] 2
    {| grid := "a"; geometry := (0, 0, 10, 10) |} st
    [((5, 2, 20, 8), 1)] [0; 1]%nat
  = Completed st.
Proof.
  cbv zeta.
  pose proof (is_grid_processed_some_stored (W := RectWorld.world)
                RectWorld.three_grids "g_2020" ["none"; "fliplr"] 2
                (∅ : directory unit) "a"
                {| grid := "a"; geometry := (0, 0, 10, 10) |}
                {| df_edges := RectWorld.one_field; merged_grids := [];
                   store := <[data_file "g_2020_a_none" :=
                              {| train_id := "g_2020_a_none"; payload := tt |}]> ∅ |}
                [((5, 2, 20, 8), 1)] [0; 1]%nat tt) as [_ H].
  destruct H as [Hskip _]; [reflexivity|reflexivity|].
  apply Hskip. exists "none"%string, "g_2020_a_none"%string.
  split; [now left|]. split; [now left|]. vm_compute. reflexivity.
Defined.

(** C9 on rectangles: a field with its corners in the wrong order makes the
    first clip raise; the frame is repaired and the run goes on. *)
Lemma clip_failure_repairs_once_witness :
  let st : State RectWorld.frame unit :=
    {| df_edges := RectWorld.twisted_field; merged_grids := []; store := ∅ |} in
  df_edges (state_of (process_row RectWorld.two_grids "g_2020" ["none"] 2
                        {| grid := "a"; geometry := (0, 0, 10, 10) |} st))
  = RectWorld.short_field.
Proof.
  cbv zeta.
  pose proof (clip_failure_repairs_once RectWorld.two_grids "g_2020" ["none"] 2
                {| grid := "a"; geometry := (0, 0, 10, 10) |} []
                {| df_edges := RectWorld.twisted_field; merged_grids := [];
                   store := ∅ |}) as H.
  destruct H as [_ H]; [reflexivity|].
  destruct (H [((5, 2, 10, 8), 1)]) as (_ & Hedges & _); [reflexivity|].
  rewrite Hedges. reflexivity.
Defined.

(** C2 on rectangles: the first of three grids in a row, under a field that
    lies over all three.  The clipped field meets the grids [a] and [b];
    only [a] enters the list of merged grids. *)
Lemma merged_grids_rule_witness :
  let st : State RectWorld.frame unit :=
    {| df_edges := RectWorld.one_field; merged_grids := []; store := ∅ |} in
  sindex_intersection RectWorld.three_grids [((5, 2, 10, 8), 1)] = [0; 1]%nat /\
  merged_grids (state_of (after_clip RectWorld.three_grids "g_2020" ["none"] 2
                            {| grid := "a"; geometry := (0, 0, 10, 10) |} st
                            [((5, 2, 10, 8), 1)]))
  = ["a"].
Proof.
  cbv zeta. split; [reflexivity|].
  pose proof (merged_grids_rule RectWorld.three_grids "g_2020" ["none"] 2
                {| grid := "a"; geometry := (0, 0, 10, 10) |}
                {| df_edges := RectWorld.one_field; merged_grids := [];
                   store := ∅ |}
                [((5, 2, 10, 8), 1)]) as H.
  destruct H as [_ H]; [reflexivity | cbn; lia |].
  destruct (H ltac:(intros g _; apply not_elem_of_nil) [((5, 2, 20, 8), 1)])
    as [_ Hm]; [reflexivity|].
  rewrite Hm. reflexivity.
Defined.

(** C2, as the design document states it, fails.  Three grids in a row lie
    under one field.  The run appends [a] and [c] to the list of merged
    grids, never [b], and writes two records for the one field: the grid
    [c] meets only [b] and [c], and neither is in the list. *)
Lemma three_grids_two_samples :
  let r := create_dataset RectWorld.three_grids RectWorld.one_field "g_2020"
             (∅ : directory unit) None 2 in
  merged_grids (state_of r) = ["a"; "c"] /\
  size (store (state_of r)) = 2%nat /\
  ~ one_sample_all_merged ["a"; "b"; "c"] r.
Proof.
  cbv zeta.
  assert (Hm : merged_grids (state_of
            (create_dataset RectWorld.three_grids RectWorld.one_field "g_2020"
               (∅ : directory unit) None 2)) = ["a"; "c"])
    by (vm_compute; reflexivity).
  assert (Hs : size (store (state_of
            (create_dataset RectWorld.three_grids RectWorld.one_field "g_2020"
               (∅ : directory unit) None 2))) = 2%nat)
    by (vm_compute; reflexivity).
  split; [exact Hm|]. split; [exact Hs|].
  intros [_ Hone]. rewrite Hs in Hone. discriminate Hone.
Qed.

(** Two grids side by side under one field: the second grid meets the
    first, which is in the list of merged grids, and one record is written. *)
Example two_grids_one_sample :
  let r := create_dataset RectWorld.two_grids RectWorld.short_field "g_2020"
             (∅ : directory unit) None 2 in
  merged_grids (state_of r) = ["a"] /\ size (store (state_of r)) = 1%nat.
Proof. cbv zeta. split; vm_compute; reflexivity. Qed.

(** ** [np.unique] *)

Lemma in_insert_uniq x y l : In x (insert_uniq y l) <-> x = y \/ In x l.
Proof.
  induction l as [|z l IH]; cbn.
  - intuition.
  - destruct (Z.ltb_spec y z); [cbn; intuition|].
    destruct (Z.eqb_spec y z); cbn; [subst; intuition|].
    rewrite IH. intuition.
Qed.

Lemma insert_uniq_increasing y l : increasing l -> increasing (insert_uniq y l).
Proof.
  induction l as [|z l IH]; cbn; intros Hl.
  - split; [intros ? []|exact I].
  - destruct Hl as [Hz Hl].
    destruct (Z.ltb_spec y z).
    + cbn. split; [|split; assumption].
      intros w [<-|Hw]; [assumption|]. specialize (Hz w Hw). lia.
    + destruct (Z.eqb_spec y z); [cbn; split; assumption|].
      cbn. split; [|now apply IH].
      intros w Hw. apply in_insert_uniq in Hw as [->|Hw]; [lia|now apply Hz].
Qed.

Lemma increasing_NoDup l : increasing l -> List.NoDup l.
Proof.
  induction l as [|x l IH]; cbn; intros H; constructor.
  - intros Hin. destruct H as [H _]. specialize (H x Hin). lia.
  - apply IH, H.
Qed.

Lemma in_sorted_uniq x l : In x (fold_right insert_uniq [] l) <-> In x l.
Proof.
  induction l as [|y l IH]; cbn; [reflexivity|].
  rewrite in_insert_uniq, IH. intuition.
Qed.

Lemma sorted_uniq_increasing l : increasing (fold_right insert_uniq [] l).
Proof.
  induction l as [|y l IH]; cbn; [exact I|now apply insert_uniq_increasing].
Qed.

Lemma in_cells {A} (d : A) (a : array A) r c :
  in_range a r c -> In (get d a r c) (cells d a).
Proof.
  intros Hin. unfold cells, take_idx.
  apply in_map_iff. exists (r, c). split; [reflexivity|now apply in_indices].
Qed.

Lemma in_np_unique a r c : in_range a r c -> In (get 0 a r c) (np_unique a).
Proof. intros Hin. apply in_sorted_uniq. now apply in_cells. Qed.

Lemma NoDup_np_unique a : List.NoDup (np_unique a).
Proof. apply increasing_NoDup, sorted_uniq_increasing. Qed.

Lemma in_where_idx {A} (d : A) (p : A -> bool) (a : array A) r c :
  In (r, c) (where_idx d p a) <-> in_range a r c /\ p (get d a r c) = true.
Proof.
  unfold where_idx. rewrite filter_In, in_indices. reflexivity.
Qed.

(** ** C5: [make_crops_uniform] *)

Lemma same_shape_in_range {A B} (a : array A) (b : array B) r c :
  same_shape a b -> in_range a r c <-> in_range b r c.
Proof. intros [Hr Hc]. unfold in_range. now rewrite Hr, Hc. Qed.

Lemma same_shape_assign_where {A} (d : A) seg lab v (a : array A) :
  same_shape (assign_where d seg lab v a) a.
Proof.
  unfold same_shape, assign_where. rewrite nrows_mk. split; [reflexivity|].
  destruct a as [|row a]; [reflexivity|]. now rewrite ncols_mk by (cbn; lia).
Qed.

Lemma same_shape_trans {A B C} (a : array A) (b : array B) (c : array C) :
  same_shape a b -> same_shape b c -> same_shape a c.
Proof. intros [? ?] [? ?]. split; congruence. Qed.

Lemma segment_labels_ext seg (L L0 : array Z) lab :
  same_shape seg L0 ->
  (forall r c, in_range L0 r c -> get 0 seg r c = lab -> get 0 L r c = get 0 L0 r c) ->
  segment_labels seg L lab = segment_labels seg L0 lab.
Proof.
  intros Hsh Hag. unfold segment_labels, take_idx.
  apply map_ext_in. intros [r c] Hin. cbn [fst snd].
  apply in_where_idx in Hin as [Hin Hp].
  apply Hag; [now apply (same_shape_in_range seg L0)|now apply Z.eqb_eq].
Qed.

(** One round of the loop writes the cells of its segment and no others. *)
Lemma uniform_step_get dt seg L lab total r c :
  in_range L r c ->
  get 0 (uniform_step dt seg L (lab, total)) r c =
  if get 0 seg r c =? lab then
    if total =? 0 then 0
    else if count_eq seg lab <? 2 * total then
      if String.eqb dt "boundaries" then CROP_CLASS
      else stats_mode (segment_labels seg L lab)
    else 0
  else get 0 L r c.
Proof.
  intros Hin. unfold uniform_step.
  destruct (total =? 0); [now rewrite get_assign_where|].
  destruct (count_eq seg lab <? 2 * total); [|now rewrite get_assign_where].
  destruct (String.eqb dt "boundaries"); now rewrite get_assign_where.
Qed.

Lemma same_shape_uniform_step dt seg L it :
  same_shape (uniform_step dt seg L it) L.
Proof.
  destruct it as [lab total]. unfold uniform_step.
  destruct (total =? 0); [apply same_shape_assign_where|].
  destruct (count_eq seg lab <? 2 * total); [|apply same_shape_assign_where].
  destruct (String.eqb dt "boundaries"); apply same_shape_assign_where.
Qed.

Lemma fold_uniform dt seg L0 (l : list Z) :
  same_shape seg L0 -> List.NoDup l ->
  forall L,
    same_shape L L0 ->
    (forall r c, in_range L0 r c -> In (get 0 seg r c) l ->
                 get 0 L r c = get 0 L0 r c) ->
    forall r c, in_range L0 r c ->
      get 0 (fold_left (uniform_step dt seg)
                       (map (fun lab => (lab, crop_total seg L0 lab)) l) L) r c =
      if in_dec Z.eq_dec (get 0 seg r c) l
      then uniform_value dt seg L0 (get 0 seg r c)
      else get 0 L r c.
Proof.
  intros Hseg. induction l as [|lab l IH]; intros Hnd L HL Hag r c Hin.
  - reflexivity.
  - apply List.NoDup_cons_iff in Hnd as [Hnotin Hnd].
    cbn [map fold_left].
    set (L' := uniform_step dt seg L (lab, crop_total seg L0 lab)).
    assert (HL' : same_shape L' L0)
      by (eapply same_shape_trans; [apply same_shape_uniform_step|exact HL]).
    assert (Hget : forall r0 c0, in_range L0 r0 c0 ->
              get 0 L' r0 c0 =
              if get 0 seg r0 c0 =? lab then uniform_value dt seg L0 lab
              else get 0 L r0 c0).
    { intros r0 c0 Hin0. unfold L'.
      rewrite uniform_step_get by now apply (same_shape_in_range L L0).
      destruct (get 0 seg r0 c0 =? lab); [|reflexivity].
      unfold uniform_value.
      rewrite (segment_labels_ext seg L L0 lab Hseg); [reflexivity|].
      intros r1 c1 Hin1 Hlab. apply Hag; [assumption|]. left. now symmetry. }
    rewrite (IH Hnd L' HL'); [| |assumption].
    + rewrite Hget by assumption.
      destruct (Z.eqb_spec (get 0 seg r c) lab) as [Heq|Hne].
      * destruct (in_dec Z.eq_dec (get 0 seg r c) l) as [Hl|Hl];
          [rewrite Heq in Hl; contradiction|].
        destruct (in_dec Z.eq_dec (get 0 seg r c) (lab :: l)) as [_|Hn];
          [now rewrite Heq|].
        exfalso. apply Hn. left. now symmetry.
      * destruct (in_dec Z.eq_dec (get 0 seg r c) l) as [Hl|Hl];
          destruct (in_dec Z.eq_dec (get 0 seg r c) (lab :: l)) as [Hc|Hc];
          try reflexivity.
        -- exfalso. apply Hc. now right.
        -- destruct Hc as [Hc|Hc]; [now symmetry in Hc|contradiction].
    + intros r0 c0 Hin0 Hl. rewrite Hget by assumption.
      destruct (Z.eqb_spec (get 0 seg r0 c0) lab) as [Heq|Hne].
      * rewrite Heq in Hl. contradiction.
      * apply Hag; [assumption|now right].
Qed.

Lemma combine_map_self {A B} (f : A -> B) (l : list A) :
  combine l (map f l) = map (fun x => (x, f x)) l.
Proof. induction l as [|x l IH]; cbn; [reflexivity|now rewrite IH]. Qed.

(** C5, as the code has it.  [make_crops_uniform] labels the connected
    components of the mask of the cells whose [edges] value is 0.  Every
    cell of a component whose crop-labelled cells are none, or not more
    than half of the component, becomes background; every cell of a
    component with more than half is set to the crop class in
    ['boundaries'] mode, and otherwise to the mode of all the labels of
    the component, zeros included. *)
Theorem make_crops_uniform_rule (nd_label : array Z -> array Z)
    (labels_array edges : array Z) (data_type : string) (r c : nat) :
  let segments := nd_label (amap 0 (fun v => b2z (v =? 0)) edges) in
  let lab := get 0 segments r c in
  let total := crop_total segments labels_array lab in
  same_shape segments labels_array ->
  in_range labels_array r c ->
  snd (make_crops_uniform nd_label labels_array edges data_type) = segments /\
  get 0 (fst (make_crops_uniform nd_label labels_array edges data_type)) r c =
    (if total =? 0 then 0
     else if count_eq segments lab <? 2 * total then
       if String.eqb data_type "boundaries" then CROP_CLASS
       else stats_mode (segment_labels segments labels_array lab)
     else 0).
Proof.
  intros segments lab total Hsh Hin. split; [reflexivity|].
  unfold make_crops_uniform. cbn [fst]. fold segments.
  unfold nd_sum. rewrite combine_map_self.
  change (fun lab0 => (lab0, fold_right Z.add 0 _))
    with (fun lab0 => (lab0, crop_total segments labels_array lab0)).
  rewrite (fold_uniform data_type segments labels_array (np_unique segments) Hsh
             (NoDup_np_unique segments) labels_array);
    [|split; reflexivity|reflexivity|assumption].
  destruct (in_dec Z.eq_dec (get 0 segments r c) (np_unique segments)) as [_|Hn].
  - reflexivity.
  - exfalso. apply Hn. apply in_np_unique.
    now apply (same_shape_in_range segments labels_array).
Qed.

(** One component of eight cells, five of them crop, three background. *)
Lemma make_crops_uniform_rule_witness :
  get 0 (fst (make_crops_uniform cc_label [[0; 0; 0; 1]; [1; 2; 3; 4]]
                [[0; 0; 0; 0]; [0; 0; 0; 0]] "crops")) 1 3 = 0.
Proof.
  pose proof (make_crops_uniform_rule cc_label [[0; 0; 0; 1]; [1; 2; 3; 4]]
                [[0; 0; 0; 0]; [0; 0; 0; 0]] "crops" 1 3) as H.
  destruct H as [_ H].
  - split; vm_compute; reflexivity.
  - split; cbn; lia.
  - rewrite H. vm_compute. reflexivity.
Defined.

(** C5, as the design document states it, fails in multi-class mode: the
    component below has five crop cells out of eight, the labels 1, 2, 3
    and 4 once or twice each and the label 0 three times.  The mode of the
    nonzero labels is 1; the code takes the mode of all the labels, which
    is 0, and the component with a crop majority becomes background. *)
Lemma make_crops_uniform_mode_counts_zeros :
  ~ uniform_by_nonzero_mode cc_label [[0; 0; 0; 1]; [1; 2; 3; 4]]
      [[0; 0; 0; 0]; [0; 0; 0; 0]] "crops".
Proof.
  intros H. specialize (H 1%nat 3%nat).
  assert (Hin : in_range [[0; 0; 0; 1]; [1; 2; 3; 4]] 1 3) by (split; cbn; lia).
  specialize (H Hin). vm_compute in H. discriminate H.
Qed.

(** ** Regions *)

Lemma fold_min_le_init a l : (fold_right Nat.min a l <= a)%nat.
Proof. induction l as [|w l IH]; cbn; lia. Qed.

Lemma fold_min_le_in a l x : In x l -> (fold_right Nat.min a l <= x)%nat.
Proof.
  induction l as [|w l IH]; [intros []|].
  intros [<-|Hin]; cbn; [lia|]. specialize (IH Hin). lia.
Qed.

Lemma list_min_le x l : In x l -> (list_min l <= x)%nat.
Proof.
  unfold list_min. destruct l as [|y l]; [intros []|].
  intros [<-|Hin]; [apply fold_min_le_init|now apply fold_min_le_in].
Qed.

Lemma list_max_ge x l : In x l -> (x <= list_max l)%nat.
Proof.
  induction l as [|y l IH]; [intros []|].
  change (list_max (y :: l)) with (Nat.max y (list_max l)).
  intros [<-|Hin]; [lia|]. specialize (IH Hin). lia.
Qed.

(** A cell of a region lies in the bounding box of the region. *)
Lemma region_of_bbox (segments : array Z) (r c : nat) :
  in_range segments r c ->
  let p := region_of segments (get 0 segments r c) in
  (min_row p <= r < max_row p)%nat /\ (min_col p <= c < max_col p)%nat.
Proof.
  intros Hin p.
  assert (Hpx : In (r, c) (where_idx 0 (fun x => x =? get 0 segments r c) segments)).
  { apply in_where_idx. split; [assumption|apply Z.eqb_refl]. }
  assert (Hr : In r (map fst (where_idx 0 (fun x => x =? get 0 segments r c) segments)))
    by (apply in_map_iff; exists (r, c); auto).
  assert (Hc : In c (map snd (where_idx 0 (fun x => x =? get 0 segments r c) segments)))
    by (apply in_map_iff; exists (r, c); auto).
  unfold p, region_of. cbn [min_row max_row min_col max_col].
  pose proof (list_min_le _ _ Hr). pose proof (list_max_ge _ _ Hr).
  pose proof (list_min_le _ _ Hc). pose proof (list_max_ge _ _ Hc).
  lia.
Qed.

Lemma in_regionprops (segments : array Z) (p : region) :
  In p (regionprops segments) <->
  exists lab, p = region_of segments lab /\ 0 < lab /\ In lab (np_unique segments).
Proof.
  unfold regionprops. rewrite in_map_iff. split.
  - intros (lab & <- & Hin). apply filter_In in Hin as [Hin Hpos].
    exists lab. repeat split; [|assumption]. now apply Z.ltb_lt.
  - intros (lab & -> & Hpos & Hin). exists lab. split; [reflexivity|].
    apply filter_In. split; [assumption|now apply Z.ltb_lt].
Qed.

(** ** C6: [check_slivers] *)

Lemma sliver_step_get seg L p r c :
  in_range L r c ->
  get 0 (sliver_step seg L p) r c =
  if thin p && (get 0 seg r c =? r_label p) then 0 else get 0 L r c.
Proof.
  intros Hin. unfold sliver_step. destruct (thin p); cbn [andb]; [|reflexivity].
  now apply get_assign_where.
Qed.

Lemma same_shape_sliver_step seg L p : same_shape (sliver_step seg L p) L.
Proof.
  unfold sliver_step. destruct (thin p); [apply same_shape_assign_where|].
  split; reflexivity.
Qed.

Lemma fold_sliver seg (props : list region) :
  forall L r c, in_range L r c ->
    in_range (fold_left (sliver_step seg) props L) r c /\
    get 0 (fold_left (sliver_step seg) props L) r c =
    if existsb (fun p => thin p && (get 0 seg r c =? r_label p)) props
    then 0 else get 0 L r c.
Proof.
  induction props as [|p props IH]; intros L r c Hin; cbn [fold_left existsb].
  - split; [assumption|reflexivity].
  - assert (Hin' : in_range (sliver_step seg L p) r c)
      by now apply (same_shape_in_range _ L _ _ (same_shape_sliver_step seg L p)).
    destruct (IH _ r c Hin') as [Hr Hg]. split; [exact Hr|].
    rewrite Hg, sliver_step_get by assumption.
    destruct (thin p && (get 0 seg r c =? r_label p)); cbn [orb]; [|reflexivity].
    now destruct (existsb _ props).
Qed.

(** What [check_slivers] leaves in a cell: the edge class where [edges]
    holds 1; elsewhere background when the cell lies in a segment whose
    bounding box is at most one cell high or wide, and the label it
    received otherwise. *)
Lemma check_slivers_rule (labels_array edges segments : array Z) (r c : nat) :
  same_shape segments labels_array ->
  in_range labels_array r c ->
  get 0 (fst (check_slivers labels_array edges segments)) r c =
  if get 0 edges r c =? 1 then EDGE_CLASS
  else if (0 <? get 0 segments r c)
          && thin (region_of segments (get 0 segments r c))
  then 0 else get 0 labels_array r c.
Proof.
  intros Hsh Hin. unfold check_slivers. cbn [fst].
  destruct (fold_sliver segments (regionprops segments) labels_array r c Hin)
    as [Hin' Hg].
  rewrite get_assign_where by assumption.
  destruct (get 0 edges r c =? 1); [reflexivity|].
  rewrite Hg. clear Hg Hin'.
  assert (Hseg : in_range segments r c)
    by now apply (same_shape_in_range segments labels_array).
  destruct (existsb _ _) eqn:Hex.
  - apply existsb_exists in Hex as (p & Hp & Hb).
    apply andb_true_iff in Hb as [Hthin Hlab]. apply Z.eqb_eq in Hlab.
    apply in_regionprops in Hp as (lab & -> & Hpos & _).
    cbn [r_label region_of] in Hlab. rewrite Hlab.
    apply Z.ltb_lt in Hpos. now rewrite Hpos, Hthin.
  - destruct (Z.ltb_spec 0 (get 0 segments r c)) as [Hpos|]; [|reflexivity].
    destruct (thin (region_of segments (get 0 segments r c))) eqn:Hthin;
      [|reflexivity].
    exfalso. apply not_true_iff_false in Hex. apply Hex.
    apply existsb_exists. exists (region_of segments (get 0 segments r c)).
    split.
    + apply in_regionprops. exists (get 0 segments r c).
      repeat split; [assumption|now apply in_np_unique].
    + rewrite Hthin. cbn [andb r_label region_of]. apply Z.eqb_refl.
Qed.

(** C6 on a field of 2x2 crop cells (class 1) inside a ring of edge cells
    (class 2), over land cover that is crop everywhere.  After the chain
    close ends, recode, uniformize, drop slivers, the ring that carried
    the edge class before the recoding is background, and the four crop
    cells carry the edge class: [check_slivers] restores the cells where
    [edges] is 1, and [edges] is the copy of the labels, in which 1 is
    [CROP_CLASS] and the edge class is 2. *)
Theorem check_slivers_restores_class_one :
  let labels_array :=
    [[0; 0; 0; 0; 0; 0]; [0; 2; 2; 2; 2; 0]; [0; 2; 1; 1; 2; 0];
     [0; 2; 1; 1; 2; 0]; [0; 2; 2; 2; 2; 0]; [0; 0; 0; 0; 0; 0]] in
  let lc_labels := mk 6 6 (fun _ _ => 1) in
  exists out edges segments,
    recode_chain cc_label [1; 5] labels_array lc_labels "boundaries"
      = Some (out, edges, segments) /\
    edges = labels_array /\
    out = [[1; 1; 1; 1; 1; 1]; [1; 0; 0; 0; 0; 1]; [1; 0; 2; 2; 0; 1];
           [1; 0; 2; 2; 0; 1]; [1; 0; 0; 0; 0; 1]; [1; 1; 1; 1; 1; 1]] /\
    get 0 edges 1 1 = EDGE_CLASS /\ get 0 out 1 1 <> EDGE_CLASS /\
    get 0 edges 2 2 = CROP_CLASS /\ get 0 out 2 2 = EDGE_CLASS.
Proof.
  cbv zeta. do 3 eexists. split; [vm_compute; reflexivity|].
  repeat split; vm_compute; congruence.
Qed.

(** ** Floating-point cells *)

Lemma Qltb_false x y : Qltb x y = false -> (y <= x)%Q.
Proof.
  unfold Qltb. intros H. apply negb_false_iff in H. now apply Qle_bool_iff.
Qed.

Lemma Qltb_true x y : Qltb x y = true -> (x < y)%Q.
Proof.
  unfold Qltb. intros H. apply negb_true_iff in H.
  apply Qnot_le_lt. intros Hle. apply Qle_bool_iff in Hle. congruence.
Qed.

Lemma Qltb_lt x y : (x < y)%Q -> Qltb x y = true.
Proof.
  intros H. unfold Qltb. apply negb_true_iff. apply not_true_is_false.
  intros Hle. apply Qle_bool_iff in Hle. now apply (Qlt_not_le x y).
Qed.

Lemma Qpos_of_nonneg q : (0 <= q)%Q -> Qeq_bool q 0 = false -> Qltb 0 q = true.
Proof.
  intros Hq Hne. apply Qltb_lt. apply Qle_lt_or_eq in Hq as [Hq|Hq]; [assumption|].
  apply Qeq_bool_neq in Hne. exfalso. apply Hne. now symmetry.
Qed.

(** The last line of [normalize_boundary_distances] sends every cell into
    the unit interval. *)
Lemma clip_in_unit v : in_unit (nan_to_num1 (fclip01 v)).
Proof.
  destruct v as [q| | |]; cbn; try (split; discriminate).
  destruct (Qltb q 0) eqn:H0; cbn; [split; discriminate|].
  destruct (Qltb 1 q) eqn:H1; cbn; [split; discriminate|].
  split; [now apply Qltb_false|now apply Qltb_false].
Qed.

(** Not-a-number and plus infinity come out as 1.  Minus infinity is
    clipped to 0 before [nan_to_num] sees it. *)
Lemma clip_special v :
  is_nan v || is_inf v = true -> v <> FNegInf -> nan_to_num1 (fclip01 v) = f1.
Proof.
  destruct v; cbn; intros H Hn;
    [discriminate H|reflexivity|now contradiction Hn|reflexivity].
Qed.

Lemma clip_neg_inf : nan_to_num1 (fclip01 FNegInf) = f0.
Proof. reflexivity. Qed.

Lemma fmul_not_negative d celly :
  (0 <= d)%Q -> not_negative celly -> not_negative (fmul (FNum d) celly).
Proof.
  intros Hd Hc. destruct celly as [q| | |]; cbn in *; try contradiction; try exact I.
  - now apply Qmult_le_0_compat.
  - destruct (Qeq_bool d 0) eqn:E; [exact I|].
    now rewrite (Qpos_of_nonneg d Hd E).
Qed.

Lemma fdiv_not_negative x y :
  not_negative x -> not_negative y -> not_negative (fdiv x y).
Proof.
  intros Hx Hy.
  destruct x as [a| | |], y as [b| | |]; cbn in *;
    try contradiction; try exact I; try apply Qle_refl.
  - destruct (Qeq_bool b 0) eqn:Eb.
    + destruct (Qeq_bool a 0) eqn:Ea; [exact I|].
      now rewrite (Qpos_of_nonneg a Hx Ea).
    + cbn. assert (Hb : (0 < b)%Q) by (apply Qltb_true, Qpos_of_nonneg; assumption).
      apply Qle_shift_div_l; [assumption|]. now rewrite Qmult_0_l.
  - destruct (Qltb b 0) eqn:Eb; [|exact I].
    apply Qltb_true in Eb. exfalso. now apply (Qlt_not_le b 0).
Qed.

Lemma fmax2_not_negative x y :
  not_negative x -> not_negative y \/ y = FNegInf -> not_negative (fmax2 x y).
Proof.
  intros Hx [Hy| ->].
  - destruct x as [a| | |], y as [b| | |]; cbn in *;
      try contradiction; try exact I.
    destruct (Qle_bool a b); assumption.
  - destruct x; cbn in *; try contradiction; try exact I. assumption.
Qed.

Lemma fmax_not_negative l :
  l <> [] -> Forall not_negative l -> not_negative (fmax l).
Proof.
  induction l as [|x l IH]; [congruence|]. intros _ Hall.
  apply List.Forall_cons_iff in Hall as [Hx Hl]. cbn [fmax fold_right].
  apply fmax2_not_negative; [assumption|].
  destruct l as [|y l]; [now right|]. left. apply IH; [discriminate|assumption].
Qed.

Lemma all_cells_get {A} (P : A -> Prop) (d : A) (a : array A) r c :
  all_cells P a -> P d -> P (get d a r c).
Proof.
  intros Hall Hd. unfold get.
  destruct (nth_in_or_default r a []) as [Hrow|Hrow].
  - pose proof (proj1 (List.Forall_forall _ _) Hall _ Hrow) as HP.
    destruct (nth_in_or_default c (nth r a []) d) as [Hc|Hc].
    + exact (proj1 (List.Forall_forall _ _) HP _ Hc).
    + now rewrite Hc.
  - rewrite Hrow. now destruct c.
Qed.

Lemma all_cells_mk {A} (P : A -> Prop) n m (f : nat -> nat -> A) :
  (forall r c, P (f r c)) -> all_cells P (mk n m f).
Proof.
  intros H. unfold all_cells, mk. apply List.Forall_forall. intros row Hrow.
  apply in_map_iff in Hrow as (r & <- & _).
  apply List.Forall_forall. intros v Hv.
  apply in_map_iff in Hv as (c & <- & _). apply H.
Qed.

(** ** C3: [normalize_boundary_distances] *)

Lemma same_shape_set_slice {A} (d : A) r0 r1 c0 c1 (b a : array A) :
  same_shape (set_slice d r0 r1 c0 c1 b a) a.
Proof.
  unfold same_shape, set_slice. rewrite nrows_mk. split; [reflexivity|].
  destruct a as [|row a]; [reflexivity|]. now rewrite ncols_mk by (cbn; lia).
Qed.

Lemma same_shape_normalize_step seg B p : same_shape (normalize_step seg B p) B.
Proof.
  unfold normalize_step. destruct (0 <? r_label p).
  - apply same_shape_set_slice.
  - split; reflexivity.
Qed.

(** One round of the loop, cell by cell: it writes the cells of its own
    region inside the bounding box. *)
Lemma normalize_step_get seg B p r c :
  in_range B r c ->
  get f0 (normalize_step seg B p) r c =
  if (0 <? r_label p) && inbox p r c && (get 0 seg r c =? r_label p)
  then if thin p then FNum (1 # 10)
       else fdiv (get f0 B r c) (max_intensity seg B p)
  else get f0 B r c.
Proof.
  intros Hin. pose proof Hin as [Hr Hc]. unfold normalize_step.
  destruct (0 <? r_label p); cbn [andb]; [|reflexivity].
  unfold set_slice. rewrite get_mk by assumption. fold (inbox p r c).
  destruct (inbox p r c) eqn:Hbox; cbn [andb]; [|reflexivity].
  unfold inbox in Hbox.
  apply andb_true_iff in Hbox as [Hbox H4].
  apply andb_true_iff in Hbox as [Hbox H3].
  apply andb_true_iff in Hbox as [H1 H2].
  apply Nat.leb_le in H1, H3. apply Nat.ltb_lt in H2, H4.
  assert (Hs : in_range (slice 0 (min_row p) (max_row p) (min_col p) (max_col p) seg)
                        (r - min_row p) (c - min_col p))
    by (unfold slice; apply shape_mk; lia).
  assert (Hseg : get 0 (slice 0 (min_row p) (max_row p) (min_col p) (max_col p) seg)
                     (r - min_row p) (c - min_col p) = get 0 seg r c).
  { unfold slice. rewrite get_mk by lia. f_equal; lia. }
  assert (Hb : get f0 (slice f0 (min_row p) (max_row p) (min_col p) (max_col p) B)
                   (r - min_row p) (c - min_col p) = get f0 B r c).
  { unfold slice. rewrite get_mk by lia. f_equal; lia. }
  destruct (thin p); rewrite get_zip2 by assumption; rewrite Hseg, Hb;
    destruct (get 0 seg r c =? r_label p); reflexivity.
Qed.

(** The cells stay not negative through the loop. *)
Lemma normalize_step_not_negative seg B p :
  same_shape seg B ->
  (forall r c, in_range B r c -> not_negative (get f0 B r c)) ->
  forall r c, in_range B r c -> not_negative (get f0 (normalize_step seg B p) r c).
Proof.
  intros Hsh Hnn r c Hin. rewrite normalize_step_get by assumption.
  destruct ((0 <? r_label p) && inbox p r c && (get 0 seg r c =? r_label p)) eqn:E;
    [|now apply Hnn].
  destruct (thin p); [cbn; discriminate|].
  apply andb_true_iff in E as [_ Hlab].
  apply fdiv_not_negative; [now apply Hnn|].
  unfold max_intensity. apply fmax_not_negative.
  - assert (Hpx : In (r, c) (where_idx 0 (fun x => x =? r_label p) seg)).
    { apply in_where_idx. split; [|assumption].
      now apply (same_shape_in_range seg B). }
    unfold take_idx. intros Hnil.
    apply (in_map (fun rc => get f0 B (fst rc) (snd rc))) in Hpx.
    rewrite Hnil in Hpx. destruct Hpx.
  - unfold take_idx. apply List.Forall_forall. intros v Hv.
    apply in_map_iff in Hv as ([r0 c0] & <- & Hrc). cbn [fst snd].
    apply in_where_idx in Hrc as [Hrc _]. apply Hnn.
    now apply (same_shape_in_range seg B).
Qed.

Lemma fold_normalize_not_negative seg props :
  forall B, same_shape seg B ->
    (forall r c, in_range B r c -> not_negative (get f0 B r c)) ->
    same_shape (fold_left (normalize_step seg) props B) B /\
    forall r c, in_range B r c ->
      not_negative (get f0 (fold_left (normalize_step seg) props B) r c).
Proof.
  induction props as [|p props IH]; intros B Hsh Hnn; cbn [fold_left].
  - split; [split; reflexivity|assumption].
  - pose proof (same_shape_normalize_step seg B p) as Hstep.
    assert (Hsh' : same_shape seg (normalize_step seg B p)).
    { destruct Hsh as [? ?], Hstep as [? ?]. split; congruence. }
    destruct (IH (normalize_step seg B p) Hsh') as [Hs Hn].
    + intros r c Hin. apply normalize_step_not_negative; [assumption..|].
      now apply (same_shape_in_range _ B _ _ Hstep).
    + split; [eapply same_shape_trans; eassumption|].
      intros r c Hin. apply Hn. now apply (same_shape_in_range _ B _ _ Hstep).
Qed.

(** A cell of a thin region holds 0.1 once its region has had its round,
    and no later round changes it. *)
Lemma fold_normalize_thin seg (r c : nat) props :
  in_range seg r c ->
  0 < get 0 seg r c ->
  thin (region_of seg (get 0 seg r c)) = true ->
  Forall (fun p => p = region_of seg (r_label p)) props ->
  forall B, same_shape seg B ->
    get f0 (fold_left (normalize_step seg) props B) r c =
    if existsb (fun p => get 0 seg r c =? r_label p) props
    then FNum (1 # 10) else get f0 B r c.
Proof.
  intros Hin Hpos Hthin. induction props as [|p props IH]; intros Hall B Hsh.
  - reflexivity.
  - apply List.Forall_cons_iff in Hall as [Hp Hall]. cbn [fold_left existsb].
    pose proof (same_shape_normalize_step seg B p) as Hstep.
    assert (Hsh' : same_shape seg (normalize_step seg B p)).
    { destruct Hsh as [? ?], Hstep as [? ?]. split; congruence. }
    rewrite (IH Hall _ Hsh').
    assert (HinB : in_range B r c) by now apply (same_shape_in_range seg B).
    rewrite normalize_step_get by assumption.
    destruct (Z.eqb_spec (get 0 seg r c) (r_label p)) as [Heq|Hne].
    + cbn [orb]. rewrite <- Heq in Hp.
      assert (Hbox : inbox p r c = true).
      { pose proof (region_of_bbox seg r c Hin) as Hb. cbv zeta in Hb.
        rewrite <- Hp in Hb. unfold inbox.
        destruct Hb as [[? ?] [? ?]].
        repeat (apply andb_true_iff; split);
          try (apply Nat.leb_le; lia); apply Nat.ltb_lt; lia. }
      rewrite Hbox. rewrite <- Heq.
      assert (Hp0 : (0 <? get 0 seg r c) = true) by now apply Z.ltb_lt.
      rewrite Hp0. cbn [andb]. rewrite Hp, Hthin.
      now destruct (existsb _ props).
    + cbn [orb]. now rewrite andb_false_r.
Qed.

Lemma regionprops_canonical seg :
  Forall (fun p => p = region_of seg (r_label p)) (regionprops seg).
Proof.
  apply List.Forall_forall. intros p Hp.
  apply in_regionprops in Hp as (lab & -> & _). reflexivity.
Qed.

(** C3.  With the labelling and the distance transform returning arrays of
    one shape, distances that are not negative and a cell size that is not
    negative: every cell of the field that [normalize_boundary_distances]
    returns is a number of [0, 1]; a cell whose value after the loop is
    not-a-number or infinite is 1 in the result; and every cell of a
    component whose bounding box is at most one cell high or wide is 0.1. *)
Theorem normalize_boundary_distances_unit
    (nd_label : array Z -> array Z) (distance_transform : array Z -> array Q)
    (labels_array : array Z) (train_type : string) (celly : fval) (r c : nat) :
  let t := create_boundary_distances nd_label distance_transform
             labels_array train_type celly in
  let mask := fst (fst t) in
  let segments := snd (fst t) in
  let bdist := snd t in
  let looped := normalize_segments segments bdist in
  let out := normalize_boundary_distances nd_label distance_transform
               labels_array train_type celly in
  same_shape segments bdist ->
  all_cells (fun d => (0 <= d)%Q) (distance_transform mask) ->
  not_negative celly ->
  in_range bdist r c ->
  in_unit (get f0 out r c) /\
  (is_nan (get f0 looped r c) || is_inf (get f0 looped r c) = true ->
   get f0 out r c = f1) /\
  (0 < get 0 segments r c ->
   thin (region_of segments (get 0 segments r c)) = true ->
   get f0 out r c = FNum (1 # 10)).
Proof.
  intros t mask segments bdist looped out Hsh Hdist Hcelly Hin.
  assert (Hnn0 : forall r0 c0, in_range bdist r0 c0 ->
                   not_negative (get f0 bdist r0 c0)).
  { intros r0 c0 Hin0. unfold bdist, t, create_boundary_distances. cbn [snd].
    unfold bdist, t, create_boundary_distances in Hin0. cbn [snd] in Hin0.
    rewrite get_amap by (unfold amap in Hin0; now apply shape_mk in Hin0).
    apply fmul_not_negative; [|assumption].
    apply (all_cells_get (fun d => (0 <= d)%Q)); [exact Hdist|apply Qle_refl]. }
  destruct (fold_normalize_not_negative segments (regionprops segments) bdist Hsh Hnn0)
    as [Hshape Hnn].
  fold (normalize_segments segments bdist) in Hshape, Hnn. fold looped in Hshape, Hnn.
  assert (Hinl : in_range looped r c)
    by now apply (same_shape_in_range looped bdist).
  assert (Hout : get f0 out r c = nan_to_num1 (fclip01 (get f0 looped r c))).
  { unfold out, normalize_boundary_distances.
    change (create_boundary_distances nd_label distance_transform labels_array
              train_type celly) with t.
    rewrite (surjective_pairing t), (surjective_pairing (fst t)).
    fold segments bdist looped. now rewrite get_amap. }
  rewrite Hout. split; [apply clip_in_unit|]. split.
  - intros Hsp. apply clip_special; [assumption|].
    intros Hneg. specialize (Hnn r c Hin). now rewrite Hneg in Hnn.
  - intros Hpos Hthin.
    assert (Hseg : in_range segments r c)
      by now apply (same_shape_in_range segments bdist).
    unfold looped, normalize_segments.
    rewrite (fold_normalize_thin segments r c (regionprops segments) Hseg Hpos Hthin
               (regionprops_canonical segments) bdist Hsh).
    replace (existsb _ _) with true; [reflexivity|].
    symmetry. apply existsb_exists.
    exists (region_of segments (get 0 segments r c)). split.
    + apply in_regionprops. exists (get 0 segments r c).
      repeat split; [assumption|now apply in_np_unique].
    + cbn [r_label region_of]. apply Z.eqb_refl.
Qed.

(** A single crop cell in a 3x3 window, cells of 10 m: its component is one
    cell high and wide, and the cell comes out as 0.1. *)
Lemma normalize_boundary_distances_unit_witness :
  get f0 (normalize_boundary_distances cc_label thin_distance
            [[0; 0; 0]; [0; 1; 0]; [0; 0; 0]] "Polygon" (FNum 10)) 1 1
  = FNum (1 # 10).
Proof.
  pose proof (normalize_boundary_distances_unit cc_label thin_distance
                [[0; 0; 0]; [0; 1; 0]; [0; 0; 0]] "Polygon" (FNum 10) 1 1) as H.
  cbv zeta in H. destruct H as (_ & _ & H).
  - split; vm_compute; reflexivity.
  - unfold thin_distance. apply all_cells_mk. intros r0 c0.
    destruct (negb _); vm_compute; intros E; discriminate E.
  - vm_compute. intros E. discriminate E.
  - split; vm_compute; lia.
  - apply H; vm_compute; reflexivity.
Defined.

(** * Further properties *)

(** ** The focal operators *)

Lemma mk_ext {A} n m (f g : nat -> nat -> A) :
  (forall r c, (r < n)%nat -> (c < m)%nat -> f r c = g r c) -> mk n m f = mk n m g.
Proof.
  intros H. unfold mk. apply map_ext_in. intros r Hr. apply in_seq in Hr.
  apply map_ext_in. intros c Hc. apply in_seq in Hc. apply H; lia.
Qed.

(** [roll] on the edge-padded array, for a shift of at most one cell along
    each axis: cell [(r, c)] shows the cell of the array at [(r, c)] minus
    the shift, clamped into the array.  No value wraps around. *)
Theorem roll_pad_neighbour (a : array Z) (s0 s1 : Z) (r c : nat) :
  in_range a r c -> -1 <= s0 <= 1 -> -1 <= s1 <= 1 ->
  get 0 (roll 0 (pad_edge 0 1 a) s0 s1) r c =
  get 0 a (clampi (nrows a) (Z.of_nat r - s0)) (clampi (ncols a) (Z.of_nat c - s1)).
Proof.
  intros Hin H0 H1. rewrite get_roll_pad by assumption.
  unfold neighbour. cbn [fst snd]. f_equal; f_equal; lia.
Qed.

Lemma roll_pad_neighbour_witness :
  get 0 (roll 0 (pad_edge 0 1 [[1; 2]; [3; 4]]) 1 1) 0 1 = 1.
Proof.
  rewrite (roll_pad_neighbour [[1; 2]; [3; 4]] 1 1 0 1);
    [reflexivity | split; cbn; lia | lia | lia].
Defined.

Lemma sum_b2z_full {A} (f : A -> bool) (l : list A) :
  fold_right Z.add 0 (map (fun o => b2z (f o)) l) = Z.of_nat (length l) <->
  forall o, In o l -> f o = true.
Proof.
  induction l as [|x l IH]; cbn [map fold_right length In].
  - split; [intros _ o []|reflexivity].
  - pose proof (sum_b2z_bounds f l) as Hb. split.
    + intros H o [<-|Ho].
      * destruct (f x); [reflexivity|]. cbn [b2z] in H. lia.
      * apply IH; [|assumption]. destruct (f x); cbn [b2z] in H; lia.
    + intros H. rewrite (H x (or_introl eq_refl)). cbn [b2z].
      rewrite (proj2 IH); [lia|]. intros o Ho. apply H. now right.
Qed.

(** The score of [focal_compare] lies between 0 and 9; it is 0 exactly at
    the cells that are not foreground, and 9 exactly at the foreground
    cells whose eight edge-padded neighbours all hold the value of the
    cell. *)
Theorem focal_compare_range (a : array Z) (r c : nat) :
  (1 < nrows a)%nat -> (1 < ncols a)%nat -> in_range a r c ->
  0 <= get 0 (focal_compare a) r c <= 9 /\
  (get 0 (focal_compare a) r c = 0 <-> get 0 a r c <= 0) /\
  (get 0 (focal_compare a) r c = 9 <->
   0 < get 0 a r c /\
   forall o, In o offsets8 -> neighbour a r c o = get 0 a r c).
Proof.
  intros _ _ Hin. rewrite focal_compare_get by assumption.
  pose proof (same_neighbours_bounds a r c) as Hb.
  pose proof (sum_b2z_full (fun o => neighbour a r c o =? get 0 a r c) offsets8)
    as Hfull.
  change (Z.of_nat (length offsets8)) with 8 in Hfull.
  change (fold_right Z.add 0 _) with (same_neighbours a r c) in Hfull.
  destruct (Z.gtb_spec (get 0 a r c) 0) as [Hpos|Hneg]; cbn [b2z].
  - split; [lia|]. split; [split; intros; lia|]. split.
    + intros H. split; [lia|]. intros o Ho. apply Z.eqb_eq.
      apply (proj1 Hfull); [lia|assumption].
    + intros [_ H]. rewrite (proj2 Hfull); [lia|].
      intros o Ho. apply Z.eqb_eq. now apply H.
  - split; [lia|]. split; [split; intros; lia|]. split; intros; lia.
Qed.

Lemma focal_compare_range_witness :
  0 <= get 0 (focal_compare [[0; 1]; [1; 1]]) 1 1 <= 9.
Proof.
  apply (focal_compare_range [[0; 1]; [1; 1]] 1 1);
    [cbn; lia | cbn; lia | split; cbn; lia].
Defined.

Lemma sum_abs_bound (B : Z) (l : list Z) :
  (forall x, In x l -> Z.abs x <= B) ->
  Z.abs (fold_right Z.add 0 l) <= Z.of_nat (length l) * B.
Proof.
  induction l as [|x l IH]; intros H; cbn [fold_right length].
  - cbn. lia.
  - pose proof (H x (or_introl eq_refl)).
    pose proof (IH (fun y Hy => H y (or_intror Hy))). lia.
Qed.

(** [focal_stat(arr, stat='sum')] on an integer array whose cells have a
    magnitude of at most [2^27]: the sum at a cell is the cell plus its
    eight edge-padded neighbours, a border cell counting its own row or
    column again in place of the missing one; and its magnitude is at most
    [9 * 2^27], below [2^31], so that the accumulator of [np.sum] does not
    wrap. *)
Theorem focal_stat_sum_window (a : array Z) (r c : nat) :
  (1 < nrows a)%nat -> (1 < ncols a)%nat -> in_range a r c ->
  (forall r' c', in_range a r' c' -> Z.abs (get 0 a r' c') <= 2 ^ 27) ->
  get 0 (focal_stat_sum a) r c =
    get 0 a r c + fold_right Z.add 0 (map (neighbour a r c) offsets8) /\
  Z.abs (get 0 (focal_stat_sum a) r c) <= 9 * 2 ^ 27 < 2 ^ 31.
Proof.
  intros Hn Hm Hin Hbound.
  rewrite (focal_stat_sum_get a r c Hin). split; [reflexivity|].
  split; [|lia].
  pose proof (Hbound r c Hin) as H0.
  assert (H8 : Z.abs (fold_right Z.add 0 (map (neighbour a r c) offsets8))
               <= 8 * 2 ^ 27).
  { change 8 with (Z.of_nat (length (map (neighbour a r c) offsets8))).
    apply sum_abs_bound. intros x Hx.
    apply in_map_iff in Hx as (o & <- & _). unfold neighbour.
    apply Hbound. split; apply clampi_lt; lia. }
  lia.
Qed.

Lemma focal_stat_sum_window_witness :
  get 0 (focal_stat_sum [[1; 0]; [0; 0]]) 0 0 = 4.
Proof.
  destruct (focal_stat_sum_window [[1; 0]; [0; 0]] 0 0) as [H _];
    [cbn; lia | cbn; lia | split; cbn; lia | | rewrite H; reflexivity].
  intros r' c' [Hr' Hc']. cbn in Hr', Hc'.
  destruct r' as [|[|r']]; [| |lia];
    (destruct c' as [|[|c']]; [cbn; lia|cbn; lia|lia]).
Defined.

Lemma crop_neighbours_bounds a r c : 0 <= crop_neighbours a r c <= 8.
Proof.
  unfold crop_neighbours.
  pose proof (sum_b2z_bounds (fun o => neighbour a r c o =? CROP_CLASS) offsets8) as H.
  change (Z.of_nat (length offsets8)) with 8 in H. exact H.
Qed.

Lemma in_range_frag_sum a r c : in_range a r c -> in_range (frag_sum a) r c.
Proof.
  intros [Hr Hc]. unfold frag_sum, focal_stat_sum, sum_axis0. apply shape_mk.
  unfold amap. now rewrite nrows_mk, ncols_mk by lia.
Qed.

Lemma fragment_cleanup_get a r c :
  in_range a r c ->
  get 0 (fragment_cleanup a) r c =
  let s := b2z (get 0 a r c =? CROP_CLASS) + crop_neighbours a r c in
  if s <? 2 then 0 else if s <? 4 then EDGE_CLASS else get 0 a r c.
Proof.
  intros Hin. unfold fragment_cleanup.
  rewrite get_zip2 by now apply in_range_frag_sum.
  now rewrite frag_sum_get.
Qed.

(** The clean-up of small fragments never makes a crop cell: a cell that
    is crop afterwards was crop before and has at least three crop cells
    among its eight edge-padded neighbours.  A cell with a label among
    0, 1, 2 keeps a label among 0, 1, 2. *)
Theorem fragment_cleanup_survivors (a : array Z) (r c : nat) :
  (1 < nrows a)%nat -> (1 < ncols a)%nat -> in_range a r c ->
  (get 0 (fragment_cleanup a) r c = CROP_CLASS ->
   get 0 a r c = CROP_CLASS /\ 3 <= crop_neighbours a r c) /\
  (0 <= get 0 a r c <= 2 -> 0 <= get 0 (fragment_cleanup a) r c <= 2).
Proof.
  intros _ _ Hin. rewrite fragment_cleanup_get by assumption. cbv zeta.
  pose proof (crop_neighbours_bounds a r c) as Hb.
  unfold CROP_CLASS, EDGE_CLASS in *.
  destruct (Z.eqb_spec (get 0 a r c) 1) as [Heq|Hne]; cbn [b2z];
    destruct (Z.ltb_spec (1 + crop_neighbours a r c) 2);
    destruct (Z.ltb_spec (0 + crop_neighbours a r c) 2);
    destruct (Z.ltb_spec (1 + crop_neighbours a r c) 4);
    destruct (Z.ltb_spec (0 + crop_neighbours a r c) 4);
    split; intros; try lia.
Qed.

Lemma fragment_cleanup_survivors_witness :
  get 0 [[1; 1]; [1; 1]] 0 0 = CROP_CLASS /\
  3 <= crop_neighbours [[1; 1]; [1; 1]] 0 0.
Proof.
  destruct (fragment_cleanup_survivors [[1; 1]; [1; 1]] 0 0) as [H _];
    [cbn; lia | cbn; lia | split; cbn; lia |].
  apply H. vm_compute. reflexivity.
Defined.

(** ** The label stage of [create_image_vars] *)

Lemma thinning_cleanup_noop (sk_thin : array Z -> array Z)
    (labels_array : array Z) :
  let marked :=
    assign_where 0 (thin_edges sk_thin labels_array) 1 EDGE_CLASS
                 (binarize labels_array) in
  thinning_cleanup labels_array marked = marked.
Proof.
  intros marked.
  assert (Hb : same_shape (binarize labels_array) labels_array)
    by apply shape_of_mk.
  unfold thinning_cleanup, zip2, marked, assign_where.
  destruct Hb as [-> ->]. apply mk_ext. intros r c Hr Hc.
  rewrite get_mk by assumption.
  unfold binarize. rewrite get_amap by (split; assumption).
  destruct (get 0 (thin_edges sk_thin labels_array) r c =? 1).
  - rewrite Z.eqb_refl. cbn [negb]. now rewrite andb_false_r.
  - destruct (Z.eqb_spec (get 0 labels_array r c) 0) as [->|Hne]; reflexivity.
Qed.

(** The clean-up of the thinning outputs changes nothing: a cell that was
    background in the rasterized polygons and is not edge after the edges
    are set is background already.  An edge that the thinning puts on a
    background cell stays. *)
Theorem thinning_cleanup_identity (sk_thin : array Z -> array Z)
    (labels_array : array Z) :
  thinning_cleanup labels_array
    (assign_where 0 (thin_edges sk_thin labels_array) 1 EDGE_CLASS
                  (binarize labels_array))
  = assign_where 0 (thin_edges sk_thin labels_array) 1 EDGE_CLASS
                 (binarize labels_array).
Proof. exact (thinning_cleanup_noop sk_thin labels_array). Qed.

Lemma image_labels_get sk_thin (a : array Z) r c :
  in_range a r c ->
  let l3 := assign_where 0 (thin_edges sk_thin a) 1 EDGE_CLASS (binarize a) in
  in_range l3 r c /\
  get 0 l3 r c =
    (if get 0 (thin_edges sk_thin a) r c =? 1 then EDGE_CLASS
     else if get 0 a r c >? 0 then CROP_CLASS else get 0 a r c) /\
  fst (image_labels sk_thin a) = fragment_cleanup l3.
Proof.
  intros Hin l3.
  assert (Hb : in_range (binarize a) r c)
    by (apply (same_shape_in_range _ a); [apply shape_of_mk|assumption]).
  assert (H3 : in_range l3 r c) by now apply in_range_assign_where.
  split; [exact H3|]. split.
  - unfold l3. rewrite get_assign_where by assumption.
    unfold binarize. now rewrite get_amap.
  - unfold image_labels. cbn [fst].
    pose proof (thinning_cleanup_noop sk_thin a) as H. cbv zeta in H.
    now rewrite H.
Qed.

(** The labels of [create_image_vars]: a cell whose rasterized value is not
    negative ends as background, crop or edge, whatever the thinning
    returns; and a cell that ends as crop lies on a rasterized polygon and
    is not an edge of the thinning. *)
Theorem image_labels_values (sk_thin : array Z -> array Z) (a : array Z)
    (r c : nat) :
  (1 < nrows a)%nat -> (1 < ncols a)%nat -> in_range a r c ->
  let out := get 0 (fst (image_labels sk_thin a)) r c in
  (0 <= get 0 a r c -> out = 0 \/ out = CROP_CLASS \/ out = EDGE_CLASS) /\
  (out = CROP_CLASS ->
   0 < get 0 a r c /\ get 0 (snd (image_labels sk_thin a)) r c <> 1).
Proof.
  intros _ _ Hin out.
  destruct (image_labels_get sk_thin a r c Hin) as (H3 & Hv & Hfst).
  cbv zeta in H3, Hv, Hfst.
  unfold out. rewrite Hfst, fragment_cleanup_get by assumption. cbv zeta.
  rewrite Hv. cbn [snd image_labels].
  unfold CROP_CLASS, EDGE_CLASS.
  destruct (_ <? 2); [split; [auto|intros E; discriminate E]|].
  destruct (_ <? 4); [split; [auto|intros E; discriminate E]|].
  destruct (Z.eqb_spec (get 0 (thin_edges sk_thin a) r c) 1) as [He|He].
  - split; [auto|intros E; discriminate E].
  - destruct (Z.gtb_spec (get 0 a r c) 0) as [Hpos|Hneg].
    + split; [auto|]. intros _. split; [lia|assumption].
    + split; [intros H0; left; lia|]. intros E. lia.
Qed.

Lemma image_labels_values_witness :
  let a := [[0; 0; 0; 0]; [0; 1; 1; 0]; [0; 1; 1; 0]; [0; 0; 0; 0]] in
  let out := get 0 (fst (image_labels (fun m => m) a)) 1 1 in
  out = 0 \/ out = CROP_CLASS \/ out = EDGE_CLASS.
Proof.
  cbv zeta.
  apply (image_labels_values (fun m => m)
           [[0; 0; 0; 0]; [0; 1; 1; 0]; [0; 1; 1; 0]; [0; 0; 0; 0]] 1 1);
    [cbn; lia | cbn; lia | split; cbn; lia | cbn; lia].
Defined.

(** ** The loop of [normalize_boundary_distances] *)

Lemma max_intensity_ext seg (B B0 : array fval) p :
  same_shape seg B0 ->
  (forall r c, in_range B0 r c -> get 0 seg r c = r_label p ->
               get f0 B r c = get f0 B0 r c) ->
  max_intensity seg B p = max_intensity seg B0 p.
Proof.
  intros Hsh Hag. unfold max_intensity, take_idx. f_equal.
  apply map_ext_in. intros [r c] Hin. cbn [fst snd].
  apply in_where_idx in Hin as [Hin Hp].
  apply Hag; [now apply (same_shape_in_range seg B0)|now apply Z.eqb_eq].
Qed.

Lemma fold_normalize_get seg B0 (labs : list Z) :
  same_shape seg B0 -> List.NoDup labs -> (forall l, In l labs -> 0 < l) ->
  forall B,
    same_shape B B0 ->
    (forall r c, in_range B0 r c -> In (get 0 seg r c) labs ->
                 get f0 B r c = get f0 B0 r c) ->
    forall r c, in_range B0 r c ->
      get f0 (fold_left (normalize_step seg) (map (region_of seg) labs) B) r c =
      if in_dec Z.eq_dec (get 0 seg r c) labs
      then normalized_cell seg B0 r c
      else get f0 B r c.
Proof.
  intros Hseg. induction labs as [|lab labs IH]; intros Hnd Hpos B HB Hag r c Hin.
  - reflexivity.
  - apply List.NoDup_cons_iff in Hnd as [Hnotin Hnd].
    cbn [map fold_left].
    set (B' := normalize_step seg B (region_of seg lab)).
    assert (HB' : same_shape B' B0)
      by (eapply same_shape_trans; [apply same_shape_normalize_step|exact HB]).
    assert (Hlab : (0 <? lab) = true) by (apply Z.ltb_lt, Hpos; now left).
    assert (Hget : forall r0 c0, in_range B0 r0 c0 ->
              get f0 B' r0 c0 =
              if get 0 seg r0 c0 =? lab then normalized_cell seg B0 r0 c0
              else get f0 B r0 c0).
    { intros r0 c0 Hin0. unfold B'.
      rewrite normalize_step_get by now apply (same_shape_in_range B B0).
      cbn [r_label region_of]. rewrite Hlab. cbn [andb].
      destruct (Z.eqb_spec (get 0 seg r0 c0) lab) as [Heq|Hne];
        [|now rewrite andb_false_r].
      assert (Hs0 : in_range seg r0 c0) by now apply (same_shape_in_range seg B0).
      assert (Hbox : inbox (region_of seg lab) r0 c0 = true).
      { pose proof (region_of_bbox seg r0 c0 Hs0) as Hb. cbv zeta in Hb.
        rewrite Heq in Hb. unfold inbox. destruct Hb as [[? ?] [? ?]].
        repeat (apply andb_true_iff; split);
          try (apply Nat.leb_le; lia); apply Nat.ltb_lt; lia. }
      rewrite Hbox. cbn [andb]. unfold normalized_cell. rewrite Heq.
      destruct (thin (region_of seg lab)); [reflexivity|].
      rewrite (Hag r0 c0 Hin0) by (left; now symmetry).
      f_equal. apply max_intensity_ext; [assumption|].
      intros r1 c1 Hin1 Hl. cbn [r_label region_of] in Hl.
      apply Hag; [assumption|]. left. now symmetry. }
    rewrite (IH Hnd (fun l Hl => Hpos l (or_intror Hl)) B' HB'); [| |assumption].
    + rewrite Hget by assumption.
      destruct (Z.eqb_spec (get 0 seg r c) lab) as [Heq|Hne].
      * destruct (in_dec Z.eq_dec (get 0 seg r c) labs) as [Hl|Hl];
          [rewrite Heq in Hl; contradiction|].
        destruct (in_dec Z.eq_dec (get 0 seg r c) (lab :: labs)) as [_|Hn];
          [reflexivity|].
        exfalso. apply Hn. left. now symmetry.
      * destruct (in_dec Z.eq_dec (get 0 seg r c) labs) as [Hl|Hl];
          destruct (in_dec Z.eq_dec (get 0 seg r c) (lab :: labs)) as [Hc|Hc];
          try reflexivity.
        -- exfalso. apply Hc. now right.
        -- destruct Hc as [Hc|Hc]; [now symmetry in Hc|contradiction].
    + intros r0 c0 Hin0 Hl. rewrite Hget by assumption.
      destruct (Z.eqb_spec (get 0 seg r0 c0) lab) as [Heq|Hne].
      * rewrite Heq in Hl. contradiction.
      * apply Hag; [assumption|now right].
Qed.

Lemma normalize_segments_get segments bdist r c :
  same_shape segments bdist -> in_range bdist r c ->
  get f0 (normalize_segments segments bdist) r c =
  if 0 <? get 0 segments r c then normalized_cell segments bdist r c
  else get f0 bdist r c.
Proof.
  intros Hsh Hin. unfold normalize_segments, regionprops.
  rewrite (fold_normalize_get segments bdist
             (List.filter (fun lab => 0 <? lab) (np_unique segments)) Hsh);
    [| apply List.NoDup_filter, NoDup_np_unique
     | intros l Hl; apply filter_In in Hl as [_ Hl]; now apply Z.ltb_lt
     | split; reflexivity | reflexivity | assumption].
  destruct (in_dec Z.eq_dec _ _) as [Hl|Hl].
  - apply filter_In in Hl as [_ Hl]. now rewrite Hl.
  - destruct (0 <? get 0 segments r c) eqn:Hpos; [|reflexivity].
    exfalso. apply Hl. apply filter_In. split; [|assumption].
    apply in_np_unique. now apply (same_shape_in_range segments bdist).
Qed.

(** The loop of [normalize_boundary_distances], cell by cell: a cell of a
    region (a positive segment label) holds 0.1 when the region is thin and
    otherwise its distance divided by the largest distance of its region,
    both as they were before the loop; a cell outside every region keeps
    its distance. *)
Theorem normalize_segments_cells (segments : array Z) (bdist : array fval)
    (r c : nat) :
  same_shape segments bdist -> in_range bdist r c ->
  get f0 (normalize_segments segments bdist) r c =
  if 0 <? get 0 segments r c then
    if thin (region_of segments (get 0 segments r c)) then FNum (1 # 10)
    else fdiv (get f0 bdist r c)
              (max_intensity segments bdist
                 (region_of segments (get 0 segments r c)))
  else get f0 bdist r c.
Proof. intros Hsh Hin. now rewrite normalize_segments_get. Qed.

Lemma normalize_segments_cells_witness :
  get f0 (normalize_segments [[1; 1]; [1; 1]]
            [[FNum 1; FNum 2]; [FNum 3; FNum 4]]) 0 1
  = fdiv (FNum 2) (FNum 4).
Proof.
  rewrite (normalize_segments_cells [[1; 1]; [1; 1]]
             [[FNum 1; FNum 2]; [FNum 3; FNum 4]] 0 1);
    [reflexivity | split; reflexivity | split; cbn; lia].
Defined.

Lemma normalize_out_get (nd_label : array Z -> array Z)
    (distance_transform : array Z -> array Q) labels_array train_type celly r c :
  let t := create_boundary_distances nd_label distance_transform
             labels_array train_type celly in
  same_shape (snd (fst t)) (snd t) -> in_range (snd t) r c ->
  get f0 (normalize_boundary_distances nd_label distance_transform
            labels_array train_type celly) r c =
  nan_to_num1 (fclip01 (get f0 (normalize_segments (snd (fst t)) (snd t)) r c)).
Proof.
  intros t Hsh Hin. unfold normalize_boundary_distances. fold t.
  rewrite (surjective_pairing t), (surjective_pairing (fst t)).
  rewrite get_amap; [reflexivity|].
  unfold normalize_segments.
  assert (Hshape : forall props B,
            same_shape (fold_left (normalize_step (snd (fst t))) props B) B).
  { induction props as [|p props IH]; intros B; cbn [fold_left].
    - split; reflexivity.
    - eapply same_shape_trans; [apply IH|apply same_shape_normalize_step]. }
  now apply (same_shape_in_range _ (snd t) _ _ (Hshape _ _)).
Qed.

(** The deepest cell of a region that is not thin comes out as 1: when the
    distance of the cell is a positive number and is the largest distance
    of its region, the returned field holds a number equal to 1 there. *)
Theorem normalize_deepest_cell (nd_label : array Z -> array Z)
    (distance_transform : array Z -> array Q)
    (labels_array : array Z) (train_type : string) (celly : fval)
    (r c : nat) (q : Q) :
  let t := create_boundary_distances nd_label distance_transform
             labels_array train_type celly in
  let segments := snd (fst t) in
  let bdist := snd t in
  let p := region_of segments (get 0 segments r c) in
  same_shape segments bdist -> in_range bdist r c ->
  0 < get 0 segments r c -> thin p = false ->
  get f0 bdist r c = FNum q -> (0 < q)%Q ->
  max_intensity segments bdist p = FNum q ->
  exists q',
    get f0 (normalize_boundary_distances nd_label distance_transform
              labels_array train_type celly) r c = FNum q' /\ (q' == 1)%Q.
Proof.
  intros t segments bdist p Hsh Hin Hpos Hthin Hq Hq0 Hmax.
  pose proof (normalize_out_get nd_label distance_transform labels_array
                train_type celly r c) as Hout.
  cbv zeta in Hout. fold t segments bdist in Hout.
  rewrite (Hout Hsh Hin). rewrite normalize_segments_get by assumption.
  apply Z.ltb_lt in Hpos. rewrite Hpos. unfold normalized_cell. fold p.
  rewrite Hthin, Hq, Hmax. cbn [fdiv].
  assert (Hne : Qeq_bool q 0 = false).
  { apply not_true_is_false. intros E. apply Qeq_bool_iff in E.
    rewrite E in Hq0. now apply (Qlt_irrefl 0). }
  rewrite Hne.
  assert (Hone : (q / q == 1)%Q).
  { apply Qmult_inv_r. intros E. rewrite E in Hq0. now apply (Qlt_irrefl 0). }
  exists (q / q)%Q. split; [|exact Hone].
  cbn [fclip01].
  assert (H0 : Qltb (q / q) 0 = false).
  { apply not_true_is_false. intros E. apply Qltb_true in E.
    rewrite Hone in E. discriminate E. }
  assert (H1 : Qltb 1 (q / q) = false).
  { apply not_true_is_false. intros E. apply Qltb_true in E.
    rewrite Hone in E. now apply (Qlt_irrefl 1). }
  now rewrite H0, H1.
Qed.

Lemma normalize_deepest_cell_witness :
  exists q',
    get f0 (normalize_boundary_distances cc_label thin_distance
              [[0; 0; 0; 0]; [0; 1; 1; 0]; [0; 1; 1; 0]; [0; 0; 0; 0]]
              "Polygon" (FNum 10)) 1 1 = FNum q' /\ (q' == 1)%Q.
Proof.
  apply (normalize_deepest_cell cc_label thin_distance
           [[0; 0; 0; 0]; [0; 1; 1; 0]; [0; 1; 1; 0]; [0; 0; 0; 0]]
           "Polygon" (FNum 10) 1 1 10%Q).
  - split; vm_compute; reflexivity.
  - split; vm_compute; lia.
  - vm_compute. reflexivity.
  - vm_compute. reflexivity.
  - vm_compute. reflexivity.
  - vm_compute. reflexivity.
  - vm_compute. reflexivity.
Defined.

(** ** [close_edge_ends], cell by cell *)

Lemma nth_is_one_row (a : array Z) i c :
  (c < ncols a)%nat -> nth c (is_one (row_of 0 i a)) 0 = ind1 (get 0 a i c).
Proof.
  intros Hc. unfold is_one, row_of, ind1.
  rewrite (nth_indep _ 0 (b2z (0 =? 1))) by (rewrite !length_map, length_seq; lia).
  rewrite (map_nth (fun v => b2z (v =? 1))). f_equal. f_equal.
  rewrite (nth_indep _ 0 (get 0 a i 0)) by (rewrite length_map, length_seq; lia).
  rewrite (map_nth (fun c0 => get 0 a i c0) (seq 0 (ncols a)) 0%nat c).
  now rewrite seq_nth.
Qed.

Lemma nth_is_one_col (a : array Z) j r :
  (r < nrows a)%nat -> nth r (is_one (col_of 0 j a)) 0 = ind1 (get 0 a r j).
Proof.
  intros Hr. unfold is_one, col_of, ind1.
  rewrite (nth_indep _ 0 (b2z (0 =? 1))) by (rewrite !length_map, length_seq; lia).
  rewrite (map_nth (fun v => b2z (v =? 1))). f_equal. f_equal.
  rewrite (nth_indep _ 0 (get 0 a 0 j)) by (rewrite length_map, length_seq; lia).
  rewrite (map_nth (fun r0 => get 0 a r0 j) (seq 0 (nrows a)) 0%nat r).
  now rewrite seq_nth.
Qed.

Lemma get_set_row (a : array Z) i row r c :
  in_range a r c ->
  get 0 (set_row 0 i row a) r c = if (r =? i)%nat then nth c row 0 else get 0 a r c.
Proof. intros [Hr Hc]. unfold set_row. now rewrite get_mk. Qed.

Lemma get_set_col (a : array Z) j col r c :
  in_range a r c ->
  get 0 (set_col 0 j col a) r c = if (c =? j)%nat then nth r col 0 else get 0 a r c.
Proof. intros [Hr Hc]. unfold set_col. now rewrite get_mk. Qed.

Lemma close_edge_ends_get (a out : array Z) :
  close_edge_ends a = Some out ->
  (2 <= nrows a)%nat /\ (1 <= ncols a)%nat /\ same_shape out a /\
  forall r c, in_range a r c -> get 0 out r c = closed_cell a r c.
Proof.
  intros H. unfold close_edge_ends in H.
  destruct (Nat.ltb_spec (nrows a) 2) as [|Hn]; [discriminate|].
  destruct (Nat.ltb_spec (ncols a) 1) as [|Hm]; [discriminate|].
  cbn [orb] in H. injection H as <-.
  set (a1 := set_row 0 0 (is_one (row_of 0 1 a)) a).
  set (a2 := set_row 0 (nrows a - 1) (is_one (row_of 0 (nrows a - 1) a1)) a1).
  set (a3 := set_col 0 0 (is_one (col_of 0 0 a2)) a2).
  assert (S1 : same_shape a1 a) by apply shape_of_mk.
  assert (S2 : same_shape a2 a)
    by (eapply same_shape_trans; [apply shape_of_mk|exact S1]).
  assert (S3 : same_shape a3 a)
    by (eapply same_shape_trans; [apply shape_of_mk|exact S2]).
  assert (S4 : same_shape (set_col 0 (ncols a - 1)
                             (is_one (col_of 0 (ncols a - 1) a3)) a3) a)
    by (eapply same_shape_trans; [apply shape_of_mk|exact S3]).
  split; [assumption|]. split; [assumption|]. split; [exact S4|].
  assert (G1 : forall r c, in_range a r c ->
            get 0 a1 r c =
            if (r =? 0)%nat then ind1 (get 0 a 1 c) else get 0 a r c).
  { intros r c Hin. unfold a1. rewrite get_set_row by assumption.
    destruct (r =? 0)%nat; [|reflexivity].
    apply nth_is_one_row. apply Hin. }
  assert (G2 : forall r c, in_range a r c ->
            get 0 a2 r c =
            if (r =? nrows a - 1)%nat then ind1 (get 0 a1 (nrows a - 1) c)
            else get 0 a1 r c).
  { intros r c Hin. unfold a2.
    rewrite get_set_row by now apply (same_shape_in_range a1 a).
    destruct (r =? nrows a - 1)%nat; [|reflexivity].
    apply nth_is_one_row. destruct S1 as [_ ->]. apply Hin. }
  assert (G3 : forall r c, in_range a r c ->
            get 0 a3 r c =
            if (c =? 0)%nat then ind1 (get 0 a2 r 0) else get 0 a2 r c).
  { intros r c Hin. unfold a3.
    rewrite get_set_col by now apply (same_shape_in_range a2 a).
    destruct (c =? 0)%nat; [|reflexivity].
    apply nth_is_one_col. destruct S2 as [-> _]. apply Hin. }
  intros r c Hin. pose proof Hin as [Hr Hc].
  rewrite get_set_col by now apply (same_shape_in_range a3 a).
  unfold closed_cell.
  assert (Hlr : in_range a (nrows a - 1) c) by (split; lia).
  assert (Hc0 : in_range a r 0) by (split; lia).
  assert (Hcl : in_range a r (ncols a - 1)) by (split; lia).
  assert (Hl0 : in_range a (nrows a - 1) 0) by (split; lia).
  assert (Hll : in_range a (nrows a - 1) (ncols a - 1)) by (split; lia).
  destruct (c =? ncols a - 1)%nat.
  - rewrite nth_is_one_col by (destruct S3 as [-> _]; lia).
    rewrite (G3 r (ncols a - 1)%nat Hcl).
    rewrite (G2 r 0%nat Hc0), (G2 r (ncols a - 1)%nat Hcl).
    rewrite (G1 r 0%nat Hc0), (G1 r (ncols a - 1)%nat Hcl).
    rewrite (G1 (nrows a - 1)%nat 0%nat Hl0).
    rewrite (G1 (nrows a - 1)%nat (ncols a - 1)%nat Hll).
    reflexivity.
  - rewrite (G3 r c Hin).
    rewrite (G2 r 0%nat Hc0), (G2 r c Hin).
    rewrite (G1 r 0%nat Hc0), (G1 r c Hin).
    rewrite (G1 (nrows a - 1)%nat 0%nat Hl0).
    rewrite (G1 (nrows a - 1)%nat c Hlr).
    reflexivity.
Qed.

Lemma ind1_values v : ind1 v = 0 \/ ind1 v = 1.
Proof. unfold ind1. destruct (v =? 1); cbn; auto. Qed.

Lemma ind1_idem v : ind1 (ind1 v) = ind1 v.
Proof. unfold ind1. destruct (Z.eqb_spec v 1); reflexivity. Qed.

(** [close_edge_ends] keeps the shape, leaves every cell off the four
    borders as it was, and leaves 0 or 1 in every border cell. *)
Theorem close_edge_ends_frame (a out : array Z) (r c : nat) :
  close_edge_ends a = Some out -> in_range a r c ->
  same_shape out a /\
  (on_border (nrows a) (ncols a) r c = false -> get 0 out r c = get 0 a r c) /\
  (on_border (nrows a) (ncols a) r c = true ->
   get 0 out r c = 0 \/ get 0 out r c = 1).
Proof.
  intros H Hin. destruct (close_edge_ends_get a out H) as (Hn & Hm & Hsh & Hget).
  split; [exact Hsh|]. rewrite (Hget r c Hin). unfold closed_cell, on_border.
  destruct (Nat.eqb_spec c (ncols a - 1)); [rewrite !orb_true_r; split;
    [intros E; discriminate E|intros _; apply ind1_values]|].
  destruct (Nat.eqb_spec c 0); [rewrite orb_true_r; split;
    [intros E; discriminate E|intros _; apply ind1_values]|].
  destruct (Nat.eqb_spec r (nrows a - 1)); [rewrite orb_true_r; split;
    [intros E; discriminate E|intros _; apply ind1_values]|].
  destruct (Nat.eqb_spec r 0); cbn [orb]; split;
    try (intros E; discriminate E); try reflexivity.
  intros _. apply ind1_values.
Qed.

Lemma close_edge_ends_frame_witness :
  get 0 [[0; 1; 1; 0]; [0; 1; 1; 0]; [0; 1; 1; 0]; [0; 0; 0; 0]] 2 1
  = get 0 [[0; 0; 0; 0]; [0; 1; 1; 0]; [0; 1; 1; 0]; [0; 0; 0; 0]] 2 1.
Proof.
  apply (close_edge_ends_frame
           [[0; 0; 0; 0]; [0; 1; 1; 0]; [0; 1; 1; 0]; [0; 0; 0; 0]]
           [[0; 1; 1; 0]; [0; 1; 1; 0]; [0; 1; 1; 0]; [0; 0; 0; 0]] 2 1);
    [vm_compute; reflexivity | split; cbn; lia | reflexivity].
Defined.

(** The four borders of [close_edge_ends], corners aside.  The top border
    receives the class-1 pattern of row 1.  The bottom border, the left
    border and the right border receive the class-1 pattern of
    themselves: nothing of row -2, column 1 or column -2 reaches them. *)
Theorem close_edge_ends_borders (a out : array Z) (r c : nat) :
  close_edge_ends a = Some out -> in_range a r c ->
  ((0 < c < ncols a - 1)%nat ->
     get 0 out 0 c = ind1 (get 0 a 1 c) /\
     get 0 out (nrows a - 1) c = ind1 (get 0 a (nrows a - 1) c)) /\
  ((0 < r < nrows a - 1)%nat ->
     get 0 out r 0 = ind1 (get 0 a r 0) /\
     get 0 out r (ncols a - 1) = ind1 (get 0 a r (ncols a - 1))).
Proof.
  intros H [Hr Hc]. destruct (close_edge_ends_get a out H) as (Hn & Hm & _ & Hget).
  split.
  - intros Hcc. split.
    + rewrite Hget by (split; lia). unfold closed_cell.
      destruct (Nat.eqb_spec c (ncols a - 1)); [lia|].
      destruct (Nat.eqb_spec c 0); [lia|].
      destruct (Nat.eqb_spec 0 (nrows a - 1)); [lia|]. reflexivity.
    + rewrite Hget by (split; lia). unfold closed_cell.
      destruct (Nat.eqb_spec c (ncols a - 1)); [lia|].
      destruct (Nat.eqb_spec c 0); [lia|].
      rewrite Nat.eqb_refl.
      destruct (Nat.eqb_spec (nrows a - 1) 0); [lia|]. reflexivity.
  - intros Hrr. split.
    + rewrite Hget by (split; lia). unfold closed_cell.
      destruct (Nat.eqb_spec r (nrows a - 1)); [lia|].
      destruct (Nat.eqb_spec r 0); [lia|].
      change (0 =? 0)%nat with true. cbv iota.
      destruct (Nat.eqb_spec 0 (ncols a - 1)) as [E|E]; [|reflexivity].
      rewrite <- E. change (0 =? 0)%nat with true. cbv iota. apply ind1_idem.
    + rewrite Hget by (split; lia). unfold closed_cell.
      destruct (Nat.eqb_spec r (nrows a - 1)); [lia|].
      destruct (Nat.eqb_spec r 0); [lia|].
      rewrite Nat.eqb_refl.
      destruct (Nat.eqb_spec (ncols a - 1) 0) as [E|E]; [|reflexivity].
      rewrite E. apply ind1_idem.
Qed.

Lemma close_edge_ends_borders_witness :
  get 0 [[0; 1; 1; 0]; [0; 1; 1; 0]; [0; 1; 1; 0]; [0; 0; 0; 0]] 3 1
  = ind1 (get 0 [[0; 0; 0; 0]; [0; 1; 1; 0]; [0; 1; 1; 0]; [0; 0; 0; 0]] 3 1).
Proof.
  apply (close_edge_ends_borders
           [[0; 0; 0; 0]; [0; 1; 1; 0]; [0; 1; 1; 0]; [0; 0; 0; 0]]
           [[0; 1; 1; 0]; [0; 1; 1; 0]; [0; 1; 1; 0]; [0; 0; 0; 0]] 1 1);
    [vm_compute; reflexivity | split; cbn; lia | cbn; lia].
Defined.

Lemma mk_get_id {A} (d : A) n m (f : nat -> nat -> A) :
  mk n m (fun r c => get d (mk n m f) r c) = mk n m f.
Proof. apply mk_ext. intros r c Hr Hc. now apply get_mk. Qed.

Lemma canonical_of_mk {A} (d : A) n m f (x : array A) :
  mk n m f = x -> (0 < n)%nat ->
  x = mk (nrows x) (ncols x) (fun r c => get d x r c).
Proof.
  intros <- Hn. rewrite nrows_mk, ncols_mk by assumption.
  symmetry. apply mk_get_id.
Qed.

Lemma close_edge_ends_canonical (a out : array Z) :
  close_edge_ends a = Some out ->
  out = mk (nrows a) (ncols a) (fun r c => get 0 out r c).
Proof.
  intros H. destruct (close_edge_ends_get a out H) as (Hn & _ & [Sr Sc] & _).
  rewrite <- Sr, <- Sc.
  unfold close_edge_ends in H.
  destruct ((nrows a <? 2)%nat || (ncols a <? 1)%nat); [discriminate|].
  injection H as H. unfold set_col at 1 in H.
  match type of H with
  | mk ?n ?m ?f = _ =>
      assert (Hrows : nrows out = n) by (rewrite <- H; apply nrows_mk);
      apply (canonical_of_mk 0 n m f out H)
  end.
  lia.
Qed.

Lemma closed_cell_idem (a out : array Z) (r c : nat) :
  (2 <= nrows a)%nat -> (1 <= ncols a)%nat -> same_shape out a ->
  (forall r c, in_range a r c -> get 0 out r c = closed_cell a r c) ->
  in_range a r c ->
  closed_cell out r c = closed_cell a r c.
Proof.
  intros Hn Hm [Sr Sc] Hget [Hr Hc].
  unfold closed_cell at 1. rewrite Sr, Sc.
  rewrite !Hget by (split; lia).
  unfold closed_cell.
  repeat match goal with
         | |- context [Nat.eqb ?x ?y] => destruct (Nat.eqb_spec x y)
         end;
    try lia; rewrite ?ind1_idem; congruence.
Qed.

(** [close_edge_ends] is idempotent: closing the ends of its own result
    returns that result. *)
Theorem close_edge_ends_idempotent (a out : array Z) :
  close_edge_ends a = Some out -> close_edge_ends out = Some out.
Proof.
  intros H.
  destruct (close_edge_ends_get a out H) as (Hn & Hm & Hsh & Hget).
  destruct (close_edge_ends out) as [out2|] eqn:H2.
  - f_equal.
    destruct (close_edge_ends_get out out2 H2) as (_ & _ & Hsh2 & Hget2).
    etransitivity; [apply (close_edge_ends_canonical out out2 H2)|].
    etransitivity; [|symmetry; apply (close_edge_ends_canonical a out H)].
    pose proof Hsh as [Sr Sc]. rewrite Sr, Sc.
    apply mk_ext. intros r c Hr Hc.
    assert (Hin : in_range a r c) by (split; assumption).
    rewrite Hget2 by now apply (same_shape_in_range out a).
    rewrite Hget by assumption.
    now apply closed_cell_idem.
  - exfalso. unfold close_edge_ends in H2. destruct Hsh as [Sr Sc].
    rewrite Sr, Sc in H2.
    destruct (Nat.ltb_spec (nrows a) 2); [lia|].
    destruct (Nat.ltb_spec (ncols a) 1); [lia|]. discriminate H2.
Qed.

Lemma close_edge_ends_idempotent_witness :
  close_edge_ends [[0; 1; 1; 0]; [0; 1; 1; 0]; [0; 1; 1; 0]; [0; 0; 0; 0]]
  = Some [[0; 1; 1; 0]; [0; 1; 1; 0]; [0; 1; 1; 0]; [0; 0; 0; 0]].
Proof.
  apply (close_edge_ends_idempotent
           [[0; 0; 0; 0]; [0; 1; 1; 0]; [0; 1; 1; 0]; [0; 0; 0; 0]]).
  vm_compute. reflexivity.
Defined.

(** ** [recode_crop_labels] *)

Lemma count_eq_pos (a : array Z) v :
  count_eq a v > 0 <-> exists r c, in_range a r c /\ get 0 a r c = v.
Proof.
  unfold count_eq. split.
  - intros H. destruct (where_idx 0 (fun x => x =? v) a) as [|[r c] l] eqn:E;
      [cbn in H; lia|].
    assert (Hin : In (r, c) (where_idx 0 (fun x => x =? v) a))
      by (rewrite E; now left).
    apply in_where_idx in Hin as [Hin Hv]. exists r, c. split; [assumption|].
    now apply Z.eqb_eq.
  - intros (r & c & Hin & Hv).
    assert (Hl : In (r, c) (where_idx 0 (fun x => x =? v) a))
      by (apply in_where_idx; split; [assumption|now apply Z.eqb_eq]).
    destruct (where_idx 0 (fun x => x =? v) a); [destruct Hl|cbn; lia].
Qed.

Lemma recode_step_boundaries (lc edges R : array Z) k v :
  recode_step "boundaries" lc edges (R, k) v =
  (mk (nrows R) (ncols R)
      (fun r c => if (get 0 lc r c =? v) && (get 0 edges r c =? 0)
                  then 1 else get 0 R r c), k).
Proof. reflexivity. Qed.

Lemma recode_boundaries_fold (lc edges : array Z) (codes : list Z) :
  forall R k,
    same_shape (fst (fold_left (recode_step "boundaries" lc edges) codes (R, k))) R /\
    forall r c, in_range R r c ->
      get 0 (fst (fold_left (recode_step "boundaries" lc edges) codes (R, k))) r c =
      if (get 0 edges r c =? 0) && existsb (fun v => get 0 lc r c =? v) codes
      then 1 else get 0 R r c.
Proof.
  induction codes as [|v codes IH]; intros R k; cbn [fold_left existsb].
  - split; [split; reflexivity|]. intros r c _. now rewrite andb_false_r.
  - rewrite recode_step_boundaries.
    set (R' := mk (nrows R) (ncols R) _).
    destruct (IH R' k) as [Hs Hg].
    assert (HR' : same_shape R' R) by apply shape_of_mk.
    split; [eapply same_shape_trans; eassumption|].
    intros r c Hin.
    rewrite Hg by now apply (same_shape_in_range R' R).
    unfold R'. rewrite get_mk by apply Hin.
    destruct (get 0 edges r c =? 0); cbn [andb];
      [|now rewrite andb_false_r].
    destruct (get 0 lc r c =? v); cbn [orb andb]; [|reflexivity].
    now destruct (existsb _ codes).
Qed.

(** [recode_crop_labels] in ['boundaries'] mode: the second result is the
    label array as it came in, and a cell of the first result is 1 exactly
    when the label of the cell is 0 and the land cover over the cell, padded
    to the shape of the labels, is one of the crop codes; every other cell
    is 0. *)
Theorem recode_boundaries_cells (crop_codes : list Z)
    (labels_array lc_array out edges : array Z) (r c : nat) :
  recode_crop_labels crop_codes labels_array lc_array true "boundaries"
    = Some (out, edges) ->
  in_range labels_array r c ->
  edges = labels_array /\
  get 0 out r c =
    if (get 0 labels_array r c =? 0)
       && existsb (fun v => lc_padded labels_array lc_array r c =? v) crop_codes
    then 1 else 0.
Proof.
  intros H Hin. unfold recode_crop_labels in H.
  destruct ((nrows lc_array <=? nrows labels_array)%nat
            && (ncols lc_array <=? ncols labels_array)%nat); [|discriminate].
  injection H as Hout Hedges. split; [now symmetry|].
  rewrite <- Hout.
  match goal with
  | |- context [fold_left _ _ (?R0, 1)] =>
      destruct (recode_boundaries_fold
                  (mk (nrows labels_array) (ncols labels_array)
                      (fun r c => lc_padded labels_array lc_array r c))
                  labels_array crop_codes R0 1) as [_ Hg]
  end.
  assert (Hz : in_range (zeros_like (B:=Z) 0 labels_array) r c)
    by (apply (same_shape_in_range _ labels_array); [apply shape_of_mk|assumption]).
  unfold lc_padded in Hg at 1. rewrite (Hg r c Hz).
  rewrite get_mk by apply Hin.
  unfold zeros_like. rewrite get_mk by apply Hin. reflexivity.
Qed.

Lemma recode_boundaries_cells_witness :
  get 0 [[1; 0]; [0; 0]] 0 0 =
    if (get 0 [[0; 2]; [1; 0]] 0 0 =? 0)
       && existsb (fun v => lc_padded [[0; 2]; [1; 0]] [[5; 5]; [5; 7]] 0 0 =? v)
                  [1; 5]
    then 1 else 0.
Proof.
  apply (recode_boundaries_cells [1; 5] [[0; 2]; [1; 0]] [[5; 5]; [5; 7]]
           [[1; 0]; [0; 0]] [[0; 2]; [1; 0]] 0 0);
    [vm_compute; reflexivity | split; cbn; lia].
Defined.

Lemma recode_ids_ok_ext labels_array lc R k (D D' : Z -> Prop) :
  (forall x, D x <-> D' x) ->
  recode_ids_ok labels_array lc R k D -> recode_ids_ok labels_array lc R k D'.
Proof.
  intros HD (Hs & Hk & Hr & Hd & Hj & He).
  split; [exact Hs|]. split; [exact Hk|]. split; [exact Hr|].
  split; [|split; [exact Hj|exact He]].
  intros r c Hin. rewrite (Hd r c Hin).
  split; intros [H1 H2]; (split; [assumption|apply HD; assumption]).
Qed.

Lemma recode_step_ids dt (labels_array lc R : array Z) k (D : Z -> Prop) v :
  String.eqb dt "boundaries" = false ->
  recode_ids_ok labels_array lc R k D -> ~ D v ->
  recode_ids_ok labels_array lc
    (fst (recode_step dt lc labels_array (R, k) v))
    (snd (recode_step dt lc labels_array (R, k) v))
    (fun x => x = v \/ D x).
Proof.
  intros Hdt (Hs & Hk & Hr & Hd & Hj & He) Hv.
  unfold recode_step. rewrite Hdt.
  set (hit := fun r c => (get 0 lc r c =? v) && (get 0 labels_array r c =? 0)).
  set (R' := mk (nrows R) (ncols R)
               (fun r c => if hit r c then k else get 0 R r c)).
  cbv zeta. change (mk (nrows R) (ncols R) _) with R'.
  assert (Hs' : same_shape R' labels_array)
    by (eapply same_shape_trans; [apply shape_of_mk|exact Hs]).
  assert (Hget : forall r c, in_range labels_array r c ->
            get 0 R' r c = if hit r c then k else get 0 R r c).
  { intros r c Hin. apply (same_shape_in_range R labels_array) in Hin as [? ?];
      [|assumption]. unfold R'. now apply get_mk. }
  assert (Hhit : forall r c, hit r c = true <->
            get 0 lc r c = v /\ get 0 labels_array r c = 0).
  { intros r c. unfold hit. rewrite andb_true_iff, !Z.eqb_eq. reflexivity. }
  assert (Hcells : forall r c, in_range labels_array r c ->
            (0 <= get 0 R' r c <= k) /\
            (0 < get 0 R' r c <->
             get 0 labels_array r c = 0 /\ (get 0 lc r c = v \/ D (get 0 lc r c)))).
  { intros r c Hin. rewrite (Hget r c Hin).
    pose proof (Hr r c Hin) as Hb. pose proof (Hd r c Hin) as Hdd.
    destruct (hit r c) eqn:E.
    - apply Hhit in E as [E1 E2]. split; [lia|]. split; [tauto|lia].
    - split; [lia|]. split.
      + intros H. apply Hdd in H. tauto.
      + intros [H1 [H2|H2]].
        * assert (hit r c = true) by (apply Hhit; auto). congruence.
        * apply Hdd. auto. }
  assert (Hsame : forall r c r' c',
            in_range labels_array r c -> in_range labels_array r' c' ->
            0 < get 0 R' r c -> 0 < get 0 R' r' c' ->
            (get 0 R' r c = get 0 R' r' c' <-> get 0 lc r c = get 0 lc r' c')).
  { intros r c r' c' Hin Hin' H0 H0'.
    rewrite (Hget r c Hin), (Hget r' c' Hin') in *.
    pose proof (Hr r c Hin) as Hb. pose proof (Hr r' c' Hin') as Hb'.
    destruct (hit r c) eqn:E; destruct (hit r' c') eqn:E'.
    - apply Hhit in E as [E _]. apply Hhit in E' as [E' _]. split; congruence.
    - apply Hhit in E as [E _]. apply (Hd r' c' Hin') in H0' as [_ H0'].
      split; [lia|]. intros Hl. exfalso. apply Hv. congruence.
    - apply Hhit in E' as [E' _]. apply (Hd r c Hin) in H0 as [_ H0].
      split; [lia|]. intros Hl. exfalso. apply Hv. congruence.
    - now apply He. }
  assert (Hkeep : forall j, 1 <= j < k ->
            exists r c, in_range labels_array r c /\ get 0 R' r c = j).
  { intros j Hjj. destruct (Hj j Hjj) as (r & c & Hin & Hrc).
    exists r, c. split; [assumption|]. rewrite (Hget r c Hin).
    destruct (hit r c) eqn:E; [|assumption].
    apply Hhit in E as [E _].
    assert (H0 : 0 < get 0 R r c) by lia.
    apply (Hd r c Hin) in H0 as [_ H0]. exfalso. apply Hv. congruence. }
  destruct (Z.gtb_spec (count_eq R' k) 0) as [Hany|Hnone]; cbn [fst snd].
  - assert (Hex : exists r c, in_range labels_array r c /\ get 0 R' r c = k).
    { apply Z.lt_gt, count_eq_pos in Hany as (r & c & Hin & Hrc).
      exists r, c. split; [|assumption].
      now apply (same_shape_in_range R' labels_array). }
    split; [exact Hs'|]. split; [lia|].
    split; [intros r c Hin; pose proof (proj1 (Hcells r c Hin)); lia|].
    split; [intros r c Hin; exact (proj2 (Hcells r c Hin))|].
    split; [|exact Hsame].
    intros j Hjj. destruct (Z.eq_dec j k) as [->|Hne]; [exact Hex|].
    apply Hkeep. lia.
  - assert (Hno : forall r c, in_range labels_array r c -> get 0 R' r c < k).
    { intros r c Hin. destruct (Z.eq_dec (get 0 R' r c) k) as [E|E].
      - exfalso. assert (count_eq R' k > 0); [|lia].
        apply count_eq_pos. exists r, c. split; [|assumption].
        now apply (same_shape_in_range R' labels_array).
      - pose proof (Hcells r c Hin). lia. }
    split; [exact Hs'|]. split; [lia|].
    split; [intros r c Hin; pose proof (proj1 (Hcells r c Hin));
            pose proof (Hno r c Hin); lia|].
    split; [intros r c Hin; exact (proj2 (Hcells r c Hin))|].
    split; [exact Hkeep|exact Hsame].
Qed.

Lemma recode_fold_ids dt (labels_array lc : array Z) (codes : list Z) :
  String.eqb dt "boundaries" = false ->
  List.NoDup codes ->
  forall R k (D : Z -> Prop),
    (forall v, In v codes -> ~ D v) ->
    recode_ids_ok labels_array lc R k D ->
    recode_ids_ok labels_array lc
      (fst (fold_left (recode_step dt lc labels_array) codes (R, k)))
      (snd (fold_left (recode_step dt lc labels_array) codes (R, k)))
      (fun x => D x \/ In x codes).
Proof.
  intros Hdt. induction codes as [|v codes IH]; intros Hnd R k D Hfresh Hok.
  - cbn [fold_left fst snd]. eapply recode_ids_ok_ext; [|exact Hok].
    intros x. cbn. tauto.
  - apply List.NoDup_cons_iff in Hnd as [Hv Hnd]. cbn [fold_left].
    rewrite (surjective_pairing (recode_step dt lc labels_array (R, k) v)).
    eapply recode_ids_ok_ext;
      [|apply (IH Hnd _ _ (fun x => x = v \/ D x))].
    + intros x. cbn [In]. split; [intros [[->|H]|H]|intros [H|[->|H]]]; auto.
    + intros w Hw [->|Hd]; [contradiction|]. apply (Hfresh w); [now right|assumption].
    + apply recode_step_ids; [assumption..|]. apply Hfresh. now left.
Qed.

Lemma recode_counter_bound dt (lc labels_array : array Z) (codes : list Z) :
  forall R k,
    snd (fold_left (recode_step dt lc labels_array) codes (R, k))
    <= k + Z.of_nat (length codes).
Proof.
  induction codes as [|v codes IH]; intros R k; cbn [fold_left length].
  - cbn. lia.
  - rewrite (surjective_pairing (recode_step dt lc labels_array (R, k) v)).
    specialize (IH (fst (recode_step dt lc labels_array (R, k) v))
                   (snd (recode_step dt lc labels_array (R, k) v))).
    assert (Hstep : snd (recode_step dt lc labels_array (R, k) v) <= k + 1).
    { unfold recode_step. destruct (String.eqb dt "boundaries");
        [cbn; lia|]. destruct (_ >? 0); cbn; lia. }
    lia.
Qed.

(** [recode_crop_labels] in multi-class mode, for crop codes without
    repetition: there is a bound [k] such that the identifiers on the cells
    are exactly 1 .. k-1, none missing; a cell has an identifier exactly
    when its label is 0 and its (padded) land cover is a crop code; and two
    such cells have the same identifier exactly when they have the same
    crop code. *)
Theorem recode_multiclass_ids (crop_codes : list Z)
    (labels_array lc_array out edges : array Z) (data_type : string) :
  String.eqb data_type "boundaries" = false ->
  List.NoDup crop_codes ->
  recode_crop_labels crop_codes labels_array lc_array true data_type
    = Some (out, edges) ->
  exists k, 1 <= k <= Z.of_nat (length crop_codes) + 1 /\
    (forall r c, in_range labels_array r c ->
       0 <= get 0 out r c < k /\
       (0 < get 0 out r c <->
        get 0 labels_array r c = 0 /\
        In (lc_padded labels_array lc_array r c) crop_codes)) /\
    (forall j, 1 <= j < k ->
       exists r c, in_range labels_array r c /\ get 0 out r c = j) /\
    (forall r c r' c',
       in_range labels_array r c -> in_range labels_array r' c' ->
       0 < get 0 out r c -> 0 < get 0 out r' c' ->
       (get 0 out r c = get 0 out r' c' <->
        lc_padded labels_array lc_array r c
        = lc_padded labels_array lc_array r' c')).
Proof.
  intros Hdt Hnd H. unfold recode_crop_labels in H.
  destruct ((nrows lc_array <=? nrows labels_array)%nat
            && (ncols lc_array <=? ncols labels_array)%nat); [|discriminate].
  injection H as Hout _.
  set (lc := mk (nrows labels_array) (ncols labels_array)
               (fun r c => lc_padded labels_array lc_array r c)).
  assert (Hlc : forall r c, in_range labels_array r c ->
            get 0 lc r c = lc_padded labels_array lc_array r c).
  { intros r c [Hr Hc]. unfold lc. now apply get_mk. }
  assert (H0 : recode_ids_ok labels_array lc (zeros_like (B:=Z) 0 labels_array) 1
                 (fun _ => False)).
  { assert (Hz : forall r c, in_range labels_array r c ->
              get 0 (zeros_like (B:=Z) 0 labels_array) r c = 0)
      by (intros r c [Hr Hc]; unfold zeros_like; now apply get_mk).
    split; [apply shape_of_mk|]. split; [lia|].
    split; [intros r c Hin; rewrite Hz by assumption; lia|].
    split; [intros r c Hin; rewrite Hz by assumption; split;
            [lia|intros [_ []]]|].
    split; [intros j Hj; lia|].
    intros r c r' c' Hin Hin' Hp. rewrite Hz in Hp by assumption. lia. }
  pose proof (recode_fold_ids data_type labels_array lc crop_codes Hdt Hnd
                _ _ _ (fun v _ F => F) H0) as Hok.
  change (fst (fold_left (recode_step data_type lc labels_array) crop_codes
                 (zeros_like 0 labels_array, 1)) = out) in Hout.
  rewrite Hout in Hok.
  destruct Hok as (Hs & Hk & Hr & Hd & Hj & He).
  exists (snd (fold_left (recode_step data_type lc labels_array) crop_codes
                 (zeros_like 0 labels_array, 1))).
  split; [split; [exact Hk|]|].
  - pose proof (recode_counter_bound data_type lc labels_array crop_codes
                  (zeros_like 0 labels_array) 1) as Hb. lia.
  - split; [|split].
    + intros r c Hin. split; [now apply Hr|].
      rewrite <- (Hlc r c Hin). rewrite (Hd r c Hin). tauto.
    + exact Hj.
    + intros r c r' c' Hin Hin' Hp Hp'.
      rewrite <- (Hlc r c Hin), <- (Hlc r' c' Hin'). now apply He.
Qed.

Lemma recode_multiclass_ids_witness :
  exists k, 1 <= k <= Z.of_nat (length [1; 5; 24]) + 1 /\
    (forall r c, in_range [[0; 0]; [0; 2]] r c ->
       0 <= get 0 [[1; 0]; [2; 0]] r c < k /\
       (0 < get 0 [[1; 0]; [2; 0]] r c <->
        get 0 [[0; 0]; [0; 2]] r c = 0 /\
        In (lc_padded [[0; 0]; [0; 2]] [[1; 7]; [24; 24]] r c) [1; 5; 24])) /\
    (forall j, 1 <= j < k ->
       exists r c, in_range [[0; 0]; [0; 2]] r c /\ get 0 [[1; 0]; [2; 0]] r c = j) /\
    (forall r c r' c',
       in_range [[0; 0]; [0; 2]] r c -> in_range [[0; 0]; [0; 2]] r' c' ->
       0 < get 0 [[1; 0]; [2; 0]] r c -> 0 < get 0 [[1; 0]; [2; 0]] r' c' ->
       (get 0 [[1; 0]; [2; 0]] r c = get 0 [[1; 0]; [2; 0]] r' c' <->
        lc_padded [[0; 0]; [0; 2]] [[1; 7]; [24; 24]] r c
        = lc_padded [[0; 0]; [0; 2]] [[1; 7]; [24; 24]] r' c')).
Proof.
  apply (recode_multiclass_ids [1; 5; 24] [[0; 0]; [0; 2]] [[1; 7]; [24; 24]]
           [[1; 0]; [2; 0]] [[0; 0]; [0; 2]] "crops").
  - reflexivity.
  - repeat constructor; cbn; intuition lia.
  - vm_compute. reflexivity.
Defined.

(** ** [make_crops_uniform] and [check_slivers] *)

Lemma make_crops_uniform_get (nd_label : array Z -> array Z)
    (labels_array edges : array Z) (data_type : string) (r c : nat) :
  let segments := nd_label (amap 0 (fun v => b2z (v =? 0)) edges) in
  same_shape segments labels_array -> in_range labels_array r c ->
  get 0 (fst (make_crops_uniform nd_label labels_array edges data_type)) r c =
  uniform_value data_type segments labels_array (get 0 segments r c).
Proof.
  intros segments Hsh Hin.
  unfold make_crops_uniform. cbn [fst]. fold segments.
  unfold nd_sum. rewrite combine_map_self.
  change (fun lab0 => (lab0, fold_right Z.add 0 _))
    with (fun lab0 => (lab0, crop_total segments labels_array lab0)).
  rewrite (fold_uniform data_type segments labels_array (np_unique segments) Hsh
             (NoDup_np_unique segments) labels_array);
    [|split; reflexivity|reflexivity|assumption].
  destruct (in_dec Z.eq_dec (get 0 segments r c) (np_unique segments)) as [_|Hn].
  - reflexivity.
  - exfalso. apply Hn. apply in_np_unique.
    now apply (same_shape_in_range segments labels_array).
Qed.

(** After [make_crops_uniform] every segment carries one label: two cells
    with the same segment label hold the same value.  In ['boundaries']
    mode that value is background or the crop class. *)
Theorem make_crops_uniform_one_label (nd_label : array Z -> array Z)
    (labels_array edges : array Z) (data_type : string) (r c r' c' : nat) :
  let segments := nd_label (amap 0 (fun v => b2z (v =? 0)) edges) in
  let out := fst (make_crops_uniform nd_label labels_array edges data_type) in
  same_shape segments labels_array ->
  in_range labels_array r c -> in_range labels_array r' c' ->
  (get 0 segments r c = get 0 segments r' c' -> get 0 out r c = get 0 out r' c') /\
  (data_type = "boundaries"%string ->
   get 0 out r c = 0 \/ get 0 out r c = CROP_CLASS).
Proof.
  intros segments out Hsh Hin Hin'. unfold out.
  pose proof (make_crops_uniform_get nd_label labels_array edges data_type r c)
    as H1.
  pose proof (make_crops_uniform_get nd_label labels_array edges data_type r' c')
    as H2.
  cbv zeta in H1, H2. fold segments in H1, H2.
  rewrite (H1 Hsh Hin), (H2 Hsh Hin'). split.
  - now intros ->.
  - intros ->. unfold uniform_value.
    change (String.eqb "boundaries" "boundaries") with true. cbv iota.
    destruct (_ =? 0); [now left|]. destruct (_ <? _); [now right|now left].
Qed.

Lemma make_crops_uniform_one_label_witness :
  get 0 (fst (make_crops_uniform cc_label [[1; 1; 0]; [0; 0; 0]]
                [[0; 0; 1]; [1; 1; 1]] "boundaries")) 0 0
  = get 0 (fst (make_crops_uniform cc_label [[1; 1; 0]; [0; 0; 0]]
                  [[0; 0; 1]; [1; 1; 1]] "boundaries")) 0 1.
Proof.
  apply (make_crops_uniform_one_label cc_label [[1; 1; 0]; [0; 0; 0]]
           [[0; 0; 1]; [1; 1; 1]] "boundaries" 0 0 0 1).
  - split; vm_compute; reflexivity.
  - split; cbn; lia.
  - split; cbn; lia.
  - vm_compute. reflexivity.
Defined.

(** [check_slivers], cell by cell: the edge class where [edges] holds 1;
    elsewhere background when the cell belongs to a segment (a positive
    label) whose bounding box is at most one cell high or one cell wide;
    and the label as it came in otherwise.  The second result is the list
    of regions of the segments. *)
Theorem check_slivers_cells (labels_array edges segments : array Z) (r c : nat) :
  same_shape segments labels_array -> in_range labels_array r c ->
  get 0 (fst (check_slivers labels_array edges segments)) r c =
    (if get 0 edges r c =? 1 then EDGE_CLASS
     else if (0 <? get 0 segments r c)
             && thin (region_of segments (get 0 segments r c))
     then 0 else get 0 labels_array r c) /\
  snd (check_slivers labels_array edges segments) = regionprops segments.
Proof.
  intros Hsh Hin. split; [now apply check_slivers_rule|reflexivity].
Qed.

Lemma check_slivers_cells_witness :
  get 0 (fst (check_slivers [[1; 1; 1]; [0; 0; 0]; [5; 5; 5]]
                [[0; 0; 0]; [1; 1; 1]; [0; 0; 0]]
                [[1; 1; 1]; [0; 0; 0]; [2; 2; 2]])) 0 1 = 0.
Proof.
  destruct (check_slivers_cells [[1; 1; 1]; [0; 0; 0]; [5; 5; 5]]
              [[0; 0; 0]; [1; 1; 1]; [0; 0; 0]]
              [[1; 1; 1]; [0; 0; 0]; [2; 2; 2]] 0 1) as [H _].
  - split; reflexivity.
  - split; cbn; lia.
  - rewrite H. vm_compute. reflexivity.
Defined.

(** ** The labels of [remove_noncrop] *)

Lemma same_shape_sym {A B} (a : array A) (b : array B) :
  same_shape a b -> same_shape b a.
Proof. intros [? ?]. split; congruence. Qed.

Lemma add_inner_get (dm x : array fval) R C :
  same_shape x dm ->
  (1 <= R)%nat -> (R < nrows dm - 1)%nat ->
  (1 <= C)%nat -> (C < ncols dm - 1)%nat ->
  get f0 (add_inner dm x) R C = fadd (get f0 dm R C) (get f0 x R C).
Proof.
  intros [Sr Sc] HR1 HR2 HC1 HC2. unfold add_inner, set_slice.
  rewrite get_mk by lia.
  destruct (Nat.leb_spec 1 R); [|lia]. destruct (Nat.ltb_spec R (nrows dm - 1)); [|lia].
  destruct (Nat.leb_spec 1 C); [|lia]. destruct (Nat.ltb_spec C (ncols dm - 1)); [|lia].
  cbn [andb].
  rewrite get_zip2 by (unfold inner; apply shape_mk; lia).
  unfold inner. rewrite !get_mk by lia.
  f_equal; f_equal; lia.
Qed.

Lemma same_shape_add_inner (dm x : array fval) : same_shape (add_inner dm x) dm.
Proof. unfold add_inner. apply same_shape_set_slice. Qed.

Lemma get_roll_full (bpad : array fval) s0 s1 R C :
  in_range bpad R C ->
  get f0 (np_roll f0 s0 s1 bpad) R C =
  get f0 bpad (Z.to_nat ((Z.of_nat R - s0) mod Z.of_nat (nrows bpad)))
              (Z.to_nat ((Z.of_nat C - s1) mod Z.of_nat (ncols bpad))).
Proof. intros [Hr Hc]. unfold np_roll. now rewrite get_mk. Qed.

Lemma remove_noncrop_labels_get (xs : list (array fval)) (b : array fval)
    (labels_array : array Z) (r c : nat) :
  same_shape b labels_array -> in_range labels_array r c ->
  exists xvars labels',
    remove_noncrop (xs ++ [b]) labels_array = Some (xvars, labels') /\
    get 0 labels' r c =
    get 0 labels_array r c
    * b2z (fgt0 (four_mean (masked_band b labels_array) r c)).
Proof.
  intros Hsh Hin. pose proof Hin as [Hr Hc]. unfold remove_noncrop.
  destruct (xs ++ [b]) eqn:E; [destruct xs; discriminate|].
  rewrite <- E. rewrite last_last. cbv zeta.
  rewrite (same_shape_broadcasts labels_array b Hsh). cbn [negb].
  pose proof Hsh as [Br Bc].
  destruct (Nat.eqb_spec (nrows b) 0); [lia|].
  destruct (Nat.eqb_spec (ncols b) 0); [lia|]. cbn [orb].
  assert (HinB : in_range b r c) by (split; lia).
  replace (zip2 f0 f0 fmul b
             (broadcast_to f0 (nrows b) (ncols b)
                (amap 0 (fun v => of_Z (b2z (v >? 0))) labels_array)))
    with (masked_band b labels_array).
  2:{ unfold masked_band, zip2. apply mk_ext. intros r' c' Hr' Hc'. f_equal.
      symmetry. apply (get_broadcast_same f0 _ b); [|split; assumption].
      eapply same_shape_trans; [exact Hsh|]. apply same_shape_sym.
      apply shape_of_mk. }
  set (M := masked_band b labels_array).
  assert (HM : same_shape M labels_array)
    by (eapply same_shape_trans; [apply shape_of_mk|exact Hsh]).
  destruct HM as [Mr Mc].
  do 2 eexists. split; [reflexivity|].
  rewrite get_zip2 by (unfold broadcast_to; apply shape_mk; split; lia).
  rewrite (get_broadcast_same 0 labels_array b r c Hsh HinB).
  f_equal. f_equal. f_equal.
  set (bpad := pad_edge f0 5 M).
  assert (Pr : nrows bpad = (nrows labels_array + 10)%nat)
    by (unfold bpad, pad_edge; rewrite nrows_mk; lia).
  assert (Pc : ncols bpad = (ncols labels_array + 10)%nat)
    by (unfold bpad, pad_edge; rewrite ncols_mk by lia; lia).
  assert (Hpad : forall R C, (R < nrows labels_array + 10)%nat ->
            (C < ncols labels_array + 10)%nat ->
            get f0 bpad R C =
            get f0 M (Nat.min (R - 5) (nrows M - 1)) (Nat.min (C - 5) (ncols M - 1))).
  { intros R C HR HC. unfold bpad, pad_edge. rewrite get_mk by lia. reflexivity. }
  assert (Hroll : forall s0 s1, -1 <= s0 <= 1 -> -1 <= s1 <= 1 ->
            same_shape (np_roll f0 s0 s1 bpad) bpad /\
            get f0 (np_roll f0 s0 s1 bpad) (r + 5) (c + 5) =
            get f0 M (clampi (nrows M) (Z.of_nat r - s0))
                     (clampi (ncols M) (Z.of_nat c - s1))).
  { intros s0 s1 H0 H1. split; [apply shape_of_mk|].
    rewrite get_roll_full by (split; lia). rewrite Pr, Pc.
    rewrite !Z.mod_small by lia. rewrite Hpad by lia.
    unfold clampi. f_equal; lia. }
  set (z := zeros_like f0 bpad).
  assert (Hz : same_shape z bpad) by apply shape_of_mk.
  assert (Hz0 : get f0 z (r + 5) (c + 5) = f0)
    by (unfold z, zeros_like; rewrite get_mk by lia; reflexivity).
  destruct (Hroll 0 1) as [S1 G1]; [lia|lia|].
  destruct (Hroll 0 (-1)) as [S2 G2]; [lia|lia|].
  destruct (Hroll 1 0) as [S3 G3]; [lia|lia|].
  destruct (Hroll (-1) 0) as [S4 G4]; [lia|lia|].
  set (d1 := add_inner z (np_roll f0 0 1 bpad)).
  set (d2 := add_inner d1 (np_roll f0 0 (-1) bpad)).
  set (d3 := add_inner d2 (np_roll f0 1 0 bpad)).
  set (d4 := add_inner d3 (np_roll f0 (-1) 0 bpad)).
  assert (D1 : same_shape d1 bpad)
    by (eapply same_shape_trans; [apply same_shape_add_inner|exact Hz]).
  assert (D2 : same_shape d2 bpad)
    by (eapply same_shape_trans; [apply same_shape_add_inner|exact D1]).
  assert (D3 : same_shape d3 bpad)
    by (eapply same_shape_trans; [apply same_shape_add_inner|exact D2]).
  assert (D4 : same_shape d4 bpad)
    by (eapply same_shape_trans; [apply same_shape_add_inner|exact D3]).
  assert (Hshape : forall (d x : array fval), same_shape d bpad -> same_shape x bpad ->
            get f0 (add_inner d x) (r + 5) (c + 5) =
            fadd (get f0 d (r + 5) (c + 5)) (get f0 x (r + 5) (c + 5))).
  { intros d x [Dr Dc] Sx. apply add_inner_get; try lia.
    eapply same_shape_trans; [exact Sx|]. apply same_shape_sym. split; assumption. }
  unfold inner.
  destruct D4 as [D4r D4c].
  assert (Ha : same_shape (amap f0 (fun v => fdiv v (of_Z 4)) d4) d4)
    by apply shape_of_mk.
  destruct Ha as [Har Hac].
  rewrite get_mk by lia.
  rewrite get_amap by (split; lia).
  unfold d4. rewrite Hshape by assumption.
  unfold d3. rewrite Hshape by assumption.
  unfold d2. rewrite Hshape by assumption.
  unfold d1. rewrite Hshape by assumption.
  rewrite Hz0, G1, G2, G3, G4.
  unfold four_mean. repeat f_equal; lia.
Qed.

Lemma Qltb_ge x y : (y <= x)%Q -> Qltb x y = false.
Proof.
  intros H. destruct (Qltb x y) eqn:E; [|reflexivity].
  apply Qltb_true in E. lra.
Qed.

Lemma masked_cell_sign (x : fval) (l : Z) :
  bounded_cell x = true ->
  exists v, fmul x (of_Z (b2z (l >? 0))) = FNum v /\ (0 <= v)%Q /\
            Qltb 0 v = (l >? 0) && fgt0 x.
Proof.
  destruct x as [q| | |]; cbn [bounded_cell]; try discriminate.
  intros Hb.
  assert (Hq : (0 <= q)%Q).
  { apply orb_true_iff in Hb as [Hb|Hb].
    - apply Qeq_bool_iff in Hb. lra.
    - apply andb_true_iff in Hb as [Hb _]. apply Qle_bool_iff in Hb.
      assert ((0 <= 1 # 1048576)%Q) by (unfold Qle; cbn; lia). lra. }
  unfold of_Z, fmul. eexists. split; [reflexivity|].
  destruct (l >? 0); cbn [b2z andb fgt0].
  - change (inject_Z 1) with 1%Q. split; [lra|].
    destruct (Qltb 0 q) eqn:E.
    + apply Qltb_true in E. apply Qltb_lt. lra.
    + apply Qltb_false in E. apply Qltb_ge. lra.
  - change (inject_Z 0) with 0%Q. split; [lra|]. apply Qltb_ge. lra.
Qed.

Lemma four_mean_sign (v1 v2 v3 v4 : Q) :
  (0 <= v1)%Q -> (0 <= v2)%Q -> (0 <= v3)%Q -> (0 <= v4)%Q ->
  fgt0 (fdiv (fadd (fadd (fadd (fadd f0 (FNum v1)) (FNum v2)) (FNum v3)) (FNum v4))
             (of_Z 4))
  = Qltb 0 v1 || (Qltb 0 v2 || (Qltb 0 v3 || (Qltb 0 v4 || false))).
Proof.
  intros H1 H2 H3 H4. unfold f0, of_Z. cbn [fadd fdiv].
  change (Qeq_bool (inject_Z 4) 0) with false. cbv iota. cbn [fgt0].
  change (inject_Z 4) with 4%Q. unfold Qdiv. change (/ 4)%Q with (1 # 4)%Q.
  destruct (Qltb 0 v1) eqn:E1; cbn [orb];
    [apply Qltb_true in E1; apply Qltb_lt; lra|apply Qltb_false in E1].
  destruct (Qltb 0 v2) eqn:E2; cbn [orb];
    [apply Qltb_true in E2; apply Qltb_lt; lra|apply Qltb_false in E2].
  destruct (Qltb 0 v3) eqn:E3; cbn [orb];
    [apply Qltb_true in E3; apply Qltb_lt; lra|apply Qltb_false in E3].
  destruct (Qltb 0 v4) eqn:E4; cbn [orb];
    [apply Qltb_true in E4; apply Qltb_lt; lra|apply Qltb_false in E4].
  apply Qltb_ge. lra.
Qed.

Lemma four_mean_crop_near (b : array fval) (labels_array : array Z) (r c : nat) :
  same_shape b labels_array -> in_range labels_array r c ->
  (forall r' c', in_range b r' c' -> bounded_cell (get f0 b r' c') = true) ->
  fgt0 (four_mean (masked_band b labels_array) r c)
  = crop_near b labels_array r c.
Proof.
  intros Hsh [Hr Hc] Hbound. pose proof Hsh as [Br Bc].
  assert (HM : same_shape (masked_band b labels_array) b) by apply shape_of_mk.
  destruct HM as [Mr Mc].
  assert (Hcell : forall dr dc,
            let r' := clampi (nrows b) (Z.of_nat r + dr) in
            let c' := clampi (ncols b) (Z.of_nat c + dc) in
            exists v, get f0 (masked_band b labels_array) r' c' = FNum v /\
                      (0 <= v)%Q /\
                      Qltb 0 v = (get 0 labels_array r' c' >? 0)
                                 && fgt0 (get f0 b r' c')).
  { intros dr dc r' c'.
    assert (Hin' : in_range b r' c')
      by (split; apply clampi_lt; lia).
    unfold masked_band. rewrite get_zip2 by assumption.
    rewrite get_amap by (destruct Hin'; split; lia).
    apply masked_cell_sign. now apply Hbound. }
  unfold four_mean, crop_near, offsets4. rewrite Mr, Mc.
  cbn [existsb fst snd]. cbv zeta.
  destruct (Hcell 0 (-1)) as (v1 & -> & P1 & <-).
  destruct (Hcell 0 1) as (v2 & -> & P2 & <-).
  destruct (Hcell (-1) 0) as (v3 & -> & P3 & <-).
  destruct (Hcell 1 0) as (v4 & -> & P4 & <-).
  now apply four_mean_sign.
Qed.

(** The labels that [remove_noncrop] returns, for a last band of the shape
    of the labels whose cells are zero or numbers between [2^-20] and
    [2^13]: a label is kept exactly where one of the four edge-padded
    direct neighbours of the cell (left, right, up, down; the cell itself is
    not among them) carries a label and a distance above zero, and is set
    to background elsewhere.  No label is raised. *)
Theorem remove_noncrop_labels (xs : list (array fval)) (b : array fval)
    (labels_array : array Z) (r c : nat) :
  same_shape b labels_array -> in_range labels_array r c ->
  (forall r' c', in_range b r' c' -> bounded_cell (get f0 b r' c') = true) ->
  exists xvars labels',
    remove_noncrop (xs ++ [b]) labels_array = Some (xvars, labels') /\
    get 0 labels' r c =
      get 0 labels_array r c * b2z (crop_near b labels_array r c) /\
    (get 0 labels' r c = get 0 labels_array r c \/ get 0 labels' r c = 0).
Proof.
  intros Hsh Hin Hbound.
  destruct (remove_noncrop_labels_get xs b labels_array r c Hsh Hin)
    as (xvars & labels' & H & Hg).
  rewrite (four_mean_crop_near b labels_array r c Hsh Hin Hbound) in Hg.
  exists xvars, labels'. split; [exact H|]. split; [exact Hg|].
  rewrite Hg. destruct (crop_near _ _ _ _); cbn [b2z]; [left|right]; lia.
Qed.

Lemma remove_noncrop_labels_witness :
  exists xvars labels',
    remove_noncrop ([] ++ [[[FNum 1; FNum 0]; [FNum 3; FNum 4]]])
                   [[1; 1]; [0; 0]]
      = Some (xvars, labels') /\
    get 0 labels' 0 1 =
      get 0 [[1; 1]; [0; 0]] 0 1
      * b2z (crop_near [[FNum 1; FNum 0]; [FNum 3; FNum 4]]
                       [[1; 1]; [0; 0]] 0 1) /\
    (get 0 labels' 0 1 = get 0 [[1; 1]; [0; 0]] 0 1 \/ get 0 labels' 0 1 = 0).
Proof.
  apply (remove_noncrop_labels [] [[FNum 1; FNum 0]; [FNum 3; FNum 4]]
           [[1; 1]; [0; 0]] 0 1); [split; reflexivity | split; cbn; lia |].
  intros r' c' [Hr' Hc']. cbn in Hr', Hc'.
  destruct r' as [|[|r']]; [| |lia];
    (destruct c' as [|[|c']]; [reflexivity|reflexivity|lia]).
Defined.

(** ** File names and the store *)

Lemma string_length_append (a b : string) :
  String.length (a ++ b) = (String.length a + String.length b)%nat.
Proof.
  induction a as [|x a IH]; [reflexivity|].
  change (S (String.length (a ++ b)) = S (String.length a + String.length b)).
  now rewrite IH.
Qed.

Lemma string_append_inj_l (s a b : string) :
  (s ++ a = s ++ b)%string -> a = b.
Proof.
  induction s as [|x s IH]; intros H; [exact H|].
  change (String x (s ++ a) = String x (s ++ b))%string in H.
  injection H as H. auto.
Qed.

Lemma string_append_inj_r (s a b : string) :
  (a ++ s = b ++ s)%string -> a = b.
Proof.
  revert b. induction a as [|x a IH]; intros [|y b] H.
  - reflexivity.
  - exfalso. apply (f_equal String.length) in H.
    rewrite !string_length_append in H. cbn [String.length] in H. lia.
  - exfalso. apply (f_equal String.length) in H.
    rewrite !string_length_append in H. cbn [String.length] in H. lia.
  - change (String x (a ++ s) = String y (b ++ s))%string in H.
    injection H as -> H. f_equal. now apply IH.
Qed.

Lemma data_file_inj (t1 t2 : string) : data_file t1 = data_file t2 -> t1 = t2.
Proof.
  unfold data_file. intros H.
  apply string_append_inj_l in H. now apply string_append_inj_r in H.
Qed.

Lemma stored_true {P} (dir : directory P) tid :
  stored dir tid = true <->
  exists d, dir !! data_file tid = Some d /\ train_id d = tid.
Proof.
  unfold stored. destruct (dir !! data_file tid) as [d|].
  - rewrite String.eqb_eq. split; [intros H; exists d; auto|].
    intros (d' & E & H). congruence.
  - split; [discriminate|]. intros (d & E & _). discriminate.
Qed.

(** Distinct identities have distinct files, and in a store where every
    record lies in the file named after its identity, the comparison of
    [train_id] in [is_grid_processed] adds nothing to the test that the
    file exists. *)
Theorem stored_iff_file {P} (dir : directory P) (tid tid' : string) :
  (data_file tid = data_file tid' -> tid = tid') /\
  (well_keyed dir ->
   (stored dir tid = true <-> is_Some (dir !! data_file tid))).
Proof.
  split; [apply data_file_inj|]. intros Hk. rewrite stored_true. split.
  - intros (d & E & _). now exists d.
  - intros [d E]. exists d. split; [assumption|].
    apply Hk in E. apply data_file_inj in E. now symmetry.
Qed.

Lemma stored_iff_file_witness :
  let dir : directory unit :=
    <[data_file "g_1_none" := {| train_id := "g_1_none"; payload := tt |}]> ∅ in
  stored dir "g_1_none" = true <-> is_Some (dir !! data_file "g_1_none").
Proof.
  cbv zeta.
  apply (stored_iff_file
           (<[data_file "g_1_none" := {| train_id := "g_1_none"; payload := tt |}]> ∅
            : directory unit) "g_1_none" "g_1_none").
  intros k d H. apply lookup_insert_Some in H as [[<- <-]|[_ H]]; [reflexivity|].
  rewrite lookup_empty in H. discriminate H.
Defined.

Lemma is_grid_processed_mono {P} (d1 d2 : directory P) transforms group_id grid0 n_ts :
  stored_le d1 d2 ->
  is_grid_processed d1 transforms group_id grid0 n_ts = true ->
  is_grid_processed d2 transforms group_id grid0 n_ts = true.
Proof.
  intros Hle. rewrite !is_grid_processed_existsb, !existsb_exists.
  intros (aug & Hin & H). exists aug. split; [assumption|].
  apply existsb_exists in H as (tid & Htid & Hs). apply existsb_exists.
  exists tid. split; [assumption|now apply Hle].
Qed.

(** ** The grid loop and the store *)

Section StoreFacts.

Context {Geom Frame ImageVars Sample Payload : Type}.
Context `{W : Collaborators Geom Frame ImageVars Sample Payload}.

Variable df_grids : list (GridRow Geom).
Variable group_id : string.
Variable transforms : list string.
Variable n_ts : nat.

#[local] Abbreviation rstate := (State Frame Payload).
#[local] Abbreviation fan := (fan_out group_id transforms n_ts).
#[local] Abbreviation gen := (generate df_grids group_id transforms n_ts).
#[local] Abbreviation aclip := (after_clip df_grids group_id transforms n_ts).
#[local] Abbreviation prow := (process_row df_grids group_id transforms n_ts).
#[local] Abbreviation run := (run_rows df_grids group_id transforms n_ts).

Lemma save_and_update_stored (dir : directory Payload) (d : Data Payload) :
  stored (save_and_update dir d) (train_id d) = true /\
  stored_le dir (save_and_update dir d) /\
  (forall k, is_Some (dir !! k) -> is_Some (save_and_update dir d !! k)) /\
  (well_keyed dir -> well_keyed (save_and_update dir d)).
Proof.
  unfold save_and_update. repeat split.
  - apply stored_true. exists d. split; [apply lookup_insert_eq|reflexivity].
  - intros tid Hs. apply stored_true in Hs as (d0 & E & Ht). apply stored_true.
    destruct (decide (data_file (train_id d) = data_file tid)) as [Heq|Hne].
    + exists d. split; [rewrite Heq; apply lookup_insert_eq|].
      now apply data_file_inj.
    + exists d0. split; [now rewrite lookup_insert_ne|assumption].
  - intros k [d0 E].
    destruct (decide (data_file (train_id d) = k)) as [<-|Hne].
    + exists d. apply lookup_insert_eq.
    + exists d0. now rewrite lookup_insert_ne.
  - intros Hk k d0 E. apply lookup_insert_Some in E as [[<- <-]|[_ E]];
      [reflexivity|now apply Hk].
Qed.

Lemma stored_le_refl (d : directory Payload) : stored_le d d.
Proof. intros tid H. exact H. Qed.

Lemma stored_le_trans (d1 d2 d3 : directory Payload) :
  stored_le d1 d2 -> stored_le d2 d3 -> stored_le d1 d3.
Proof. intros H1 H2 tid H. apply H2, H1, H. Qed.

Lemma grows_refl (d : directory Payload) : grows d d.
Proof. repeat split; auto. apply stored_le_refl. Qed.

Lemma grows_trans (d1 d2 d3 : directory Payload) :
  grows d1 d2 -> grows d2 d3 -> grows d1 d3.
Proof.
  intros (A1 & B1 & C1) (A2 & B2 & C2). repeat split; auto.
  eapply stored_le_trans; eassumption.
Qed.

Lemma save_all_grows ldata todo :
  forall dir, grows dir (state_of (save_all ldata todo dir)).
Proof.
  induction todo as [|[aug tid] todo IH]; intros dir; cbn [save_all].
  - apply grows_refl.
  - destruct (augment ldata aug tid) as [d|]; [|apply grows_refl].
    eapply grows_trans; [|apply IH].
    pose proof (save_and_update_stored dir d) as (_ & A & B & C).
    repeat split; assumption.
Qed.

Lemma save_all_stored ldata todo :
  carries_identity (W := W) ->
  forall dir dir', save_all ldata todo dir = Completed dir' ->
    forall aug tid, In (aug, tid) todo -> stored dir' tid = true.
Proof.
  intros Hid. induction todo as [|[aug0 tid0] todo IH]; intros dir dir' H aug tid Hin.
  - destruct Hin.
  - cbn [save_all] in H. destruct (augment ldata aug0 tid0) as [d|] eqn:E;
      [|discriminate].
    destruct Hin as [Heq|Hin].
    + injection Heq as <- <-.
      pose proof (save_all_grows ldata todo (save_and_update dir d)) as (Hle & _).
      rewrite H in Hle. cbn [state_of] in Hle. apply Hle.
      pose proof (Hid _ _ _ _ E) as Ht.
      pose proof (proj1 (save_and_update_stored dir d)) as Hs.
      now rewrite Ht in Hs.
    + eapply IH; eassumption.
Qed.

Lemma generate_grows (row : GridRow Geom) (st : rstate) ge idx :
  grows (store st) (store (state_of (gen row st ge idx))).
Proof.
  unfold generate.
  destruct (image_vars _ _ _) as [iv|]; [|apply grows_refl].
  destruct (too_small iv); [apply grows_refl|].
  destruct (is_grid_processed _ _ _ _ _); [apply grows_refl|].
  destruct (label_sample iv idx) as [ldata|]; [|apply grows_refl].
  pose proof (save_all_grows ldata (fan (grid row)) (store st)) as H.
  destruct (save_all _ _ _); exact H.
Qed.

Lemma after_clip_grows (row : GridRow Geom) (st : rstate) ge :
  grows (store st) (store (state_of (aclip row st ge))).
Proof.
  unfold after_clip.
  destruct (frame_empty (drop_empty _)); [apply grows_refl|].
  destruct (1 <? length _)%nat; [|apply generate_grows].
  destruct (existsb _ _); [apply grows_refl|].
  destruct (gpd_clip _ _) as [ge2|]; [|apply grows_refl].
  apply (generate_grows row (with_merged st _) ge2).
Qed.

Lemma process_row_grows (row : GridRow Geom) (st : rstate) :
  grows (store st) (store (state_of (prow row st))).
Proof.
  unfold process_row.
  destruct (gpd_clip (df_edges st) _) as [ge|]; [apply after_clip_grows|].
  cbn [df_edges with_edges].
  destruct (gpd_clip _ _) as [ge|]; [|apply grows_refl].
  apply (after_clip_grows row (with_edges st _) ge).
Qed.

Lemma run_rows_grows (rows : list (GridRow Geom)) :
  forall st : rstate, grows (store st) (store (state_of (run rows st))).
Proof.
  induction rows as [|row rows IH]; intros st; cbn [run_rows].
  - apply grows_refl.
  - pose proof (process_row_grows row st) as H.
    destruct (prow row st) as [s'|s']; cbn [and_then state_of] in *; [|exact H].
    eapply grows_trans; [exact H|apply IH].
Qed.

(** A run never takes a record away, whether it ends normally or on an
    exception: every file of the store is still there afterwards, and
    every identity that was stored is still stored. *)
Theorem run_keeps_records (rows : list (GridRow Geom)) (st : rstate) :
  (forall k, is_Some (store st !! k) ->
             is_Some (store (state_of (run rows st)) !! k)) /\
  (forall tid, stored (store st) tid = true ->
               stored (store (state_of (run rows st))) tid = true).
Proof.
  destruct (run_rows_grows rows st) as (A & B & _). split; assumption.
Qed.

(** A run keeps the store well keyed: if every record lies in the file
    named after its own [train_id] before the run, so it does after. *)
Theorem run_keeps_well_keyed (rows : list (GridRow Geom)) (st : rstate) :
  well_keyed (store st) -> well_keyed (store (state_of (run rows st))).
Proof. apply run_rows_grows. Qed.

(** When a cell is generated to the end, with an augmentation that returns
    records carrying the identity it is given: either nothing is written
    (the cell is too small or counts as processed), or afterwards every
    identity of the requested transforms is stored. *)
Theorem generate_stores_all (row : GridRow Geom) (st st' : rstate) ge idx :
  carries_identity (W := W) ->
  gen row st ge idx = Completed st' ->
  st' = st \/
  forall aug tid, In aug transforms ->
    In tid (train_ids group_id n_ts (grid row) aug) ->
    stored (store st') tid = true.
Proof.
  intros Hid H. unfold generate in H.
  destruct (image_vars _ _ _) as [iv|]; [|discriminate].
  destruct (too_small iv); [injection H as <-; now left|].
  destruct (is_grid_processed _ _ _ _ _); [injection H as <-; now left|].
  destruct (label_sample iv idx) as [ldata|]; [|discriminate].
  destruct (save_all ldata (fan (grid row)) (store st)) as [dir|dir] eqn:E;
    [|discriminate].
  injection H as <-. right. intros aug tid Haug Htid. cbn [store with_store].
  apply (save_all_stored ldata _ Hid _ _ E aug tid).
  unfold fan_out. apply in_flat_map. exists aug. split; [assumption|].
  now apply in_map.
Qed.

Lemma in_fan_out (row_grid aug tid : string) :
  In (aug, tid) (fan row_grid) <->
  In aug transforms /\ In tid (train_ids group_id n_ts row_grid aug).
Proof.
  unfold fan_out. rewrite in_flat_map. split.
  - intros (a & Ha & H). apply in_map_iff in H as (t & E & Ht).
    injection E as <- <-. auto.
  - intros [Ha Ht]. exists aug. split; [assumption|now apply in_map].
Qed.

Lemma generate_rerun (row : GridRow Geom) (st st' : rstate) ge idx D augment' :
  carries_identity (W := W) ->
  gen row st ge idx = Completed st' ->
  stored_le (store st') D ->
  generate (W := with_sampling W label_sample augment')
    df_grids group_id transforms n_ts row (with_store st D) ge idx
  = Completed (with_store st' D).
Proof.
  intros Hid H Hle. unfold generate in *. cbn [store with_store].
  unfold with_sampling.
  cbn [nonzero_any make_unique image_vars too_small label_sample].
  destruct (image_vars _ _ _) as [iv|]; [|discriminate].
  destruct (too_small iv); [injection H as <-; reflexivity|].
  destruct (is_grid_processed (store st) _ _ _ _) eqn:Hp.
  - injection H as <-.
    now rewrite (is_grid_processed_mono (store st) D _ _ _ _ Hle Hp).
  - destruct (label_sample iv idx) as [ldata|]; [|discriminate].
    destruct (save_all ldata (fan (grid row)) (store st)) as [dir|dir] eqn:E;
      [|discriminate].
    injection H as <-. cbn [store with_store] in Hle.
    destruct (is_grid_processed D _ _ _ _) eqn:HpD; [reflexivity|].
    destruct (fan (grid row)) as [|[aug tid] todo] eqn:Ef; [reflexivity|].
    exfalso.
    assert (Hs : stored D tid = true).
    { apply Hle. apply (save_all_stored ldata _ Hid _ _ E aug tid). now left. }
    assert (Hin : In (aug, tid) (fan (grid row))) by (rewrite Ef; now left).
    apply in_fan_out in Hin as [Ha Ht].
    assert (is_grid_processed D transforms group_id (grid row) n_ts = true);
      [|congruence].
    rewrite is_grid_processed_existsb. apply existsb_exists.
    exists aug. split; [assumption|]. apply existsb_exists. exists tid. auto.
Qed.

Lemma after_clip_rerun (row : GridRow Geom) (st st' : rstate) ge D augment' :
  carries_identity (W := W) ->
  aclip row st ge = Completed st' ->
  stored_le (store st') D ->
  after_clip (W := with_sampling W label_sample augment')
    df_grids group_id transforms n_ts row (with_store st D) ge
  = Completed (with_store st' D).
Proof.
  intros Hid H Hle. unfold after_clip in *.
  cbn [merged_grids df_edges with_store].
  change (@frame_empty _ _ _ _ _ (with_sampling W label_sample augment'))
    with (@frame_empty _ _ _ _ _ W).
  change (@drop_empty _ _ _ _ _ (with_sampling W label_sample augment'))
    with (@drop_empty _ _ _ _ _ W).
  change (@grids_frame _ _ _ _ _ (with_sampling W label_sample augment'))
    with (@grids_frame _ _ _ _ _ W).
  change (@sindex_intersection _ _ _ _ _ (with_sampling W label_sample augment'))
    with (@sindex_intersection _ _ _ _ _ W).
  change (@gpd_clip _ _ _ _ _ (with_sampling W label_sample augment'))
    with (@gpd_clip _ _ _ _ _ W).
  destruct (frame_empty (drop_empty _)); [injection H as <-; reflexivity|].
  destruct (1 <? length _)%nat.
  - destruct (existsb _ _); [injection H as <-; reflexivity|].
    destruct (gpd_clip _ _) as [ge2|]; [|discriminate].
    apply (generate_rerun row (with_merged st _) st' ge2 _ D augment' Hid H Hle).
  - now apply generate_rerun.
Qed.

Lemma process_row_rerun (row : GridRow Geom) (st st' : rstate) D augment' :
  carries_identity (W := W) ->
  prow row st = Completed st' ->
  stored_le (store st') D ->
  process_row (W := with_sampling W label_sample augment')
    df_grids group_id transforms n_ts row (with_store st D)
  = Completed (with_store st' D).
Proof.
  intros Hid H Hle. unfold process_row in *. cbn [df_edges with_store with_edges].
  change (@gpd_clip _ _ _ _ _ (with_sampling W label_sample augment'))
    with (@gpd_clip _ _ _ _ _ W).
  change (@buffer0 _ _ _ _ _ (with_sampling W label_sample augment'))
    with (@buffer0 _ _ _ _ _ W).
  destruct (gpd_clip (df_edges st) _) as [ge|]; [now apply after_clip_rerun|].
  cbn [df_edges with_edges] in H.
  destruct (gpd_clip _ _) as [ge|]; [|discriminate].
  apply (after_clip_rerun row (with_edges st _) st' ge D augment' Hid H Hle).
Qed.

Lemma run_rows_rerun (rows : list (GridRow Geom)) augment' :
  carries_identity (W := W) ->
  forall (st st1 : rstate) D,
    run rows st = Completed st1 ->
    stored_le (store st1) D ->
    run_rows (W := with_sampling W label_sample augment')
      df_grids group_id transforms n_ts rows (with_store st D)
    = Completed (with_store st1 D).
Proof.
  intros Hid. induction rows as [|row rows IH]; intros st st1 D H Hle;
    cbn [run_rows] in *.
  - injection H as <-. reflexivity.
  - destruct (prow row st) as [s'|s'] eqn:E; cbn [and_then] in H; [|discriminate].
    assert (Hle' : stored_le (store s') D).
    { eapply stored_le_trans; [|exact Hle].
      pose proof (run_rows_grows rows s') as (A & _). now rewrite H in A. }
    rewrite (process_row_rerun row st s' D augment' Hid E Hle'). cbn [and_then].
    now apply IH.
Qed.

Lemma run_rows_rerun_same (rows : list (GridRow Geom)) (st st1 : rstate) augment' :
  carries_identity (W := W) ->
  run rows st = Completed st1 ->
  run_rows (W := with_sampling W label_sample augment')
    df_grids group_id transforms n_ts rows (with_store st (store st1))
  = Completed st1.
Proof.
  intros Hid H.
  rewrite (run_rows_rerun rows augment' Hid st st1 (store st1) H (stored_le_refl _)).
  now destruct st1.
Qed.

Lemma process_row_state (row : GridRow Geom) (st : rstate) :
  let st' := state_of (prow row st) in
  (df_edges st' = df_edges st \/ df_edges st' = buffer0 (df_edges st)) /\
  (merged_grids st' = merged_grids st \/
   merged_grids st' = merged_grids st ++ [grid row]).
Proof.
  assert (Hac : forall (s : rstate) ge,
            df_edges (state_of (aclip row s ge)) = df_edges s /\
            (merged_grids (state_of (aclip row s ge)) = merged_grids s \/
             merged_grids (state_of (aclip row s ge)) = merged_grids s ++ [grid row])).
  { intros s ge. split; [apply after_clip_keeps_edges|]. unfold after_clip.
    destruct (frame_empty (drop_empty _)); [now left|].
    destruct (1 <? length _)%nat.
    - destruct (existsb _ _); [now left|].
      destruct (gpd_clip _ _) as [ge2|]; [|now left]. right.
      now rewrite (proj2 (generate_keeps df_grids group_id transforms n_ts
                            row (with_merged s _) ge2 _)).
    - left. apply generate_keeps. }
  cbv zeta. unfold process_row.
  destruct (gpd_clip (df_edges st) _) as [ge|].
  - destruct (Hac st ge) as [A B]. split; [now left|exact B].
  - cbn [df_edges with_edges].
    destruct (gpd_clip _ _) as [ge|].
    + destruct (Hac (with_edges st (buffer0 (df_edges st))) ge) as [A B].
      split; [now right|exact B].
    + split; [now right|now left].
Qed.

(** Across a run the frame of boundary polygons changes only by repairs:
    at the end it is the frame of the start under some number of
    zero-width buffers, at most one per cell.  The list of merged grids
    only grows at its end, by identifiers of processed cells. *)
Theorem run_rows_state (rows : list (GridRow Geom)) (st : rstate) :
  exists (k : nat) (added : list string),
    (k <= length rows)%nat /\
    df_edges (state_of (run rows st)) = Nat.iter k buffer0 (df_edges st) /\
    merged_grids (state_of (run rows st)) = merged_grids st ++ added /\
    (forall g, In g added -> In g (map grid rows)).
Proof.
  revert st. induction rows as [|row rows IH]; intros st; cbn [run_rows].
  - exists 0%nat, []. cbn. rewrite app_nil_r.
    split; [lia|]. split; [reflexivity|]. split; [reflexivity|]. intros g [].
  - pose proof (process_row_state row st) as [He Hm]. cbv zeta in He, Hm.
    destruct (prow row st) as [s'|s']; cbn [and_then state_of] in *.
    + destruct (IH s') as (k & added & Hk & Hed & Hmg & Hin).
      assert (Hk' : exists k', (k' <= S (length rows))%nat /\
                df_edges (state_of (run rows s')) = Nat.iter k' buffer0 (df_edges st)).
      { destruct He as [He|He].
        - exists k. split; [lia|]. now rewrite Hed, He.
        - exists (S k). split; [cbn; lia|]. rewrite Hed, He.
          symmetry. apply Nat.iter_succ_r. }
      destruct Hk' as (k' & Hk' & Hed').
      destruct Hm as [Hm|Hm]; rewrite Hmg, Hm.
      * exists k', added.
        split; [assumption|]. split; [assumption|]. split; [reflexivity|].
        intros g Hg. right. now apply Hin.
      * exists k', (grid row :: added). rewrite <- app_assoc.
        split; [assumption|]. split; [assumption|]. split; [reflexivity|].
        intros g [<-|Hg]; [now left|right; now apply Hin].
    + destruct He as [He|He]; destruct Hm as [Hm|Hm]; rewrite He, Hm.
      * exists 0%nat, []. cbn. rewrite app_nil_r.
        split; [lia|]. split; [reflexivity|]. split; [reflexivity|]. intros g [].
      * exists 0%nat, [grid row]. cbn.
        split; [lia|]. split; [reflexivity|]. split; [reflexivity|].
        intros g [<-|[]]. now left.
      * exists 1%nat, []. cbn. rewrite app_nil_r.
        split; [lia|]. split; [reflexivity|]. split; [reflexivity|]. intros g [].
      * exists 1%nat, [grid row]. cbn.
        split; [lia|]. split; [reflexivity|]. split; [reflexivity|].
        intros g [<-|[]]. now left.
Qed.

End StoreFacts.

Lemma rect_world_carries_identity : carries_identity (W := RectWorld.world).
Proof. intros ldata aug tid d H. injection H as <-. reflexivity. Qed.

Lemma run_keeps_well_keyed_witness :
  well_keyed (store (state_of
    (run_rows RectWorld.three_grids "g_2020" ["none"] 2 RectWorld.three_grids
       {| df_edges := RectWorld.one_field; merged_grids := [];
          store := (∅ : directory unit) |}))).
Proof.
  apply (run_keeps_well_keyed RectWorld.three_grids "g_2020" ["none"] 2).
  intros k d H. cbn [store] in H. rewrite lookup_empty in H. discriminate H.
Defined.

Lemma generate_stores_all_witness :
  stored (<[data_file "g_2020_a_none" :=
            {| train_id := "g_2020_a_none"; payload := tt |}]> ∅
          : directory unit) "g_2020_a_none" = true.
Proof.
  destruct (generate_stores_all RectWorld.three_grids "g_2020" ["none"] 2
              {| grid := "a"; geometry := (0, 0, 10, 10) |}
              {| df_edges := RectWorld.one_field; merged_grids := [];
                 store := (∅ : directory unit) |}
              {| df_edges := RectWorld.one_field; merged_grids := [];
                 store := <[data_file "g_2020_a_none" :=
                            {| train_id := "g_2020_a_none"; payload := tt |}]> ∅ |}
              [((5, 2, 20, 8), 1)] [0; 1]%nat
              rect_world_carries_identity) as [H|H].
  - vm_compute. reflexivity.
  - discriminate H.
  - apply (H "none" "g_2020_a_none"); cbn; auto.
Defined.

(** Running again writes nothing.  With an augmentation that returns
    records carrying the identity it is given: when [create_dataset] ends
    normally, a second call with the same grids, edges and transforms on
    the store that the first call left ends normally in the same final
    state, and it does so without a call of [augment], the one place a
    record is saved after: the second call ends in that state whatever
    stands in the place of [augment], an augmentation that raises on every
    call included. *)
Theorem create_dataset_idempotent {Geom Frame ImageVars Sample Payload : Type}
    `{W : Collaborators Geom Frame ImageVars Sample Payload}
    (df_grids : list (GridRow Geom)) (df_edges0 : Frame) (group_id : string)
    (process_path : directory Payload) (transforms : option (list string))
    (n_ts : nat) (st1 : State Frame Payload)
    (augment' : Sample -> string -> string -> option (Data Payload)) :
  carries_identity (W := W) ->
  create_dataset df_grids df_edges0 group_id process_path transforms n_ts
    = Completed st1 ->
  create_dataset df_grids df_edges0 group_id (store st1) transforms n_ts
    = Completed st1 /\
  create_dataset (W := with_sampling W label_sample augment')
    df_grids df_edges0 group_id (store st1) transforms n_ts
    = Completed st1.
Proof.
  intros Hid H. unfold create_dataset in *. split.
  - exact (run_rows_rerun_same df_grids group_id _ n_ts df_grids _ st1
             augment Hid H).
  - exact (run_rows_rerun_same df_grids group_id _ n_ts df_grids _ st1
             augment' Hid H).
Qed.

Lemma create_dataset_idempotent_witness :
  let st1 := state_of (create_dataset RectWorld.three_grids RectWorld.one_field
                         "g_2020" (∅ : directory unit) None 2) in
  size (store st1) = 2%nat /\
  create_dataset (W := with_sampling RectWorld.world label_sample
                         (fun _ _ _ => None))
    RectWorld.three_grids RectWorld.one_field "g_2020" (store st1) None 2
  = Completed st1.
Proof.
  cbv zeta. split; [vm_compute; reflexivity|].
  apply (create_dataset_idempotent RectWorld.three_grids RectWorld.one_field
           "g_2020" ∅ None 2 _ (fun _ _ _ => None) rect_world_carries_identity).
  vm_compute. reflexivity.
Defined.

(** A cell that counts as processed keeps counting as processed: whatever
    a run does, [is_grid_processed] stays true on the store it leaves. *)
Theorem processed_stays_processed {Geom Frame ImageVars Sample Payload : Type}
    `{W : Collaborators Geom Frame ImageVars Sample Payload}
    (df_grids rows : list (GridRow Geom)) (group_id : string)
    (transforms : list string) (n_ts : nat) (st : State Frame Payload)
    (transforms' : list string) (group_id' grid' : string) (n_ts' : nat) :
  is_grid_processed (store st) transforms' group_id' grid' n_ts' = true ->
  is_grid_processed
    (store (state_of (run_rows df_grids group_id transforms n_ts rows st)))
    transforms' group_id' grid' n_ts' = true.
Proof.
  apply is_grid_processed_mono.
  apply (run_rows_grows df_grids group_id transforms n_ts rows st).
Qed.

Lemma processed_stays_processed_witness :
  let st : State RectWorld.frame unit :=
    {| df_edges := RectWorld.one_field; merged_grids := [];
       store := <[data_file "g_2020_a_none" :=
                  {| train_id := "g_2020_a_none"; payload := tt |}]> ∅ |} in
  is_grid_processed
    (store (state_of (run_rows RectWorld.three_grids "g_2020" ["none"] 2
                        RectWorld.three_grids st)))
    ["none"] "g_2020" "a" 2 = true.
Proof.
  cbv zeta.
  apply (processed_stays_processed RectWorld.three_grids RectWorld.three_grids
           "g_2020" ["none"] 2).
  vm_compute. reflexivity.
Defined.

(** ** [fill_field_gaps] *)







(** ** The band loop of the network *)

Lemma band_cover (F T n : nat) :
  flat_map (fun k => seq (k * T) (Nat.min (k * T + T) F - k * T)) (seq 0 n)
  = seq 0 (Nat.min (n * T) F).
Proof.
  induction n as [|n IH]; [reflexivity|].
  rewrite seq_S, flat_map_app, IH. cbn [flat_map Nat.add]. rewrite app_nil_r.
  destruct (Nat.le_gt_cases (n * T) F) as [Hle|Hgt].
  - rewrite (Nat.min_l (n * T) F) by assumption.
    replace (Nat.min (S n * T) F)
      with (n * T + (Nat.min (n * T + T) F - n * T))%nat by lia.
    symmetry. apply seq_app.
  - rewrite (Nat.min_r (n * T) F) by lia.
    replace (Nat.min (n * T + T) F - n * T)%nat with 0%nat by lia.
    replace (Nat.min (S n * T) F) with F by lia.
    cbn [seq]. now rewrite app_nil_r.
Qed.

Lemma ceil_div_bounds (F T : nat) :
  (0 < T)%nat ->
  (F <= (F + T - 1) / T * T)%nat /\
  ((F + T - 1) / T = F / T + (if (F mod T =? 0)%nat then 0 else 1))%nat.
Proof.
  intros HT.
  assert (Hdiv : ((F + T - 1) / T = F / T + (if (F mod T =? 0)%nat then 0 else 1))%nat).
  { pose proof (Nat.div_mod_eq F T) as Hdm.
    pose proof (Nat.mod_upper_bound F T ltac:(lia)) as Hub.
    destruct (Nat.eqb_spec (F mod T) 0) as [E|E].
    - rewrite Nat.add_0_r. symmetry.
      apply (Nat.div_unique (F + T - 1) T (F / T) (T - 1)); [lia|]. nia.
    - symmetry.
      apply (Nat.div_unique (F + T - 1) T (F / T + 1) (F mod T - 1)); [lia|]. nia. }
  split; [|exact Hdiv]. rewrite Hdiv.
  pose proof (Nat.div_mod_eq F T) as Hdm.
  pose proof (Nat.mod_upper_bound F T ltac:(lia)) as Hub.
  destruct (Nat.eqb_spec (F mod T) 0); nia.
Qed.

(** The loops of [forward] over [range(0, ds_features, ds_time_features)]
    read every column of the input exactly once and in order: the slices
    [band:band+ds_time_features], cut at the width of the input,
    concatenate to the columns 0 .. ds_features-1.  No slice is wider than
    [ds_time_features]. *)
Theorem band_slices_cover (ds_features ds_time_features : nat) :
  (0 < ds_time_features)%nat ->
  exists slices,
    band_slices ds_features ds_time_features = Some slices /\
    flat_map slice_columns slices = seq 0 ds_features /\
    (forall s, In s slices -> (snd s - fst s <= ds_time_features)%nat).
Proof.
  intros HT. unfold band_slices, py_range0.
  destruct ds_time_features as [|T']; [lia|]. set (T := S T') in *.
  eexists. split; [reflexivity|]. split.
  - rewrite map_map, flat_map_concat_map, map_map, <- flat_map_concat_map.
    unfold slice_columns. cbn [fst snd].
    rewrite (band_cover ds_features T).
    f_equal. pose proof (ceil_div_bounds ds_features T HT) as [H _]. lia.
  - intros s Hs. apply in_map_iff in Hs as (band & <- & _). cbn [fst snd]. lia.
Qed.

Lemma band_slices_cover_witness :
  exists slices,
    band_slices 12 4 = Some slices /\
    flat_map slice_columns slices = seq 0 12 /\
    (forall s, In s slices -> (snd s - fst s <= 4)%nat).
Proof. apply (band_slices_cover 12 4). lia. Defined.



(** ** The recoding chain as a whole *)

Lemma recode_fold_frame dt (lc edges : array Z) (codes : list Z) :
  forall R k,
    same_shape (fst (fold_left (recode_step dt lc edges) codes (R, k))) R /\
    forall r c, in_range R r c -> get 0 edges r c <> 0 ->
      get 0 (fst (fold_left (recode_step dt lc edges) codes (R, k))) r c
      = get 0 R r c.
Proof.
  induction codes as [|v codes IH]; intros R k; cbn [fold_left].
  - split; [split; reflexivity|reflexivity].
  - rewrite (surjective_pairing (recode_step dt lc edges (R, k) v)).
    destruct (IH (fst (recode_step dt lc edges (R, k) v))
                 (snd (recode_step dt lc edges (R, k) v))) as [Hs Hg].
    assert (Hstep : same_shape (fst (recode_step dt lc edges (R, k) v)) R /\
              forall r c, in_range R r c -> get 0 edges r c <> 0 ->
                get 0 (fst (recode_step dt lc edges (R, k) v)) r c = get 0 R r c).
    { unfold recode_step. destruct (String.eqb dt "boundaries").
      - cbn [fst]. split; [apply shape_of_mk|]. intros r c [Hr Hc] He.
        rewrite get_mk by assumption.
        destruct (Z.eqb_spec (get 0 edges r c) 0); [contradiction|].
        now rewrite andb_false_r.
      - cbv zeta. destruct (_ >? 0); cbn [fst];
          (split; [apply shape_of_mk|]; intros r c [Hr Hc] He;
           rewrite get_mk by assumption;
           destruct (Z.eqb_spec (get 0 edges r c) 0); [contradiction|];
           now rewrite andb_false_r). }
    destruct Hstep as [Hs1 Hg1].
    split; [eapply same_shape_trans; eassumption|].
    intros r c Hin He.
    rewrite Hg by (try assumption; now apply (same_shape_in_range _ R)).
    now apply Hg1.
Qed.

Lemma fold_uniform_shape dt seg (items : list (Z * Z)) :
  forall L, same_shape (fold_left (uniform_step dt seg) items L) L.
Proof.
  induction items as [|it items IH]; intros L; cbn [fold_left].
  - split; reflexivity.
  - eapply same_shape_trans; [apply IH|apply same_shape_uniform_step].
Qed.

(** Lines 534-543 of [create_dataset] as one step, for a labelling that
    returns an array of the shape of its mask.  The copy [edges] is the
    label array after [close_edge_ends].  A cell where that copy holds 1
    ends as the edge class.  And when the labelling gives the label 0
    exactly to the cells off its mask, a cell where the copy holds any
    value other than 0 and 1 ends as background. *)
Theorem recode_chain_cells (nd_label : array Z -> array Z) (crop_codes : list Z)
    (labels_array lc_labels : array Z) (data_type : string)
    (out edges segments : array Z) (r c : nat) :
  recode_chain nd_label crop_codes labels_array lc_labels data_type
    = Some (out, edges, segments) ->
  same_shape segments edges ->
  in_range labels_array r c ->
  close_edge_ends labels_array = Some edges /\
  (get 0 edges r c = 1 -> get 0 out r c = EDGE_CLASS) /\
  ((forall r' c', in_range edges r' c' ->
      (get 0 segments r' c' = 0 <-> get 0 edges r' c' <> 0)) ->
   get 0 edges r c <> 0 -> get 0 edges r c <> 1 -> get 0 out r c = 0).
Proof.
  intros H Hseg Hin. unfold recode_chain in H.
  destruct (close_edge_ends labels_array) as [cl|] eqn:Hcl; [|discriminate].
  cbn [mbind option_bind] in H.
  destruct (recode_crop_labels crop_codes cl lc_labels true data_type)
    as [[rec e]|] eqn:Hrec; [|discriminate].
  cbn [mbind option_bind] in H.
  rewrite (surjective_pairing (make_crops_uniform nd_label rec e data_type)) in H.
  rewrite (surjective_pairing (check_slivers _ e _)) in H.
  injection H as Hout He Hs.
  assert (Hecl : e = cl).
  { unfold recode_crop_labels in Hrec.
    destruct (_ && _); [|discriminate]. now injection Hrec. }
  subst e. subst edges.
  destruct (close_edge_ends_get labels_array cl Hcl) as (_ & _ & Hshc & _).
  assert (Hincl : in_range cl r c) by now apply (same_shape_in_range cl labels_array).
  assert (Hrecsh : same_shape rec cl /\
            forall r' c', in_range cl r' c' -> get 0 cl r' c' <> 0 ->
              get 0 rec r' c' = 0).
  { unfold recode_crop_labels in Hrec.
    destruct (_ && _); [|discriminate]. injection Hrec as Hr.
    match type of Hr with
    | fst (fold_left (recode_step _ ?lc _) _ (?R0, _)) = _ =>
        destruct (recode_fold_frame data_type lc cl crop_codes R0 1) as [A B]
    end.
    rewrite Hr in A, B.
    assert (Hz : same_shape (zeros_like (B:=Z) 0 cl) cl) by apply shape_of_mk.
    split; [eapply same_shape_trans; eassumption|].
    intros r' c' Hin' Hne.
    rewrite B by (try assumption; now apply (same_shape_in_range _ cl)).
    unfold zeros_like. now rewrite get_mk by apply Hin'. }
  destruct Hrecsh as [Hrs Hrz].
  set (seg := nd_label (amap 0 (fun v => b2z (v =? 0)) cl)) in *.
  assert (Hsegeq : segments = seg) by (now rewrite <- Hs).
  subst segments.
  set (U := fst (make_crops_uniform nd_label rec cl data_type)) in *.
  assert (HU : same_shape U rec).
  { unfold U, make_crops_uniform. cbn [fst]. apply fold_uniform_shape. }
  assert (HsegU : same_shape seg U).
  { eapply same_shape_trans; [exact Hseg|]. apply same_shape_sym.
    eapply same_shape_trans; eassumption. }
  assert (HinU : in_range U r c).
  { apply (same_shape_in_range U rec); [assumption|].
    now apply (same_shape_in_range rec cl). }
  split; [reflexivity|].
  assert (Hcs : get 0 out r c =
            if get 0 cl r c =? 1 then EDGE_CLASS
            else if (0 <? get 0 seg r c)
                    && thin (region_of seg (get 0 seg r c))
            then 0 else get 0 U r c).
  { rewrite <- Hout. exact (check_slivers_rule U cl seg r c HsegU HinU). }
  rewrite Hcs. clear Hcs.
  split.
  - intros ->. reflexivity.
  - intros Hzero Hne0 Hne1.
    destruct (Z.eqb_spec (get 0 cl r c) 1); [contradiction|].
    assert (Hs0 : get 0 seg r c = 0) by now apply Hzero.
    rewrite Hs0. cbn [Z.ltb Z.compare andb].
    assert (Hsr : same_shape seg rec).
    { eapply same_shape_trans; [exact Hseg|now apply same_shape_sym]. }
    pose proof (make_crops_uniform_get nd_label rec cl data_type r c) as Hg.
    cbv zeta in Hg. fold seg in Hg. fold U in Hg.
    rewrite Hg by (try assumption; now apply (same_shape_in_range rec cl)).
    rewrite Hs0. unfold uniform_value.
    assert (Ht : crop_total seg rec 0 = 0).
    { unfold crop_total, take_idx.
      assert (Hall : forall l : list (nat * nat),
                (forall rc, In rc l -> in_range seg (fst rc) (snd rc) /\
                                       get 0 seg (fst rc) (snd rc) = 0) ->
                fold_right Z.add 0
                  (map (fun rc => get 0 (amap 0 (fun v => b2z (v >? 0)) rec)
                                     (fst rc) (snd rc)) l) = 0).
      { induction l as [|rc l IHl]; intros Hl; [reflexivity|].
        cbn [map fold_right]. rewrite IHl by (intros; apply Hl; now right).
        destruct (Hl rc (or_introl eq_refl)) as [Hi Hz0].
        rewrite get_amap by now apply (same_shape_in_range seg rec).
        rewrite Hrz; [reflexivity| |].
        - now apply (same_shape_in_range seg cl).
        - apply Hzero; [now apply (same_shape_in_range seg cl)|assumption]. }
      apply Hall. intros [r' c'] Hrc. cbn [fst snd].
      apply in_where_idx in Hrc as [Hi Hp]. split; [assumption|].
      now apply Z.eqb_eq. }
    now rewrite Ht.
Qed.

Lemma recode_chain_cells_witness :
  let labels_array :=
    [[0; 0; 0; 0; 0; 0]; [0; 2; 2; 2; 2; 0]; [0; 2; 1; 1; 2; 0];
     [0; 2; 1; 1; 2; 0]; [0; 2; 2; 2; 2; 0]; [0; 0; 0; 0; 0; 0]] in
  close_edge_ends labels_array = Some labels_array.
Proof.
  cbv zeta.
  apply (recode_chain_cells cc_label [1; 5]
           [[0; 0; 0; 0; 0; 0]; [0; 2; 2; 2; 2; 0]; [0; 2; 1; 1; 2; 0];
            [0; 2; 1; 1; 2; 0]; [0; 2; 2; 2; 2; 0]; [0; 0; 0; 0; 0; 0]]
           (mk 6 6 (fun _ _ => 1)) "boundaries"
           [[1; 1; 1; 1; 1; 1]; [1; 0; 0; 0; 0; 1]; [1; 0; 2; 2; 0; 1];
            [1; 0; 2; 2; 0; 1]; [1; 0; 0; 0; 0; 1]; [1; 1; 1; 1; 1; 1]]
           [[0; 0; 0; 0; 0; 0]; [0; 2; 2; 2; 2; 0]; [0; 2; 1; 1; 2; 0];
            [0; 2; 1; 1; 2; 0]; [0; 2; 2; 2; 2; 0]; [0; 0; 0; 0; 0; 0]]
           [[1; 1; 1; 1; 1; 1]; [1; 0; 0; 0; 0; 1]; [1; 0; 0; 0; 0; 1];
            [1; 0; 0; 0; 0; 1]; [1; 0; 0; 0; 0; 1]; [1; 1; 1; 1; 1; 1]]
           2 2).
  - vm_compute. reflexivity.
  - split; reflexivity.
  - split; cbn; lia.
Defined.

(** ** The identities of the temporal variants *)

Lemma distinct_strings_NoDup (l : list string) :
  distinct_strings l = true -> List.NoDup l.
Proof.
  induction l as [|x l IH]; cbn [distinct_strings]; intros H; constructor.
  - apply andb_true_iff in H as [H _]. apply negb_true_iff in H.
    intros Hin. apply not_true_iff_false in H. apply H.
    apply existsb_exists. exists x. split; [assumption|apply String.eqb_refl].
  - apply IH. now apply andb_true_iff in H as [_ H].
Qed.

Lemma NoDup_map_injective {A B} (f : A -> B) (l : list A) :
  (forall x y, f x = f y -> x = y) -> List.NoDup l -> List.NoDup (map f l).
Proof.
  intros Hinj. induction 1 as [|x l Hx Hl IH]; cbn [map]; constructor.
  - intros Hin. apply in_map_iff in Hin as (y & E & Hy).
    apply Hinj in E. now subst.
  - exact IH.
Qed.

Lemma fmt_03d_distinct : List.NoDup (map fmt_03d (seq 0 1000)).
Proof. apply distinct_strings_NoDup. vm_compute. reflexivity. Qed.

Lemma NoDup_map_eq {A B} (f : A -> B) (l : list A) (x y : A) :
  List.NoDup (map f l) -> In x l -> In y l -> f x = f y -> x = y.
Proof.
  induction l as [|a l IH]; cbn [map]; intros Hnd Hx Hy E; [destruct Hx|].
  apply List.NoDup_cons_iff in Hnd as [Hna Hnd].
  destruct Hx as [->|Hx], Hy as [->|Hy].
  - reflexivity.
  - exfalso. apply Hna. rewrite E. now apply in_map.
  - exfalso. apply Hna. rewrite <- E. now apply in_map.
  - now apply IH.
Qed.

Lemma fmt_03d_short (i : nat) :
  (i < 1000)%nat -> String.length (fmt_03d i) = 3%nat.
Proof.
  intros Hi.
  assert (H : forallb (fun i => (String.length (fmt_03d i) =? 3)%nat)
                      (seq 0 1000) = true) by (vm_compute; reflexivity).
  rewrite forallb_forall in H. apply Nat.eqb_eq, H, in_seq. lia.
Qed.

Lemma pretty_N_go_length (x : N) :
  forall s, (String.length s <= String.length (pretty_N_go x s))%nat.
Proof.
  induction (N.lt_wf_0 x) as [x _ IH]; intros s.
  destruct (N.eq_dec x 0%N) as [->|Hx]; [now rewrite pretty_N_go_0|].
  rewrite pretty_N_go_step by lia.
  etransitivity; [|apply IH; apply N.div_lt; lia].
  cbn [String.length]. lia.
Qed.

Lemma pretty_long (i : nat) :
  (1000 <= i)%nat -> (4 <= String.length (pretty i))%nat.
Proof.
  intros Hi. unfold pretty, pretty_nat, pretty, pretty_N.
  set (x := N.of_nat i).
  assert (Hx : (1000 <= x)%N) by (unfold x; lia).
  destruct (decide (x = 0%N)) as [E|_]; [lia|].
  assert (H1 : (100 <= x / 10)%N) by (apply N.div_le_lower_bound; lia).
  assert (H2 : (10 <= x / 10 / 10)%N)
    by (apply N.div_le_lower_bound; lia).
  assert (H3 : (1 <= x / 10 / 10 / 10)%N)
    by (apply N.div_le_lower_bound; lia).
  rewrite (pretty_N_go_step x) by lia.
  rewrite (pretty_N_go_step (x / 10)%N) by lia.
  rewrite (pretty_N_go_step (x / 10 / 10)%N) by lia.
  rewrite (pretty_N_go_step (x / 10 / 10 / 10)%N) by lia.
  etransitivity; [|apply pretty_N_go_length]. cbn [String.length]. lia.
Qed.

Lemma fmt_03d_long (i : nat) : (1000 <= i)%nat -> fmt_03d i = pretty i.
Proof.
  intros Hi. unfold fmt_03d. cbv zeta.
  pose proof (pretty_long i Hi) as Hl.
  replace (3 - String.length (pretty i))%nat with 0%nat by lia.
  reflexivity.
Qed.

Lemma fmt_03d_inj (i j : nat) : fmt_03d i = fmt_03d j -> i = j.
Proof.
  intros E.
  destruct (Nat.lt_ge_cases i 1000) as [Hi|Hi],
           (Nat.lt_ge_cases j 1000) as [Hj|Hj].
  - apply (NoDup_map_eq fmt_03d (seq 0 1000));
      [apply fmt_03d_distinct|apply in_seq; lia|apply in_seq; lia|exact E].
  - exfalso. pose proof (fmt_03d_short i Hi) as Hs.
    rewrite E, (fmt_03d_long j Hj) in Hs.
    pose proof (pretty_long j Hj). lia.
  - exfalso. pose proof (fmt_03d_short j Hj) as Hs.
    rewrite <- E, (fmt_03d_long i Hi) in Hs.
    pose proof (pretty_long i Hi). lia.
  - rewrite (fmt_03d_long i Hi), (fmt_03d_long j Hj) in E.
    now apply (inj pretty) in E.
Qed.

(** The files of one augmentation do not collide: whatever the number of
    temporal variants, the identities [..._000], [..._001], ... of a
    transform, and the file names made from them, are pairwise distinct, so
    no variant overwrites another; this holds past 999 as well, where the
    number takes more than three digits. *)
Theorem train_files_distinct (group_id grid0 aug : string) (n_ts : nat) :
  List.NoDup (map data_file (train_ids group_id n_ts grid0 aug)).
Proof.
  apply NoDup_map_injective; [apply data_file_inj|].
  unfold train_ids. destruct (is_ts aug).
  - apply NoDup_map_injective; [|apply List.seq_NoDup].
    intros x y H. unfold ts_train_id in H.
    repeat (apply string_append_inj_l in H). now apply fmt_03d_inj.
  - repeat constructor. intros [].
Qed.
